(** * quicker: frame parser, transport parameters, congestion control

    A shallow embedding of the parts of the quicker QUIC endpoint that its
    design document makes claims about:

    - [utilities/parsers/frame.parser.ts]   (module [FrameParser]),
    - [crypto/transport.parameters.ts]      (module [TransportParams]),
    - [congestion-control/congestion.control.ts] (module [Congestion]),
    - the error branch of [Server.onMessage] in [quicker/server.ts]
      (module [Server]),
    - [utilities/parsers/packet.parser.ts]  (module [PacketParser]).

    JavaScript numbers that hold offsets and lengths are integers here ([Z]),
    and so are [Bignum] values, whose [toNumber()] is taken to be exact, as
    it is for values below [2 ^ 53]; a [Buffer] is a list of bytes; a
    thrown exception is the [Throw] constructor of [result]. *)

From Stdlib Require Import ZArith List Bool Lia Strings.Byte QArith Qround.
Import ListNotations.
Open Scope Z_scope.

(** ** Exceptions and results *)

(** The exceptions the modelled code can raise: the QUIC connection errors
    it constructs ([QuicError] with a code of [ConnectionErrorCodes]) and
    the [RangeError] Node raises for an out-of-range buffer access or
    allocation, and the [TypeError] of a method call on [undefined]. *)
Inductive Error : Type :=
| FRAME_ENCODING_ERROR
| TRANSPORT_PARAMETER_ERROR
| VERSION_NEGOTIATION_ERROR
| PROTOCOL_VIOLATION
| IGNORE_PACKET_ERROR
| RangeError
| TypeError.

Inductive result (A : Type) : Type :=
| Ok (a : A)
| Throw (e : Error).
Arguments Ok {A} a.
Arguments Throw {A} e.

Definition bind {A B : Type} (r : result A) (k : A -> result B) : result B :=
  match r with
  | Ok a => k a
  | Throw e => Throw e
  end.

Notation "x <- c1 ;; c2" := (bind c1 (fun x => c2))
  (at level 61, c1 at next level, right associativity).
Notation "' pat <- c1 ;; c2" := (bind c1 (fun x => match x with pat => c2 end))
  (at level 61, pat pattern, c1 at next level, right associativity).

(** ** Node buffers *)

Module Buffer.

Definition t : Type := list byte.

Definition byteLength (b : t) : Z := Z.of_nat (length b).

Definition byte_val (b : byte) : Z := Z.of_N (Byte.to_N b).

(** [buffer.readUInt8(offset)]: a [RangeError] outside the buffer. *)
Definition readUInt8 (b : t) (offset : Z) : result Z :=
  if offset <? 0 then Throw RangeError
  else match nth_error b (Z.to_nat offset) with
       | Some x => Ok (byte_val x)
       | None => Throw RangeError
       end.

(** Big-endian accumulation of [n] bytes from [offset] on, on top of the
    value [acc] read so far. *)
Fixpoint readBE (n : nat) (b : t) (offset : Z) (acc : Z) : result Z :=
  match n with
  | O => Ok acc
  | S n' =>
      x <- readUInt8 b offset ;;
      readBE n' b (offset + 1) (acc * 256 + x)
  end.

(** [buffer.readUIntBE(offset, byteLength)]. *)
Definition readUIntBE (b : t) (offset : Z) (len : Z) : result Z :=
  readBE (Z.to_nat len) b offset 0.

(** [buffer.readUInt16BE(offset)]. *)
Definition readUInt16BE (b : t) (offset : Z) : result Z :=
  readBE 2 b offset 0.

(** Largest length [Buffer.alloc] accepts: Node's [kMaxLength] up to
    version 13, [2 ^ 31 - 1]; later versions accept longer buffers. *)
Definition kMaxLength : Z := 2147483647.

(** [Buffer.alloc(size)]: zero-filled. *)
Definition alloc (size : Z) : result t :=
  if (size <? 0) || (kMaxLength <? size) then Throw RangeError
  else Ok (repeat x00 (Z.to_nat size)).

(** The bytes of [b] at offsets [start, end_), both clamped to the
    buffer; empty when [end_ <= start]. *)
Definition slice (b : t) (start end_ : Z) : t :=
  let s := Z.max 0 start in
  let e := Z.min end_ (byteLength b) in
  firstn (Z.to_nat (e - s)) (skipn (Z.to_nat s) b).

(** [source.copy(target, 0, sourceStart, sourceEnd)] on a freshly
    allocated [target], for a [sourceStart] of at least 0: the copied
    bytes followed by the zeroes left of the allocation.  Nothing is
    copied into an empty target or from an empty range; otherwise a
    [sourceStart] beyond the source is a [RangeError]. *)
Definition copy (source target : t) (sourceStart sourceEnd : Z) : result t :=
  if (byteLength target <=? 0) || (sourceEnd <=? sourceStart) then Ok target
  else if byteLength source <? sourceStart then Throw RangeError
  else
    let got := firstn (length target) (slice source sourceStart sourceEnd) in
    Ok (got ++ skipn (length got) target).

(** [var b = Buffer.alloc(n); source.copy(b, 0, start, start + n)]. *)
Definition allocCopy (source : t) (start n : Z) : result t :=
  target <- alloc n ;;
  copy source target start (start + n).

(** [buffer.toString('utf8', start, end)].  The phrase is kept as its
    UTF-8 bytes, which are the string for bytes that are valid UTF-8. *)
Definition toString (b : t) (start end_ : Z) : t := slice b start end_.

(** The byte of value [z], for [0 <= z < 256]. *)
Definition byte_of (z : Z) : byte :=
  match Byte.of_N (Z.to_N z) with
  | Some b => b
  | None => x00
  end.

(** The two bytes [writeUInt16BE(n)] writes. *)
Definition uint16BE (n : Z) : t := [byte_of (n / 256); byte_of (n mod 256)].

(** The unsigned big-endian integer a sequence of bytes encodes. *)
Definition bigEndian (bytes : t) : Z :=
  fold_left (fun acc x => acc * 256 + byte_val x) bytes 0.

End Buffer.

(** ** Variable-length integers *)

Module VLIE.

Record VLIEOffset : Type := mkVLIEOffset { value : Z; offset : Z }.

(** Modelled from the spec: [VLIE.decode] of [crypto/vlie], which is not
    among the sources.  The two high bits of the first byte give the
    length class (1, 2, 4 or 8 bytes), the remaining bits are a
    big-endian unsigned integer; decoding fails with
    [FRAME_ENCODING_ERROR] when the offset is past the end.  Bytes of a
    truncated encoding are read with [readUInt8], which raises. *)
Definition decode (buffer : Buffer.t) (off : Z) : result VLIEOffset :=
  if Buffer.byteLength buffer <=? off then Throw FRAME_ENCODING_ERROR
  else
    msb <- Buffer.readUInt8 buffer off ;;
    let count := Z.shiftr msb 6 in
    let size := Z.shiftl 1 count in
    v <- Buffer.readBE (Z.to_nat (size - 1)) buffer (off + 1)
           (Z.land msb 63) ;;
    Ok (mkVLIEOffset v (off + size)).

End VLIE.

(** ** Frames *)

(** The numbering of [FrameType] ([frame/base.frame], not among the
    sources).  The parser is written against the names only, so the
    numbering is a parameter of the model. *)
Record FrameTypeEnum : Type := mkFrameTypeEnum {
  PADDING : Z;
  RST_STREAM : Z;
  CONNECTION_CLOSE : Z;
  APPLICATION_CLOSE : Z;
  MAX_DATA : Z;
  MAX_STREAM_DATA : Z;
  MAX_STREAM_ID : Z;
  PING : Z;
  BLOCKED : Z;
  STREAM_BLOCKED : Z;
  STREAM_ID_BLOCKED : Z;
  NEW_CONNECTION_ID : Z;
  STOP_SENDING : Z;
  ACK : Z;
  PATH_CHALLENGE : Z;
  PATH_RESPONSE : Z;
  STREAM : Z;
  STREAM_MAX_NR : Z;
  CRYPTO : Z;
  ACK_ECN : Z
}.

(** Modelled from the spec: the frame type bytes of the wire-format table
    (section 6), with [ACK_ECN] at the value the design notes give for it,
    [0x1a]. *)
Definition FrameType : FrameTypeEnum :=
  {| PADDING := 0x00; RST_STREAM := 0x01; CONNECTION_CLOSE := 0x02;
     APPLICATION_CLOSE := 0x03; MAX_DATA := 0x04; MAX_STREAM_DATA := 0x05;
     MAX_STREAM_ID := 0x06; PING := 0x07; BLOCKED := 0x08;
     STREAM_BLOCKED := 0x09; STREAM_ID_BLOCKED := 0x0a;
     NEW_CONNECTION_ID := 0x0b; STOP_SENDING := 0x0c; ACK := 0x0d;
     PATH_CHALLENGE := 0x0e; PATH_RESPONSE := 0x0f; STREAM := 0x10;
     STREAM_MAX_NR := 0x17; CRYPTO := 0x18; ACK_ECN := 0x1a |}.

(** Modelled from the spec: [Constants.PATH_CHALLENGE_PAYLOAD_SIZE] and
    [Constants.PATH_RESPONSE_PAYLOAD_SIZE] of [utilities/constants], which
    is not among the sources; the payload is 8 opaque bytes. *)
Definition PATH_CHALLENGE_PAYLOAD_SIZE : Z := 8.
Definition PATH_RESPONSE_PAYLOAD_SIZE : Z := 8.

Record AckBlock : Type := mkAckBlock { gap : Z; block : Z }.

Record ConnectionID : Type := mkConnectionID {
  cidBuffer : Buffer.t;
  cidLength : Z
}.

(** What [FrameFactory.createAckFrame] is given, and the three counters the
    parser sets afterwards ([None] while unset). *)
Record AckFrame : Type := mkAckFrame {
  containsECNinfo : bool;
  largestAcknowledged : Z;
  ackDelay : Z;
  ackBlockCount : Z;
  firstAckBlock : Z;
  ackBlocks : list AckBlock;
  ECT0count : option Z;
  ECT1count : option Z;
  CEcount : option Z
}.

Definition setECT0count (v : Z) (f : AckFrame) : AckFrame :=
  mkAckFrame (containsECNinfo f) (largestAcknowledged f) (ackDelay f)
    (ackBlockCount f) (firstAckBlock f) (ackBlocks f)
    (Some v) (ECT1count f) (CEcount f).

Definition setECT1count (v : Z) (f : AckFrame) : AckFrame :=
  mkAckFrame (containsECNinfo f) (largestAcknowledged f) (ackDelay f)
    (ackBlockCount f) (firstAckBlock f) (ackBlocks f)
    (ECT0count f) (Some v) (CEcount f).

Definition setCEcount (v : Z) (f : AckFrame) : AckFrame :=
  mkAckFrame (containsECNinfo f) (largestAcknowledged f) (ackDelay f)
    (ackBlockCount f) (firstAckBlock f) (ackBlocks f)
    (ECT0count f) (ECT1count f) (Some v).

(** What [FrameFactory.createStreamFrame(streamID, data, fin, true,
    dataOffset)] is given, and the length set afterwards. *)
Record StreamFrame : Type := mkStreamFrame {
  streamID : Z;
  streamData : Buffer.t;
  fin : bool;
  len : bool;
  dataOffset : Z;
  streamLength : Z
}.

Inductive BaseFrame : Type :=
| FPadding (paddingSize : Z)
| FRstStream (streamID applicationErrorCode finalOffset : Z)
| FConnectionClose (errorCode : Z) (phrase : Buffer.t)
| FApplicationClose (errorCode : Z) (phrase : Buffer.t)
| FMaxData (maxData : Z)
| FMaxStreamData (streamID maxStreamData : Z)
| FMaxStreamId (maxStreamID : Z)
| FPing
| FBlocked (blockedOffset : Z)
| FStreamBlocked (streamID blockedOffset : Z)
| FStreamIdBlocked (streamID : Z)
| FNewConnectionId (sequence : Z) (connectionID : ConnectionID)
    (statelessResetToken : Buffer.t)
| FStopSending (streamID appErrorCode : Z)
| FAck (frame : AckFrame)
| FPathChallenge (data : Buffer.t)
| FPathResponse (data : Buffer.t)
| FCrypto (data : Buffer.t) (cryptoOffset : Z)
| FStream (frame : StreamFrame).

Definition isPadding (f : BaseFrame) : bool :=
  match f with FPadding _ => true | _ => false end.

Record FrameOffset : Type := mkFrameOffset {
  frame : BaseFrame;
  offset : Z
}.

Inductive FrameTypeClose : Type := CLOSE_CONNECTION | CLOSE_APPLICATION.

(** ** utilities/parsers/frame.parser.ts *)

Module FrameParser.
Section WithFrameTypes.

Variable FT : FrameTypeEnum.

Definition ret (f : BaseFrame) (o : Z) : result FrameOffset :=
  Ok (mkFrameOffset f o).

(** The [while] of [parsePadding]: [rest] holds the bytes from [offset]
    to the end of the buffer.  ([parsePadding] is only called by
    [parseFrame], with the offset that follows the type byte.) *)
Fixpoint parsePadding_while (rest : list byte) (offset : Z) : Z :=
  match rest with
  | b :: rest' =>
      if Buffer.byte_val b =? 0 then parsePadding_while rest' (offset + 1)
      else offset
  | [] => offset
  end.

Definition parsePadding (buffer : Buffer.t) (offset : Z) : result FrameOffset :=
  let startOffset := offset in
  let offset :=
    parsePadding_while (skipn (Z.to_nat offset) buffer) offset in
  let paddingSize := offset - startOffset in
  ret (FPadding paddingSize) offset.

Definition parseRstStream (buffer : Buffer.t) (offset : Z) : result FrameOffset :=
  streamID <- VLIE.decode buffer offset ;;
  let offset := VLIE.offset streamID in
  applicationErrorCode <- Buffer.readUInt16BE buffer offset ;;
  let offset := offset + 2 in
  finalOffset <- VLIE.decode buffer offset ;;
  ret (FRstStream (VLIE.value streamID) applicationErrorCode
         (VLIE.value finalOffset))
      (VLIE.offset finalOffset).

Definition parseClose (type : FrameTypeClose) (buffer : Buffer.t) (offset : Z)
  : result FrameOffset :=
  errorCode <- Buffer.readUInt16BE buffer offset ;;
  let offset := offset + 2 in
  phraseLength <- VLIE.decode buffer offset ;;
  let phrase :=
    Buffer.toString buffer (VLIE.offset phraseLength)
      (VLIE.value phraseLength) in
  let offset := VLIE.offset phraseLength + VLIE.value phraseLength in
  match type with
  | CLOSE_APPLICATION => ret (FApplicationClose errorCode phrase) offset
  | CLOSE_CONNECTION => ret (FConnectionClose errorCode phrase) offset
  end.

Definition parseMaxData (buffer : Buffer.t) (offset : Z) : result FrameOffset :=
  maxData <- VLIE.decode buffer offset ;;
  ret (FMaxData (VLIE.value maxData)) (VLIE.offset maxData).

Definition parseMaxStreamData (buffer : Buffer.t) (offset : Z)
  : result FrameOffset :=
  streamID <- VLIE.decode buffer offset ;;
  maxStreamData <- VLIE.decode buffer (VLIE.offset streamID) ;;
  ret (FMaxStreamData (VLIE.value streamID) (VLIE.value maxStreamData))
      (VLIE.offset maxStreamData).

Definition parseMaxStreamId (buffer : Buffer.t) (offset : Z)
  : result FrameOffset :=
  maxStreamID <- VLIE.decode buffer offset ;;
  ret (FMaxStreamId (VLIE.value maxStreamID)) (VLIE.offset maxStreamID).

Definition parsePing (buffer : Buffer.t) (offset : Z) : result FrameOffset :=
  ret FPing offset.

Definition parseBlocked (buffer : Buffer.t) (offset : Z) : result FrameOffset :=
  blockedOffset <- VLIE.decode buffer offset ;;
  ret (FBlocked (VLIE.value blockedOffset)) (VLIE.offset blockedOffset).

Definition parseStreamBlocked (buffer : Buffer.t) (offset : Z)
  : result FrameOffset :=
  streamID <- VLIE.decode buffer offset ;;
  blockedOffset <- VLIE.decode buffer (VLIE.offset streamID) ;;
  ret (FStreamBlocked (VLIE.value streamID) (VLIE.value blockedOffset))
      (VLIE.offset blockedOffset).

Definition parseStreamIdBlocked (buffer : Buffer.t) (offset : Z)
  : result FrameOffset :=
  streamID <- VLIE.decode buffer offset ;;
  ret (FStreamIdBlocked (VLIE.value streamID)) (VLIE.offset streamID).

Definition parseNewConnectionId (buffer : Buffer.t) (offset : Z)
  : result FrameOffset :=
  sequence <- VLIE.decode buffer offset ;;
  let offset := VLIE.offset sequence in
  connectionIDLength <- Buffer.readUInt8 buffer offset ;;
  let offset := offset + 1 in
  connectionIDBuffer <- Buffer.allocCopy buffer offset connectionIDLength ;;
  let offset := offset + connectionIDLength in
  statelessResetToken <- Buffer.allocCopy buffer offset 16 ;;
  let offset := offset + 16 in
  let connectionID := mkConnectionID connectionIDBuffer connectionIDLength in
  ret (FNewConnectionId (VLIE.value sequence) connectionID
         statelessResetToken)
      offset.

Definition parseStopSending (buffer : Buffer.t) (offset : Z)
  : result FrameOffset :=
  streamID <- VLIE.decode buffer offset ;;
  appErrorCode <- Buffer.readUInt16BE buffer (VLIE.offset streamID) ;;
  let offset := VLIE.offset streamID + 2 in
  ret (FStopSending (VLIE.value streamID) appErrorCode) offset.

(** The [for] loop of [parseAck], run [n] times from [offset]. *)
Fixpoint parseAckBlocks (n : nat) (buffer : Buffer.t) (offset : Z)
  : result (list AckBlock * Z) :=
  match n with
  | O => Ok ([], offset)
  | S n' =>
      gap <- VLIE.decode buffer offset ;;
      block <- VLIE.decode buffer (VLIE.offset gap) ;;
      ' (rest, o) <- parseAckBlocks n' buffer (VLIE.offset block) ;;
      Ok (mkAckBlock (VLIE.value gap) (VLIE.value block) :: rest, o)
  end.

(** [parseAck] up to the creation of the frame: the ACK fields and the
    offset at which they end. *)
Definition parseAckFields (containsECN : bool) (buffer : Buffer.t) (offset : Z)
  : result (AckFrame * Z) :=
  largestAcknowledged <- VLIE.decode buffer offset ;;
  ackDelay <- VLIE.decode buffer (VLIE.offset largestAcknowledged) ;;
  ackBlockCount <- VLIE.decode buffer (VLIE.offset ackDelay) ;;
  firstAckBlock <- VLIE.decode buffer (VLIE.offset ackBlockCount) ;;
  let offset := VLIE.offset firstAckBlock in
  ' (ackBlocks, offset) <-
    parseAckBlocks (Z.to_nat (VLIE.value ackBlockCount)) buffer offset ;;
  Ok (mkAckFrame containsECN (VLIE.value largestAcknowledged)
        (VLIE.value ackDelay) (VLIE.value ackBlockCount)
        (VLIE.value firstAckBlock) ackBlocks None None None,
      offset).

Definition parseAck (containsECN : bool) (buffer : Buffer.t) (offset : Z)
  : result FrameOffset :=
  ' (frame, offset) <- parseAckFields containsECN buffer offset ;;
  if containsECN then
    if offset =? Buffer.byteLength buffer then
      ret (FAck frame) offset
    else
      ECT0 <- VLIE.decode buffer offset ;;
      ECT1 <- VLIE.decode buffer (VLIE.offset ECT0) ;;
      CE <- VLIE.decode buffer (VLIE.offset ECT1) ;;
      let offset := VLIE.offset CE in
      let frame := setECT0count (VLIE.value ECT0) frame in
      let frame := setECT1count (VLIE.value ECT1) frame in
      let frame := setCEcount (VLIE.value CE) frame in
      ret (FAck frame) offset
  else ret (FAck frame) offset.

Definition parsePathChallenge (buffer : Buffer.t) (offset : Z)
  : result FrameOffset :=
  data <- Buffer.allocCopy buffer offset PATH_CHALLENGE_PAYLOAD_SIZE ;;
  let offset := offset + PATH_CHALLENGE_PAYLOAD_SIZE in
  ret (FPathChallenge data) offset.

Definition parsePathResponse (buffer : Buffer.t) (offset : Z)
  : result FrameOffset :=
  data <- Buffer.allocCopy buffer offset PATH_RESPONSE_PAYLOAD_SIZE ;;
  let offset := offset + PATH_RESPONSE_PAYLOAD_SIZE in
  ret (FPathResponse data) offset.

Definition parseCrypto (buffer : Buffer.t) (offset : Z) : result FrameOffset :=
  cryptooffset <- VLIE.decode buffer offset ;;
  let offset := VLIE.offset cryptooffset in
  lengthV <- VLIE.decode buffer offset ;;
  let offset := VLIE.offset lengthV in
  let length := VLIE.value lengthV in
  data <- Buffer.allocCopy buffer offset length ;;
  let offset := offset + length in
  ret (FCrypto data (VLIE.value cryptooffset)) offset.

(** [type & mask] as a JavaScript condition. *)
Definition flag (type mask : Z) : bool := negb (Z.land type mask =? 0).

Definition parseStream (type : Z) (buffer : Buffer.t) (offset : Z)
  : result FrameOffset :=
  let fin := flag type 0x01 in
  let len := flag type 0x02 in
  let off := flag type 0x04 in
  streamID <- VLIE.decode buffer offset ;;
  let offset := VLIE.offset streamID in
  ' (dataOffset, offset) <-
    (if off then
       vlieOffset <- VLIE.decode buffer offset ;;
       Ok (VLIE.value vlieOffset, VLIE.offset vlieOffset)
     else Ok (0, offset)) ;;
  ' (dataLength, offset) <-
    (if len then
       vlieOffset <- VLIE.decode buffer offset ;;
       Ok (VLIE.value vlieOffset, VLIE.offset vlieOffset)
     else Ok (Buffer.byteLength buffer - offset, offset)) ;;
  data <- Buffer.allocCopy buffer offset dataLength ;;
  let offset := offset + dataLength in
  ret (FStream (mkStreamFrame (VLIE.value streamID) data fin true
                  dataOffset dataLength))
      offset.

Definition some (r : result FrameOffset) : result (option FrameOffset) :=
  fo <- r ;; Ok (Some fo).

(** [parseFrame]; [undefined] is [None].  The [switch] takes the first
    case whose value equals [type]. *)
Definition parseFrame (buffer : Buffer.t) (offset : Z)
  : result (option FrameOffset) :=
  if Buffer.byteLength buffer <=? offset then Ok None
  else
    type <- Buffer.readUInt8 buffer offset ;;
    let offset := offset + 1 in
    if type =? PADDING FT then some (parsePadding buffer offset)
    else if type =? RST_STREAM FT then some (parseRstStream buffer offset)
    else if type =? CONNECTION_CLOSE FT then
      some (parseClose CLOSE_CONNECTION buffer offset)
    else if type =? APPLICATION_CLOSE FT then
      some (parseClose CLOSE_APPLICATION buffer offset)
    else if type =? MAX_DATA FT then some (parseMaxData buffer offset)
    else if type =? MAX_STREAM_DATA FT then
      some (parseMaxStreamData buffer offset)
    else if type =? MAX_STREAM_ID FT then
      some (parseMaxStreamId buffer offset)
    else if type =? PING FT then some (parsePing buffer offset)
    else if type =? BLOCKED FT then some (parseBlocked buffer offset)
    else if type =? STREAM_BLOCKED FT then
      some (parseStreamBlocked buffer offset)
    else if type =? STREAM_ID_BLOCKED FT then
      some (parseStreamIdBlocked buffer offset)
    else if type =? NEW_CONNECTION_ID FT then
      some (parseNewConnectionId buffer offset)
    else if type =? STOP_SENDING FT then
      some (parseStopSending buffer offset)
    else if type =? PATH_CHALLENGE FT then
      some (parsePathChallenge buffer offset)
    else if type =? PATH_RESPONSE FT then
      some (parsePathResponse buffer offset)
    else if type =? CRYPTO FT then some (parseCrypto buffer offset)
    else if type =? ACK FT then some (parseAck false buffer offset)
    else if type =? ACK_ECN FT then some (parseAck true buffer offset)
    else if (STREAM FT <=? type) && (type <=? STREAM_MAX_NR FT) then
      some (parseStream type buffer offset)
    else Ok None.

(** The type bytes [parseFrame] has a parser for: the cases of its
    [switch] and the STREAM range. *)
Definition isKnownType (type : Z) : bool :=
  (type =? PADDING FT) || (type =? RST_STREAM FT)
  || (type =? CONNECTION_CLOSE FT) || (type =? APPLICATION_CLOSE FT)
  || (type =? MAX_DATA FT) || (type =? MAX_STREAM_DATA FT)
  || (type =? MAX_STREAM_ID FT) || (type =? PING FT) || (type =? BLOCKED FT)
  || (type =? STREAM_BLOCKED FT) || (type =? STREAM_ID_BLOCKED FT)
  || (type =? NEW_CONNECTION_ID FT) || (type =? STOP_SENDING FT)
  || (type =? PATH_CHALLENGE FT) || (type =? PATH_RESPONSE FT)
  || (type =? CRYPTO FT) || (type =? ACK FT) || (type =? ACK_ECN FT)
  || ((STREAM FT <=? type) && (type <=? STREAM_MAX_NR FT)).

(** The [while] of [parse], for at most [fuel] iterations; [None] when
    the iterations do not suffice. *)
Fixpoint parse_while (fuel : nat) (msg : Buffer.t)
    (frameOffset : option FrameOffset) (frames : list BaseFrame)
  : option (result (list BaseFrame)) :=
  match frameOffset with
  | None => Some (Ok frames)
  | Some fo =>
      match fuel with
      | O => None
      | S fuel' =>
          let frames := frames ++ [frame fo] in
          match parseFrame msg (offset fo) with
          | Throw e => Some (Throw e)
          | Ok next => parse_while fuel' msg next frames
          end
      end
  end.

Definition parse_fuel (fuel : nat) (msg : Buffer.t) (offset : Z)
  : option (result (list BaseFrame)) :=
  match parseFrame msg offset with
  | Throw e => Some (Throw e)
  | Ok frameOffset => parse_while fuel msg frameOffset []
  end.

(** [FrameParser.parse]: one iteration per byte of the message is
    enough, since every frame consumes at least its type byte. *)
Definition parse (msg : Buffer.t) (offset : Z)
  : option (result (list BaseFrame)) :=
  parse_fuel (length msg) msg offset.

End WithFrameTypes.
End FrameParser.

(** An ACK_ECN frame: the type byte, the fields [0c 28 01 03 02 01]
    (largest 12, delay 40, one block after the first) and the counts 1, 2
    and 3. *)
Definition ackEcnWithCounts : Buffer.t :=
  [x1a; x0c; x28; x01; x03; x02; x01; x01; x02; x03].

(** ** crypto/transport.parameters.ts *)

Module TransportParams.

(** [enum TransportParameterType]. *)
Definition INITIAL_MAX_STREAM_DATA_BIDI_LOCAL : Z := 0x00.
Definition INITIAL_MAX_DATA : Z := 0x01.
Definition INITIAL_MAX_BIDI_STREAMS : Z := 0x02.
Definition IDLE_TIMEOUT : Z := 0x03.
Definition PREFERRED_ADDRESS : Z := 0x04.
Definition MAX_PACKET_SIZE : Z := 0x05.
Definition STATELESS_RESET_TOKEN : Z := 0x06.
Definition ACK_DELAY_EXPONENT : Z := 0x07.
Definition INITIAL_MAX_UNI_STREAMS : Z := 0x08.
Definition DISABLE_MIGRATION : Z := 0x09.
Definition INITIAL_MAX_STREAM_DATA_BIDI_REMOTE : Z := 0x0a.
Definition INITIAL_MAX_STREAM_DATA_UNI : Z := 0x0b.
Definition MAX_ACK_DELAY : Z := 0x0c.
Definition ORIGINAL_CONNECTION_ID : Z := 0x0d.

(** [key in TransportParameterType] for a key that is the decimal form
    of an array index: the numeric enum has a reverse mapping for each
    of its fourteen values, [0x00] to [0x0d]. *)
Definition inTransportParameterType (key : Z) : bool :=
  (0x00 <=? key) && (key <=? 0x0d).

(** A value as [fromExtensionBuffer] builds it: a [Buffer], a number or
    [true]. *)
Inductive Value : Type :=
| VBuffer (b : Buffer.t)
| VNumber (n : Z)
| VTrue.

Definition Version : Type := Buffer.t.

(** The fields of the class; [None] is a field left [undefined]. *)
Record TransportParameters : Type := mkTransportParameters {
  isServer : bool;
  maxStreamDataBidiLocal : Value;
  maxStreamDataBidiRemote : Value;
  maxStreamDataUni : Value;
  maxData : Value;
  maxStreamIdBidi : option Value;
  maxStreamIdUni : option Value;
  idleTimeout : Value;
  maxPacketSize : option Value;
  statelessResetToken : option Value;
  ackDelayExponent : option Value;
  disableMigration : option Value;
  version : Version
}.

(** [new TransportParameters(isServer, maxStreamData, maxData,
    idleTimeout, version)]. *)
Definition new (isServer : bool) (maxStreamData maxData idleTimeout : Z)
    (version : Version) : TransportParameters :=
  {| isServer := isServer;
     maxStreamDataBidiLocal := VNumber maxStreamData;
     maxStreamDataBidiRemote := VNumber maxStreamData;
     maxStreamDataUni := VNumber maxStreamData;
     maxData := VNumber maxData;
     maxStreamIdBidi := None;
     maxStreamIdUni := None;
     idleTimeout := VNumber idleTimeout;
     maxPacketSize := None;
     statelessResetToken := None;
     ackDelayExponent := None;
     disableMigration := None;
     version := version |}.

Definition setTransportParameter (type : Z) (value : Value)
    (tp : TransportParameters) : TransportParameters :=
  let '(mkTransportParameters srv bidiLocal bidiRemote uni data idBidi idUni
          idle pktSize token ackExp noMigration ver) := tp in
  if type =? INITIAL_MAX_STREAM_DATA_BIDI_LOCAL then
    mkTransportParameters srv value bidiRemote uni data idBidi idUni
      idle pktSize token ackExp noMigration ver
  else if type =? INITIAL_MAX_STREAM_DATA_BIDI_REMOTE then
    mkTransportParameters srv bidiLocal value uni data idBidi idUni
      idle pktSize token ackExp noMigration ver
  else if type =? INITIAL_MAX_STREAM_DATA_UNI then
    mkTransportParameters srv bidiLocal bidiRemote value data idBidi idUni
      idle pktSize token ackExp noMigration ver
  else if type =? INITIAL_MAX_DATA then
    mkTransportParameters srv bidiLocal bidiRemote uni value idBidi idUni
      idle pktSize token ackExp noMigration ver
  else if type =? STATELESS_RESET_TOKEN then
    mkTransportParameters srv bidiLocal bidiRemote uni data idBidi idUni
      idle pktSize (Some value) ackExp noMigration ver
  else if type =? IDLE_TIMEOUT then
    mkTransportParameters srv bidiLocal bidiRemote uni data idBidi idUni
      value pktSize token ackExp noMigration ver
  else if type =? INITIAL_MAX_BIDI_STREAMS then
    mkTransportParameters srv bidiLocal bidiRemote uni data (Some value) idUni
      idle pktSize token ackExp noMigration ver
  else if type =? INITIAL_MAX_UNI_STREAMS then
    mkTransportParameters srv bidiLocal bidiRemote uni data idBidi (Some value)
      idle pktSize token ackExp noMigration ver
  else if type =? MAX_PACKET_SIZE then
    mkTransportParameters srv bidiLocal bidiRemote uni data idBidi idUni
      idle (Some value) token ackExp noMigration ver
  else if type =? ACK_DELAY_EXPONENT then
    mkTransportParameters srv bidiLocal bidiRemote uni data idBidi idUni
      idle pktSize token (Some value) noMigration ver
  else if type =? DISABLE_MIGRATION then
    mkTransportParameters srv bidiLocal bidiRemote uni data idBidi idUni
      idle pktSize token ackExp (Some value) ver
  else tp.

(** [values]: an array used as a map from type to value.  Its keys are
    enumerated in ascending order, so it is kept as an association list
    sorted by key. *)
Definition Values : Type := list (Z * Value).

(** [type in values]. *)
Fixpoint inValues (type : Z) (values : Values) : bool :=
  match values with
  | [] => false
  | (k, _) :: rest => (type =? k) || inValues type rest
  end.

(** [values[type] = value]. *)
Fixpoint setValue (type : Z) (value : Value) (values : Values) : Values :=
  match values with
  | [] => [(type, value)]
  | (k, v) :: rest =>
      if type <? k then (type, value) :: values
      else if type =? k then (type, value) :: rest
      else (k, v) :: setValue type value rest
  end.

(** One iteration of the [while] of [fromExtensionBuffer]: the offset
    and the map after it. *)
Definition readParameter (buffer : Buffer.t) (offset : Z) (values : Values)
  : result (Z * Values) :=
  type <- Buffer.readUInt16BE buffer offset ;;
  let offset := offset + 2 in
  len <- Buffer.readUInt16BE buffer offset ;;
  let offset := offset + 2 in
  value <-
    (if 4 <? len then
       value <- Buffer.allocCopy buffer offset len ;;
       Ok (VBuffer value)
     else if 0 <? len then
       value <- Buffer.readUIntBE buffer offset len ;;
       Ok (VNumber value)
     else Ok VTrue) ;;
  let offset := offset + len in
  if inValues type values then Throw TRANSPORT_PARAMETER_ERROR
  else Ok (offset, setValue type value values).

(** The [while], for at most [fuel] iterations. *)
Fixpoint readParameters (fuel : nat) (buffer : Buffer.t) (offset : Z)
    (values : Values) : option (result Values) :=
  if offset <? Buffer.byteLength buffer then
    match fuel with
    | O => None
    | S fuel' =>
        match readParameter buffer offset values with
        | Throw e => Some (Throw e)
        | Ok (offset, values) => readParameters fuel' buffer offset values
        end
    end
  else Some (Ok values).

(** The [for (let key in values)] loop. *)
Definition applyValues (values : Values) (tp : TransportParameters)
  : TransportParameters :=
  fold_left
    (fun tp kv =>
       if inTransportParameterType (fst kv) then
         setTransportParameter (fst kv) (snd kv) tp
       else tp)
    values tp.

(** [TransportParameters.fromExtensionBuffer]: every iteration consumes
    at least four bytes, so one iteration per byte is enough. *)
Definition fromExtensionBuffer (isServer : bool) (buffer : Buffer.t)
    (version : Version) : option (result TransportParameters) :=
  let transportParameters := new isServer 0 0 0 version in
  match readParameters (length buffer) buffer 0 [] with
  | None => None
  | Some (Throw e) => Some (Throw e)
  | Some (Ok values) => Some (Ok (applyValues values transportParameters))
  end.

(** *** Well-formed extension buffers *)

(** A record of the wire format: its 16-bit type and its value, whose
    length fits 16 bits. *)
Record WireParameter : Type := mkWireParameter {
  wireType : Z;
  wireValue : Buffer.t
}.

Definition wellFormed (r : WireParameter) : Prop :=
  0 <= wireType r < 65536 /\ Buffer.byteLength (wireValue r) < 65536.

(** [type(2) | length(2) | value(length)]. *)
Definition wireBytes (r : WireParameter) : Buffer.t :=
  Buffer.uint16BE (wireType r)
  ++ Buffer.uint16BE (Buffer.byteLength (wireValue r))
  ++ wireValue r.

Definition wireBuffer (rs : list WireParameter) : Buffer.t :=
  flat_map wireBytes rs.

(** The value [readParameter] builds from the value bytes of a record. *)
Definition valueOf (bytes : Buffer.t) : Value :=
  if 4 <? Buffer.byteLength bytes then VBuffer bytes
  else if 0 <? Buffer.byteLength bytes then VNumber (Buffer.bigEndian bytes)
  else VTrue.

(** The [while] of [fromExtensionBuffer] seen on the records of a
    well-formed buffer (see [readParameters_wireBuffer]). *)
Fixpoint collect (rs : list WireParameter) (values : Values) : result Values :=
  match rs with
  | [] => Ok values
  | r :: rs' =>
      if inValues (wireType r) values then Throw TRANSPORT_PARAMETER_ERROR
      else collect rs' (setValue (wireType r) (valueOf (wireValue r)) values)
  end.

Definition isKnown (r : WireParameter) : bool :=
  inTransportParameterType (wireType r).

Definition knownValues (values : Values) : Values :=
  filter (fun kv => inTransportParameterType (fst kv)) values.

(** The keys of a map are in strictly ascending order. *)
Fixpoint ascending (values : Values) : Prop :=
  match values with
  | [] => True
  | (k, _) :: rest => Forall (fun kv => k < fst kv) rest /\ ascending rest
  end.

(** A buffer with a buffer-valued, a numeric and a boolean parameter and
    one of an unknown type. *)
Definition sampleParameters : list WireParameter :=
  [ mkWireParameter INITIAL_MAX_DATA [x00; x00; x10; x00];
    mkWireParameter 0xff00 [x2a];
    mkWireParameter DISABLE_MIGRATION [];
    mkWireParameter STATELESS_RESET_TOKEN
      [x01; x02; x03; x04; x05; x06; x07; x08;
       x09; x0a; x0b; x0c; x0d; x0e; x0f; x10] ].

End TransportParams.

(** ** congestion-control/congestion.control.ts *)

Module Congestion.

Inductive PacketType : Type :=
| Initial | Retry | Handshake | VersionNegotiation
| Protected0RTT | Protected1RTT.

Inductive EncryptionLevel : Type := INITIAL | ZERO_RTT | HANDSHAKE | ONE_RTT.

(** What the controller uses of a packet: its type, [isAckOnly()], the
    buffer [toBuffer(connection)] yields, and the packet number of its
    header ([None] while it has none). *)
Record BasePacket : Type := mkBasePacket {
  packetType : PacketType;
  isAckOnly : bool;
  toBuffer : Buffer.t;
  packetNumber : option Z
}.

Definition setPacketNumber (pn : Z) (p : BasePacket) : BasePacket :=
  mkBasePacket (packetType p) (isAckOnly p) (toBuffer p) (Some pn).

(** The next number to send in each packet-number space. *)
Record PacketNumberSpaces : Type := mkPacketNumberSpaces {
  nextInitial : Z;
  nextZeroRTT : Z;
  nextHandshake : Z;
  nextOneRTT : Z
}.

(** Modelled from the spec: [connection.getEncryptionContextByPacketType]
    of [quicker/connection], which is not among the sources.  One crypto
    context, with its packet-number space, per encryption level; Version
    Negotiation and Retry packets have none. *)
Definition getEncryptionContextByPacketType (t : PacketType)
  : option EncryptionLevel :=
  match t with
  | Initial => Some INITIAL
  | Protected0RTT => Some ZERO_RTT
  | Handshake => Some HANDSHAKE
  | Protected1RTT => Some ONE_RTT
  | Retry | VersionNegotiation => None
  end.

(** Modelled from the spec: [PacketNumberSpace.getNext] of
    [crypto/crypto.context], which is not among the sources.  The numbers
    of a space start at 0 and increase by one, without gaps. *)
Definition getNext (l : EncryptionLevel) (s : PacketNumberSpaces)
  : Z * PacketNumberSpaces :=
  match l with
  | INITIAL =>
      (nextInitial s,
       mkPacketNumberSpaces (nextInitial s + 1) (nextZeroRTT s)
         (nextHandshake s) (nextOneRTT s))
  | ZERO_RTT =>
      (nextZeroRTT s,
       mkPacketNumberSpaces (nextInitial s) (nextZeroRTT s + 1)
         (nextHandshake s) (nextOneRTT s))
  | HANDSHAKE =>
      (nextHandshake s,
       mkPacketNumberSpaces (nextInitial s) (nextZeroRTT s)
         (nextHandshake s + 1) (nextOneRTT s))
  | ONE_RTT =>
      (nextOneRTT s,
       mkPacketNumberSpaces (nextInitial s) (nextZeroRTT s)
         (nextHandshake s) (nextOneRTT s + 1))
  end.

Definition DEFAULT_MSS : Z := 1460.
Definition INITIAL_WINDOW : Z := DEFAULT_MSS * 10.
Definition MINIMUM_WINDOW : Z := DEFAULT_MSS * 2.
Definition LOSS_REDUCTION_FACTOR : Q := 1 # 2.

(** Modelled from the spec: [Bignum] of [types/bignum], which is not
    among the sources, is an unbounded integer.  Multiplying by a
    fraction keeps the integer part of the product; [divide] is integer
    division. *)
Definition Bignum_multiply (b : Z) (factor : Q) : Z :=
  Qfloor (inject_Z b * factor).
Definition Bignum_divide (a b : Z) : Z := a / b.
Definition Bignum_max (a b : Z) : Z := Z.max a b.

(** The controller, with what it uses of its connection: the
    packet-number spaces and the datagrams handed to the socket (oldest
    first).  [sshtresh] is [None] for [Bignum.infinity()]. *)
Record State : Type := mkState {
  bytesInFlight : Z;
  congestionWindow : Z;
  endOfRecovery : Z;
  sshtresh : option Z;
  packetsQueue : list BasePacket;
  pnSpaces : PacketNumberSpaces;
  socket : list BasePacket
}.

(** The constructor. *)
Definition init : State :=
  {| bytesInFlight := 0;
     congestionWindow := INITIAL_WINDOW;
     endOfRecovery := 0;
     sshtresh := None;
     packetsQueue := [];
     pnSpaces := mkPacketNumberSpaces 0 0 0 0;
     socket := [] |}.

Definition inRecovery (packetNumber : Z) (cc : State) : bool :=
  packetNumber <=? endOfRecovery cc.

(** [packet.getHeader().getPacketNumber().getValue()]: a [TypeError]
    on a header without a packet number. *)
Definition getPacketNumberValue (p : BasePacket) : result Z :=
  match packetNumber p with
  | Some pn => Ok pn
  | None => Throw TypeError
  end.

Definition packetByteSize (p : BasePacket) : Z :=
  Buffer.byteLength (toBuffer p).

Definition onPacketSent (packetSent : BasePacket) (cc : State) : State :=
  if negb (isAckOnly packetSent) then
    let bytesSent := packetByteSize packetSent in
    mkState (bytesInFlight cc + bytesSent) (congestionWindow cc)
      (endOfRecovery cc) (sshtresh cc) (packetsQueue cc) (pnSpaces cc)
      (socket cc)
  else cc.

(** [socket.send(packet.toBuffer(connection), port, address)]. *)
Definition socketSend (packet : BasePacket) (cc : State) : State :=
  mkState (bytesInFlight cc) (congestionWindow cc) (endOfRecovery cc)
    (sshtresh cc) (packetsQueue cc) (pnSpaces cc) (socket cc ++ [packet]).

(** The body of the [while] of [sendPackets] for the packet taken off
    the queue. *)
Definition sendPackets_body (packet : BasePacket) (cc : State) : State :=
  let ctx := getEncryptionContextByPacketType (packetType packet) in
  let '(packet, cc) :=
    match ctx with
    | Some level =>
        let '(pn, spaces) := getNext level (pnSpaces cc) in
        (setPacketNumber pn packet,
         mkState (bytesInFlight cc) (congestionWindow cc) (endOfRecovery cc)
           (sshtresh cc) (packetsQueue cc) spaces (socket cc))
    | None => (packet, cc)
    end in
  let cc := socketSend packet cc in
  onPacketSent packet cc.

Definition setQueue (queue : list BasePacket) (cc : State) : State :=
  mkState (bytesInFlight cc) (congestionWindow cc) (endOfRecovery cc)
    (sshtresh cc) queue (pnSpaces cc) (socket cc).

(** The [while] of [sendPackets], on the queue it finds. *)
Fixpoint sendPackets_while (queue : list BasePacket) (cc : State) : State :=
  match queue with
  | [] => setQueue [] cc
  | packet :: queue' =>
      if bytesInFlight cc <? congestionWindow cc then
        sendPackets_while queue' (sendPackets_body packet (setQueue queue' cc))
      else setQueue queue cc
  end.

Definition sendPackets (cc : State) : State :=
  sendPackets_while (packetsQueue cc) cc.

Definition queuePackets (packets : list BasePacket) (cc : State) : State :=
  sendPackets (setQueue (packetsQueue cc ++ packets) cc).

(** [this.congestionWindow.lessThan(this.sshtresh)]. *)
Definition belowThreshold (cc : State) : bool :=
  match sshtresh cc with
  | None => true
  | Some s => congestionWindow cc <? s
  end.

Definition onPacketAcked (ackedPacket : BasePacket) (cc : State)
  : result State :=
  if isAckOnly ackedPacket then Ok cc
  else
    let packetByteSize := packetByteSize ackedPacket in
    let cc :=
      mkState (bytesInFlight cc - packetByteSize) (congestionWindow cc)
        (endOfRecovery cc) (sshtresh cc) (packetsQueue cc) (pnSpaces cc)
        (socket cc) in
    pn <- getPacketNumberValue ackedPacket ;;
    if inRecovery pn cc then Ok cc
    else
      let cwnd :=
        if belowThreshold cc then congestionWindow cc + packetByteSize
        else
          congestionWindow cc
          + Bignum_divide (DEFAULT_MSS * packetByteSize)
              (congestionWindow cc) in
      Ok (sendPackets
            (mkState (bytesInFlight cc) cwnd (endOfRecovery cc)
               (sshtresh cc) (packetsQueue cc) (pnSpaces cc) (socket cc))).

(** The [forEach] of [onPacketsLost]: the bytes in flight and the
    largest lost packet number after the packets of [lostPackets]. *)
Fixpoint forEachLost (lostPackets : list BasePacket)
    (bytesInFlight largestLost : Z) : result (Z * Z) :=
  match lostPackets with
  | [] => Ok (bytesInFlight, largestLost)
  | lostPacket :: rest =>
      if isAckOnly lostPacket then
        forEachLost rest bytesInFlight largestLost
      else
        let bytesInFlight := bytesInFlight - packetByteSize lostPacket in
        pn <- getPacketNumberValue lostPacket ;;
        if pn >? largestLost then forEachLost rest bytesInFlight pn
        else forEachLost rest bytesInFlight largestLost
  end.

Definition onPacketsLost (lostPackets : list BasePacket) (cc : State)
  : result State :=
  ' (bytesInFlight, largestLost) <-
    forEachLost lostPackets (bytesInFlight cc) 0 ;;
  let cc :=
    mkState bytesInFlight (congestionWindow cc) (endOfRecovery cc)
      (sshtresh cc) (packetsQueue cc) (pnSpaces cc) (socket cc) in
  let cc :=
    if negb (inRecovery largestLost cc) then
      let cwnd :=
        Bignum_multiply (congestionWindow cc) LOSS_REDUCTION_FACTOR in
      let cwnd := Bignum_max cwnd MINIMUM_WINDOW in
      mkState bytesInFlight cwnd largestLost (Some cwnd)
        (packetsQueue cc) (pnSpaces cc) (socket cc)
    else cc in
  Ok (sendPackets cc).

Definition onRetransmissionTimeoutVerified (cc : State) : State :=
  mkState (bytesInFlight cc) MINIMUM_WINDOW (endOfRecovery cc)
    (sshtresh cc) (packetsQueue cc) (pnSpaces cc) (socket cc).

(** The largest packet number among the packets of a loss event that are
    not ACK-only, as [forEachLost] computes it (0 when there is none). *)
Definition largestLostOf (lostPackets : list BasePacket) : Z :=
  fold_left
    (fun largest p =>
       if isAckOnly p then largest
       else match packetNumber p with
            | Some pn => if pn >? largest then pn else largest
            | None => largest
            end)
    lostPackets 0.

(** The states the controller can be in: those the constructor and the
    handlers produce. *)
Inductive reachable : State -> Prop :=
| reach_init : reachable init
| reach_queuePackets packets cc :
    reachable cc -> reachable (queuePackets packets cc)
| reach_onPacketAcked ackedPacket cc cc' :
    reachable cc -> onPacketAcked ackedPacket cc = Ok cc' -> reachable cc'
| reach_onPacketsLost lostPackets cc cc' :
    reachable cc -> onPacketsLost lostPackets cc = Ok cc' -> reachable cc'
| reach_onRetransmissionTimeoutVerified cc :
    reachable cc -> reachable (onRetransmissionTimeoutVerified cc).

(** A 1200-byte Initial packet carrying data and an ACK-only packet of 40
    bytes, neither numbered yet. *)
Definition dataPacket : BasePacket :=
  mkBasePacket Initial false (repeat x00 1200) None.

Definition ackPacket : BasePacket :=
  mkBasePacket Initial true (repeat x00 40) None.

(** Thirteen data packets fill the initial window: the state after
    queueing them has [bytesInFlight >= congestionWindow]. *)
Definition gatedState : State := queuePackets (repeat dataPacket 13) init.

(** Six data packets are sent with the packet numbers 0 to 5; the one
    numbered 5 is lost, then the one numbered 3. *)
Definition sixSent : State := queuePackets (repeat dataPacket 6) init.

Definition lostFifth : list BasePacket := firstn 1 (skipn 5 (socket sixSent)).

Definition lostThird : list BasePacket := firstn 1 (skipn 3 (socket sixSent)).

Definition afterFirstLoss : State :=
  match onPacketsLost lostFifth sixSent with
  | Ok cc => cc
  | Throw _ => sixSent
  end.

(** An ACK-only packet is then sent with the packet number 6, and lost. *)
Definition ackSent : State := queuePackets [ackPacket] afterFirstLoss.

Definition lostAck : list BasePacket := firstn 1 (skipn 6 (socket ackSent)).

End Congestion.

(** ** quicker/server.ts *)

Module Server.

Import Congestion.

(** What [onMessage] catches: a [QuicError] with its connection error
    code, a [QuickerError] with its code, or anything else. *)
Inductive Caught : Type :=
| QuicError (code : Error)
| QuickerError (code : Error)
| OtherError.

(** [new PacketNumber(new Bignum(n))]. *)
Record PacketNumber : Type := mkPacketNumber { getValue : Z }.

Section WithConnection.

(** [Connection], its packet-number spaces, the packet factory and the
    endpoint's [handleError] are not among the sources: the handler is
    modelled against their interface. *)
Variable Connection : Type.
Variable Packet : Type.
Variable resetConnectionState : Connection -> Connection.
(** [connection.getEncryptionContext(level)!.getPacketNumberSpace()
    .setHighestReceivedNumber(pn)] and the matching getter, [None] for
    [undefined]. *)
Variable setHighestReceivedNumber :
  EncryptionLevel -> PacketNumber -> Connection -> Connection.
Variable getHighestReceivedNumber :
  EncryptionLevel -> Connection -> option PacketNumber.
Variable createVersionNegotiationPacket : Connection -> Packet.
Variable sendPacket : Packet -> Connection -> Connection.
Variable handleError : Connection -> Caught -> Connection.

(** The [catch] block of the per-packet callback of [onMessage]:
    [connection] is [None] while the variable is [undefined]; the result
    is the connection after the block, if there is one. *)
Definition onMessage_catch (connection : option Connection) (err : Caught)
  : option Connection :=
  match connection with
  | None => None
  | Some connection =>
      match err with
      | QuicError VERSION_NEGOTIATION_ERROR =>
          let connection := resetConnectionState connection in
          let connection :=
            setHighestReceivedNumber INITIAL (mkPacketNumber 0) connection in
          let versionNegotiationPacket :=
            createVersionNegotiationPacket connection in
          Some (sendPacket versionNegotiationPacket connection)
      | QuickerError IGNORE_PACKET_ERROR => Some connection
      | _ => Some (handleError connection err)
      end
  end.

(** The per-packet callback.  [getConnection] is the lookup of the
    connection manager; [process] stands for the calls of the [try]
    block after it: the connection as they leave it and what they
    threw, if anything. *)
Definition onMessage_packet
    (getConnection : result Connection)
    (process : Connection -> Connection * option Caught)
  : option Connection :=
  match getConnection with
  | Throw e => onMessage_catch None (QuicError e)
  | Ok connection =>
      let '(connection, thrown) := process connection in
      match thrown with
      | None => Some connection
      | Some err => onMessage_catch (Some connection) err
      end
  end.

End WithConnection.

(** Modelled from the spec: a [Connection] (not among the sources)
    reduced to what the handler touches: the highest received number of
    the Initial and Handshake spaces, which may be absent, the packets
    handed to [sendPacket], and the error given to [handleError], if
    any. *)
Record SimpleConnection : Type := mkSimpleConnection {
  highestInitial : option PacketNumber;
  highestHandshake : option PacketNumber;
  sentPackets : list PacketType;
  handledError : option Caught
}.

Definition simpleSet (l : EncryptionLevel) (pn : PacketNumber)
    (c : SimpleConnection) : SimpleConnection :=
  match l with
  | INITIAL =>
      mkSimpleConnection (Some pn) (highestHandshake c) (sentPackets c)
        (handledError c)
  | HANDSHAKE =>
      mkSimpleConnection (highestInitial c) (Some pn) (sentPackets c)
        (handledError c)
  | _ => c
  end.

Definition simpleGet (l : EncryptionLevel) (c : SimpleConnection)
  : option PacketNumber :=
  match l with
  | INITIAL => highestInitial c
  | HANDSHAKE => highestHandshake c
  | _ => None
  end.

Definition simpleSend (p : PacketType) (c : SimpleConnection)
  : SimpleConnection :=
  mkSimpleConnection (highestInitial c) (highestHandshake c)
    (sentPackets c ++ [p]) (handledError c).

Definition simpleHandleError (c : SimpleConnection) (err : Caught)
  : SimpleConnection :=
  mkSimpleConnection (highestInitial c) (highestHandshake c)
    (sentPackets c) (Some err).

(** Nothing of what is kept of the connection is reset. *)
Definition simpleReset (c : SimpleConnection) : SimpleConnection := c.

Definition simpleVersionNegotiationPacket (c : SimpleConnection) : PacketType :=
  VersionNegotiation.

(** A connection that has recorded no received packet number yet. *)
Definition freshConnection : SimpleConnection :=
  mkSimpleConnection None None [] None.

End Server.

(** ** congestion-control/congestion.control.ts: accounting *)

Module CongestionLedger.
Import Congestion.

(** What a list of sent packets adds to the bytes in flight: the sizes of
    those that are not ACK-only. *)
Definition inFlightBytes (packets : list BasePacket) : Z :=
  fold_right
    (fun p acc => (if isAckOnly p then 0 else packetByteSize p) + acc)
    0 packets.

(** A packet as it was queued, whatever number its header got since. *)
Definition unnumbered (p : BasePacket) : (PacketType * bool * Buffer.t) :=
  (packetType p, isAckOnly p, toBuffer p).

End CongestionLedger.

(** ** utilities/parsers/frame.parser.ts: results *)

Module FrameParserAux.

(** The result of [parse] with one more frame in front of the frames, or
    the same exception. *)
Definition consFrames (f : BaseFrame)
    (r : option (result (list BaseFrame))) : option (result (list BaseFrame)) :=
  match r with
  | Some (Ok rest) => Some (Ok (f :: rest))
  | other => other
  end.

End FrameParserAux.

(** ** Writing into Node buffers *)

Module BufferWrite.

(** The buffer with [bytes] stored from [offset] on; a [RangeError] when
    they do not fit. *)
Definition store (b : Buffer.t) (offset : Z) (bytes : Buffer.t)
  : result Buffer.t :=
  if (offset <? 0)
     || (Buffer.byteLength b <? offset + Buffer.byteLength bytes)
  then Throw RangeError
  else
    Ok (firstn (Z.to_nat offset) b
        ++ bytes
        ++ skipn (Z.to_nat offset + length bytes) b).

(** The [n] bytes of the unsigned big-endian form of [value]. *)
Fixpoint uintBE (n : nat) (value : Z) : Buffer.t :=
  match n with
  | O => []
  | S n' => uintBE n' (value / 256) ++ [Buffer.byte_of (value mod 256)]
  end.

(** [buffer.writeUInt16BE(value, offset)]: a [RangeError] for a value that
    does not fit 16 bits. *)
Definition writeUInt16BE (b : Buffer.t) (value offset : Z) : result Buffer.t :=
  if (value <? 0) || (65535 <? value) then Throw RangeError
  else store b offset (Buffer.uint16BE value).

(** [buffer.writeUIntBE(value, offset, byteLength)] for a number: the
    byte length is between 1 and 6 and the value fits it, or a
    [RangeError] is raised. *)
Definition writeUIntBE (b : Buffer.t) (value offset byteLength : Z)
  : result Buffer.t :=
  if (byteLength <? 1) || (6 <? byteLength) then Throw RangeError
  else if (value <? 0) || (2 ^ (8 * byteLength) <=? value) then
    Throw RangeError
  else store b offset (uintBE (Z.to_nat byteLength) value).

(** [source.copy(target, targetStart)]: as many bytes of the source as
    the target has room for from [targetStart] on; nothing when there is
    no room or nothing to copy. *)
Definition copyInto (source target : Buffer.t) (targetStart : Z)
  : result Buffer.t :=
  if targetStart <? 0 then Throw RangeError
  else if (Buffer.byteLength target <=? targetStart)
          || (Buffer.byteLength source <=? 0)
  then Ok target
  else
    store target targetStart
      (firstn (Z.to_nat (Buffer.byteLength target - targetStart)) source).

End BufferWrite.

(** ** crypto/transport.parameters.ts: access and serialisation *)

Module TransportParamsIO.
Import TransportParams.

Section WithConstants.

(** [Constants.MAX_PACKET_SIZE] and [Constants.DEFAULT_ACK_EXPONENT] of
    [utilities/constants], which is not among the sources. *)
Variable Constants_MAX_PACKET_SIZE : Value.
Variable Constants_DEFAULT_ACK_EXPONENT : Value.

(** [getTransportParameter]; [None] is [undefined]. *)
Definition getTransportParameter (type : Z) (tp : TransportParameters)
  : option Value :=
  if type =? INITIAL_MAX_STREAM_DATA_BIDI_LOCAL then
    Some (maxStreamDataBidiLocal tp)
  else if type =? INITIAL_MAX_STREAM_DATA_BIDI_REMOTE then
    Some (maxStreamDataBidiRemote tp)
  else if type =? INITIAL_MAX_STREAM_DATA_UNI then Some (maxStreamDataUni tp)
  else if type =? INITIAL_MAX_DATA then Some (maxData tp)
  else if type =? STATELESS_RESET_TOKEN then statelessResetToken tp
  else if type =? IDLE_TIMEOUT then Some (idleTimeout tp)
  else if type =? INITIAL_MAX_BIDI_STREAMS then maxStreamIdBidi tp
  else if type =? INITIAL_MAX_UNI_STREAMS then maxStreamIdUni tp
  else if type =? MAX_PACKET_SIZE then
    match maxPacketSize tp with
    | None => Some Constants_MAX_PACKET_SIZE
    | Some v => Some v
    end
  else if type =? ACK_DELAY_EXPONENT then
    match ackDelayExponent tp with
    | None => Some Constants_DEFAULT_ACK_EXPONENT
    | Some v => Some v
    end
  else if type =? DISABLE_MIGRATION then disableMigration tp
  else None.

End WithConstants.

(** The types [setTransportParameter] and [getTransportParameter] have a
    case for. *)
Definition hasField (type : Z) : bool :=
  (type =? INITIAL_MAX_STREAM_DATA_BIDI_LOCAL)
  || (type =? INITIAL_MAX_STREAM_DATA_BIDI_REMOTE)
  || (type =? INITIAL_MAX_STREAM_DATA_UNI)
  || (type =? INITIAL_MAX_DATA)
  || (type =? STATELESS_RESET_TOKEN)
  || (type =? IDLE_TIMEOUT)
  || (type =? INITIAL_MAX_BIDI_STREAMS)
  || (type =? INITIAL_MAX_UNI_STREAMS)
  || (type =? MAX_PACKET_SIZE)
  || (type =? ACK_DELAY_EXPONENT)
  || (type =? DISABLE_MIGRATION).

Definition getTransportParameterTypeByteSize (type : Z) : Z :=
  if (type =? INITIAL_MAX_STREAM_DATA_BIDI_LOCAL)
     || (type =? INITIAL_MAX_STREAM_DATA_BIDI_REMOTE)
     || (type =? INITIAL_MAX_STREAM_DATA_UNI)
  then 4
  else if type =? INITIAL_MAX_DATA then 4
  else if type =? INITIAL_MAX_BIDI_STREAMS then 2
  else if type =? IDLE_TIMEOUT then 2
  else if type =? PREFERRED_ADDRESS then 4
  else if type =? MAX_PACKET_SIZE then 2
  else if type =? STATELESS_RESET_TOKEN then 16
  else if type =? ACK_DELAY_EXPONENT then 1
  else if type =? INITIAL_MAX_UNI_STREAMS then 2
  else if type =? DISABLE_MIGRATION then 0
  else 0.

Record BufferOffset : Type := mkBufferOffset {
  buffer : Buffer.t;
  offset : Z
}.

Definition writeTypeAndLength (type : Z) (buffer : Buffer.t) (offset : Z)
    (length : Z) : result BufferOffset :=
  buffer <- BufferWrite.writeUInt16BE buffer type offset ;;
  let offset := offset + 2 in
  buffer <- BufferWrite.writeUInt16BE buffer length offset ;;
  let offset := offset + 2 in
  Ok (mkBufferOffset buffer offset).

(** The number [writeUIntBE] is given for a value that is not a
    [Buffer]: the number itself, 1 for [true]; a field left [undefined]
    has none, and [writeUIntBE] then fills the bytes with zeroes. *)
Definition numberOf (value : option Value) : Z :=
  match value with
  | Some (VNumber n) => n
  | Some VTrue => 1
  | _ => 0
  end.

Definition writeTransportParameter (type : Z) (bufferOffset : BufferOffset)
    (value : option Value) : result BufferOffset :=
  bufferOffset <-
    writeTypeAndLength type (buffer bufferOffset) (offset bufferOffset)
      (getTransportParameterTypeByteSize type) ;;
  buffer <-
    match value with
    | Some (VBuffer value) =>
        BufferWrite.copyInto value (buffer bufferOffset) (offset bufferOffset)
    | _ =>
        BufferWrite.writeUIntBE (buffer bufferOffset) (numberOf value)
          (offset bufferOffset) (getTransportParameterTypeByteSize type)
    end ;;
  Ok (mkBufferOffset buffer
        (offset bufferOffset + getTransportParameterTypeByteSize type)).

Definition writeZeroLengthTransportParameter (type : Z)
    (bufferOffset : BufferOffset) : result BufferOffset :=
  writeTypeAndLength type (buffer bufferOffset) (offset bufferOffset) 0.

(** [if (this.disableMigration)]: what the field holds is truthy. *)
Definition truthy (value : option Value) : bool :=
  match value with
  | None => false
  | Some (VNumber n) => negb (n =? 0)
  | Some _ => true
  end.

Definition isDefined (value : option Value) : bool :=
  match value with Some _ => true | None => false end.

Definition getBufferSize (tp : TransportParameters) : Z :=
  let size := 0 in
  let size :=
    size + (2 + 2
            + getTransportParameterTypeByteSize
                INITIAL_MAX_STREAM_DATA_BIDI_LOCAL) in
  let size :=
    size + (2 + 2
            + getTransportParameterTypeByteSize
                INITIAL_MAX_STREAM_DATA_BIDI_REMOTE) in
  let size :=
    size + (2 + 2
            + getTransportParameterTypeByteSize INITIAL_MAX_STREAM_DATA_UNI) in
  let size :=
    size + (2 + 2 + getTransportParameterTypeByteSize INITIAL_MAX_DATA) in
  let size :=
    size + (2 + 2 + getTransportParameterTypeByteSize IDLE_TIMEOUT) in
  let size :=
    if isDefined (maxStreamIdBidi tp) then
      size + (2 + 2
              + getTransportParameterTypeByteSize INITIAL_MAX_BIDI_STREAMS)
    else size in
  let size :=
    if isDefined (maxStreamIdUni tp) then
      size + (2 + 2
              + getTransportParameterTypeByteSize INITIAL_MAX_UNI_STREAMS)
    else size in
  let size :=
    if isDefined (maxPacketSize tp) then
      size + (2 + 2 + getTransportParameterTypeByteSize MAX_PACKET_SIZE)
    else size in
  let size :=
    if isDefined (ackDelayExponent tp) then
      size + (2 + 2 + getTransportParameterTypeByteSize ACK_DELAY_EXPONENT)
    else size in
  let size :=
    if isServer tp then
      size + (2 + 2
              + getTransportParameterTypeByteSize STATELESS_RESET_TOKEN)
    else size in
  let size := if truthy (disableMigration tp) then size + (2 + 2) else size in
  size.

(** [if (cond) bufferOffset = write(bufferOffset)]. *)
Definition when (cond : bool) (write : BufferOffset -> result BufferOffset)
    (bufferOffset : BufferOffset) : result BufferOffset :=
  if cond then write bufferOffset else Ok bufferOffset.

Definition getTransportParametersBuffer (tp : TransportParameters)
  : result Buffer.t :=
  allocated <- Buffer.alloc (getBufferSize tp) ;;
  let bufferOffset := mkBufferOffset allocated 0 in
  bufferOffset <-
    writeTransportParameter INITIAL_MAX_STREAM_DATA_BIDI_LOCAL bufferOffset
      (Some (maxStreamDataBidiLocal tp)) ;;
  bufferOffset <-
    writeTransportParameter INITIAL_MAX_STREAM_DATA_BIDI_REMOTE bufferOffset
      (Some (maxStreamDataBidiRemote tp)) ;;
  bufferOffset <-
    writeTransportParameter INITIAL_MAX_STREAM_DATA_UNI bufferOffset
      (Some (maxStreamDataUni tp)) ;;
  bufferOffset <-
    writeTransportParameter INITIAL_MAX_DATA bufferOffset
      (Some (maxData tp)) ;;
  bufferOffset <-
    writeTransportParameter IDLE_TIMEOUT bufferOffset
      (Some (idleTimeout tp)) ;;
  bufferOffset <-
    when (isServer tp)
      (fun bufferOffset =>
         writeTransportParameter STATELESS_RESET_TOKEN bufferOffset
           (statelessResetToken tp))
      bufferOffset ;;
  bufferOffset <-
    when (isDefined (maxStreamIdBidi tp))
      (fun bufferOffset =>
         writeTransportParameter INITIAL_MAX_BIDI_STREAMS bufferOffset
           (maxStreamIdBidi tp))
      bufferOffset ;;
  bufferOffset <-
    when (isDefined (maxStreamIdUni tp))
      (fun bufferOffset =>
         writeTransportParameter INITIAL_MAX_UNI_STREAMS bufferOffset
           (maxStreamIdUni tp))
      bufferOffset ;;
  bufferOffset <-
    when (isDefined (maxPacketSize tp))
      (fun bufferOffset =>
         writeTransportParameter MAX_PACKET_SIZE bufferOffset
           (maxPacketSize tp))
      bufferOffset ;;
  bufferOffset <-
    when (isDefined (ackDelayExponent tp))
      (fun bufferOffset =>
         writeTransportParameter ACK_DELAY_EXPONENT bufferOffset
           (ackDelayExponent tp))
      bufferOffset ;;
  bufferOffset <-
    when (truthy (disableMigration tp))
      (writeZeroLengthTransportParameter DISABLE_MIGRATION)
      bufferOffset ;;
  Ok (buffer bufferOffset).

(** [number.toString(16)] for a number below [2 ^ 32]: its hexadecimal
    digits as character codes, most significant first and without
    leading zeroes. *)
Definition hexDigit (d : Z) : byte :=
  nth (Z.to_nat d)
    [x30; x31; x32; x33; x34; x35; x36; x37; x38; x39;
     x61; x62; x63; x64; x65; x66] x30.

Fixpoint toString16_digits (fuel : nat) (n : Z) (digits : list byte)
  : list byte :=
  match fuel with
  | O => digits
  | S fuel' =>
      let digits := hexDigit (n mod 16) :: digits in
      if n / 16 =? 0 then digits else toString16_digits fuel' (n / 16) digits
  end.

Definition toString16 (n : Z) : list byte := toString16_digits 8 n [].

(** The value of a hexadecimal digit, of either case. *)
Definition hexValue (c : byte) : option Z :=
  let n := Buffer.byte_val c in
  if (48 <=? n) && (n <=? 57) then Some (n - 48)
  else if (97 <=? n) && (n <=? 102) then Some (n - 87)
  else if (65 <=? n) && (n <=? 70) then Some (n - 55)
  else None.

(** [Buffer.from(string, 'hex')]: one byte for each pair of digits, up to
    the first pair that is not hexadecimal; a last digit without a
    partner is dropped. *)
Fixpoint fromHex (s : list byte) : Buffer.t :=
  match s with
  | high :: low :: rest =>
      match hexValue high, hexValue low with
      | Some h, Some l => Buffer.byte_of (16 * h + l) :: fromHex rest
      | _, _ => []
      end
  | _ => []
  end.

(** [buffer.readUInt32BE(offset)]. *)
Definition readUInt32BE (b : Buffer.t) (offset : Z) : result Z :=
  Buffer.readBE 4 b offset 0.

(** [TransportParameters.fromBuffer]. *)
Definition fromBuffer (isServer : bool) (buffer : Buffer.t)
  : option (result TransportParameters) :=
  match readUInt32BE buffer 0 with
  | Throw e => Some (Throw e)
  | Ok number =>
      let version := fromHex (toString16 number) in
      let tpBuffer := Buffer.slice buffer 4 (Buffer.byteLength buffer) in
      fromExtensionBuffer isServer tpBuffer version
  end.

(** *** What a serialisation holds *)

(** A numeric value below [bound]. *)
Definition numberBelow (bound : Z) (v : Value) : Prop :=
  exists n, v = VNumber n /\ 0 <= n < bound.

Definition optionalNumberBelow (bound : Z) (v : option Value) : Prop :=
  match v with
  | None => True
  | Some v => numberBelow bound v
  end.

(** The transport parameters whose values fit the sizes
    [getTransportParameterTypeByteSize] gives their types: numbers that
    fit, and for a server a reset token of 16 bytes. *)
Definition fitsSizes (tp : TransportParameters) : Prop :=
  numberBelow (2 ^ 32) (maxStreamDataBidiLocal tp) /\
  numberBelow (2 ^ 32) (maxStreamDataBidiRemote tp) /\
  numberBelow (2 ^ 32) (maxStreamDataUni tp) /\
  numberBelow (2 ^ 32) (maxData tp) /\
  numberBelow (2 ^ 16) (idleTimeout tp) /\
  (isServer tp = true ->
   exists token,
     statelessResetToken tp = Some (VBuffer token) /\ length token = 16%nat) /\
  optionalNumberBelow (2 ^ 16) (maxStreamIdBidi tp) /\
  optionalNumberBelow (2 ^ 16) (maxStreamIdUni tp) /\
  optionalNumberBelow (2 ^ 16) (maxPacketSize tp) /\
  optionalNumberBelow (2 ^ 8) (ackDelayExponent tp).

(** A value [writeTransportParameter] writes in [size] bytes: a [Buffer]
    of that length, or a number that [writeUIntBE] takes for that byte
    length. *)
Definition fitsSize (size : Z) (value : option Value) : Prop :=
  (exists b, value = Some (VBuffer b) /\ Buffer.byteLength b = size
             /\ 0 < size) \/
  (exists n, value = Some (VNumber n) /\ 0 <= n < 2 ^ (8 * size)
             /\ 1 <= size <= 4).

(** The value bytes written for a value of [size] bytes. *)
Definition valueBytes (size : Z) (value : option Value) : Buffer.t :=
  match value with
  | Some (VBuffer b) => b
  | _ => BufferWrite.uintBE (Z.to_nat size) (numberOf value)
  end.

Definition wireOf (type : Z) (value : option Value) : WireParameter :=
  mkWireParameter type
    (valueBytes (getTransportParameterTypeByteSize type) value).

(** The records [getTransportParametersBuffer] writes, in its order. *)
Definition wireParameters (tp : TransportParameters) : list WireParameter :=
  [ wireOf INITIAL_MAX_STREAM_DATA_BIDI_LOCAL (Some (maxStreamDataBidiLocal tp));
    wireOf INITIAL_MAX_STREAM_DATA_BIDI_REMOTE
      (Some (maxStreamDataBidiRemote tp));
    wireOf INITIAL_MAX_STREAM_DATA_UNI (Some (maxStreamDataUni tp));
    wireOf INITIAL_MAX_DATA (Some (maxData tp));
    wireOf IDLE_TIMEOUT (Some (idleTimeout tp)) ]
  ++ (if isServer tp then
        [wireOf STATELESS_RESET_TOKEN (statelessResetToken tp)]
      else [])
  ++ (if isDefined (maxStreamIdBidi tp) then
        [wireOf INITIAL_MAX_BIDI_STREAMS (maxStreamIdBidi tp)]
      else [])
  ++ (if isDefined (maxStreamIdUni tp) then
        [wireOf INITIAL_MAX_UNI_STREAMS (maxStreamIdUni tp)]
      else [])
  ++ (if isDefined (maxPacketSize tp) then
        [wireOf MAX_PACKET_SIZE (maxPacketSize tp)]
      else [])
  ++ (if isDefined (ackDelayExponent tp) then
        [wireOf ACK_DELAY_EXPONENT (ackDelayExponent tp)]
      else [])
  ++ (if truthy (disableMigration tp) then
        [mkWireParameter DISABLE_MIGRATION []]
      else []).

(** Parameters of a server: numbers, a reset token and the migration
    flag. *)
Definition sampleServerParameters : TransportParameters :=
  mkTransportParameters true (VNumber 1000) (VNumber 2000) (VNumber 3000)
    (VNumber 40000) (Some (VNumber 12)) None (VNumber 30)
    (Some (VNumber 1252)) (Some (VBuffer (repeat xab 16)))
    (Some (VNumber 3)) (Some VTrue) [xff; x00; x00; x0c].

End TransportParamsIO.


(** ** utilities/parsers/packet.parser.ts *)

Module PacketParser.

Section WithCrypto.

Variable FT : FrameTypeEnum.

(** The connection, the parsed header and the endpoint type are handed
    on to the AEAD, whose three decryptions are not among the sources;
    each returns the decrypted payload or raises. *)
Variables Connection BaseHeader EndpointType : Type.
Variable clearTextDecrypt :
  Connection -> BaseHeader -> Buffer.t -> EndpointType -> result Buffer.t.
Variable protected0RTTDecrypt :
  Connection -> BaseHeader -> Buffer.t -> EndpointType -> result Buffer.t.
Variable protected1RTTDecrypt :
  Connection -> BaseHeader -> Buffer.t -> EndpointType -> result Buffer.t.

(** [new Version(buffer)]. *)
Definition Version : Type := Buffer.t.

(** The packets the parser builds. *)
Inductive BasePacket : Type :=
| ShortHeaderPacket (header : BaseHeader) (frames : list BaseFrame)
| VersionNegotiationPacket (header : BaseHeader) (versions : list Version)
| ClientInitialPacket (header : BaseHeader) (frames : list BaseFrame)
| Protected0RTTPacket (header : BaseHeader) (frames : list BaseFrame)
| HandshakePacket (header : BaseHeader) (frames : list BaseFrame).

Record PacketOffset : Type := mkPacketOffset {
  packet : BasePacket;
  offset : Z
}.

(** [HeaderOffset] of the header parser: the header and the offset
    behind it. *)
Record HeaderOffset : Type := mkHeaderOffset {
  header : BaseHeader;
  headerOffset_offset : Z
}.

(** [var dataBuffer = Buffer.alloc(buffer.byteLength - offset);
    buffer.copy(dataBuffer, 0, offset)]. *)
Definition payload (buffer : Buffer.t) (offset : Z) : result Buffer.t :=
  dataBuffer <- Buffer.alloc (Buffer.byteLength buffer - offset) ;;
  Buffer.copy buffer dataBuffer offset (Buffer.byteLength buffer).

(** [this.frameParser.parse(dataBuffer, 0)] and the packet built from
    its frames. *)
Definition framesPacket (build : list BaseFrame -> BasePacket)
    (dataBuffer : Buffer.t) (offset : Z) : option (result PacketOffset) :=
  match FrameParser.parse FT dataBuffer 0 with
  | None => None
  | Some (Throw e) => Some (Throw e)
  | Some (Ok frames) => Some (Ok (mkPacketOffset (build frames) offset))
  end.

Definition parseShortHeaderPacket (connection : Connection)
    (headerOffset : HeaderOffset) (buffer : Buffer.t)
    (endpoint : EndpointType) : option (result PacketOffset) :=
  match
    (dataBuffer <- payload buffer (headerOffset_offset headerOffset) ;;
     protected1RTTDecrypt connection (header headerOffset) dataBuffer
       endpoint)
  with
  | Throw e => Some (Throw e)
  | Ok dataBuffer =>
      framesPacket (ShortHeaderPacket (header headerOffset)) dataBuffer
        (headerOffset_offset headerOffset)
  end.

(** The [while] of [parseVersionNegotiationPacket], for at most [fuel]
    iterations. *)
Fixpoint parseVersionNegotiationPacket_while (fuel : nat) (buffer : Buffer.t)
    (offset : Z) (versions : list Version) : option (list Version * Z) :=
  if offset <? Buffer.byteLength buffer then
    match fuel with
    | O => None
    | S fuel' =>
        let version := Buffer.slice buffer offset (offset + 4) in
        parseVersionNegotiationPacket_while fuel' buffer (offset + 4)
          (versions ++ [version])
    end
  else Some (versions, offset).

(** [parseVersionNegotiationPacket], for the offsets from 0 on that
    [parseLongHeaderPacket] calls it with: every iteration moves four
    bytes on, so one iteration per byte is enough. *)
Definition parseVersionNegotiationPacket (header : BaseHeader)
    (buffer : Buffer.t) (offset : Z) : option PacketOffset :=
  match
    parseVersionNegotiationPacket_while (length buffer) buffer offset []
  with
  | None => None
  | Some (versions, offset) =>
      Some (mkPacketOffset (VersionNegotiationPacket header versions) offset)
  end.

Definition parseClientInitialPacket (connection : Connection)
    (header : BaseHeader) (buffer : Buffer.t) (offset : Z)
    (endpoint : EndpointType) : option (result PacketOffset) :=
  match
    (dataBuffer <- payload buffer offset ;;
     clearTextDecrypt connection header dataBuffer endpoint)
  with
  | Throw e => Some (Throw e)
  | Ok dataBuffer => framesPacket (ClientInitialPacket header) dataBuffer offset
  end.

Definition parseProtected0RTTPacket (connection : Connection)
    (header : BaseHeader) (buffer : Buffer.t) (offset : Z)
    (endpoint : EndpointType) : option (result PacketOffset) :=
  match
    (dataBuffer <- payload buffer offset ;;
     protected0RTTDecrypt connection header dataBuffer endpoint)
  with
  | Throw e => Some (Throw e)
  | Ok dataBuffer => framesPacket (Protected0RTTPacket header) dataBuffer offset
  end.

Definition parseHandshakePacket (connection : Connection)
    (header : BaseHeader) (buffer : Buffer.t) (offset : Z)
    (endpoint : EndpointType) : option (result PacketOffset) :=
  match
    (dataBuffer <- payload buffer offset ;;
     clearTextDecrypt connection header dataBuffer endpoint)
  with
  | Throw e => Some (Throw e)
  | Ok dataBuffer => framesPacket (HandshakePacket header) dataBuffer offset
  end.

End WithCrypto.

Arguments ShortHeaderPacket {BaseHeader}.
Arguments VersionNegotiationPacket {BaseHeader}.
Arguments ClientInitialPacket {BaseHeader}.
Arguments Protected0RTTPacket {BaseHeader}.
Arguments HandshakePacket {BaseHeader}.
Arguments mkPacketOffset {BaseHeader}.
Arguments packet {BaseHeader}.
Arguments offset {BaseHeader}.
Arguments mkHeaderOffset {BaseHeader}.
Arguments header {BaseHeader}.
Arguments headerOffset_offset {BaseHeader}.
Arguments parseVersionNegotiationPacket {BaseHeader}.

(** Decryption that leaves the payload as it is. *)
Definition noDecrypt (connection header : unit) (dataBuffer : Buffer.t)
    (endpoint : unit) : result Buffer.t := Ok dataBuffer.

End PacketParser.
(** * Properties *)

Ltac bind_inv H :=
  match type of H with
  | bind ?c _ = Ok _ =>
      let E := fresh "E" in
      destruct c eqn:E; cbn beta iota delta [bind] in H;
      [ | discriminate H ]
  end.

Module BufferFacts.
Import Buffer.

Lemma byte_val_range (b : byte) : 0 <= byte_val b < 256.
Proof.
  unfold byte_val. pose proof (Byte.to_N_bounded b). lia.
Qed.

Lemma byteLength_nonneg (b : t) : 0 <= byteLength b.
Proof. unfold byteLength. lia. Qed.

Lemma readUInt8_ok (b : t) (o v : Z) :
  readUInt8 b o = Ok v -> 0 <= o < byteLength b /\ 0 <= v < 256.
Proof.
  unfold readUInt8, byteLength. destruct (Z.ltb_spec o 0); [discriminate|].
  destruct (nth_error b (Z.to_nat o)) eqn:E; [|discriminate].
  intros [= <-]. split; [|apply byte_val_range].
  assert (Z.to_nat o < length b)%nat by (apply nth_error_Some; congruence).
  lia.
Qed.

Lemma readBE_ok (n : nat) (b : t) (o acc v : Z) :
  readBE n b o acc = Ok v ->
  (0 < n)%nat -> 0 <= o /\ o + Z.of_nat n <= byteLength b.
Proof.
  revert o acc. induction n as [|n IH]; intros o acc H Hn; [lia|].
  simpl in H. bind_inv H. apply readUInt8_ok in E.
  destruct n as [|n'].
  - lia.
  - apply IH in H; lia.
Qed.

Lemma readBE_nonneg (n : nat) (b : t) (o acc v : Z) :
  readBE n b o acc = Ok v -> 0 <= acc -> 0 <= v.
Proof.
  revert o acc. induction n as [|n IH]; intros o acc H Hacc; simpl in H.
  - congruence.
  - bind_inv H. apply readUInt8_ok in E. eapply IH; [eassumption|lia].
Qed.

Lemma alloc_ok (n : Z) (b : t) :
  alloc n = Ok b -> 0 <= n /\ b = repeat x00 (Z.to_nat n).
Proof.
  unfold alloc. destruct (Z.ltb_spec n 0); simpl; [discriminate|].
  destruct (kMaxLength <? n); [discriminate|]. intros [= <-]. auto.
Qed.

Lemma copy_length (src target : t) (s e : Z) (d : t) :
  copy src target s e = Ok d -> length d = length target.
Proof.
  unfold copy. destruct (_ || _); [now intros [= <-]|].
  destruct (_ <? _); [discriminate|]. intros [= <-].
  set (got := firstn (length target) (slice src s e)).
  assert (length got <= length target)%nat
    by (unfold got; rewrite length_firstn; lia).
  rewrite length_app, length_skipn. lia.
Qed.

Lemma allocCopy_ok (src : t) (start n : Z) (b : t) :
  allocCopy src start n = Ok b -> 0 <= n /\ Z.of_nat (length b) = n.
Proof.
  unfold allocCopy. intros H. bind_inv H. apply alloc_ok in E.
  destruct E as [Hn ->]. apply copy_length in H.
  rewrite repeat_length in H. lia.
Qed.

End BufferFacts.

Module VLIEFacts.
Import VLIE BufferFacts.

(** A successful decode starts inside the buffer, consumes between one
    and eight bytes, all of them inside the buffer, and yields a
    non-negative value. *)
Lemma decode_ok (b : Buffer.t) (o : Z) (v : VLIEOffset) :
  decode b o = Ok v ->
  0 <= o /\ o < offset v <= o + 8 /\ offset v <= Buffer.byteLength b /\
  0 <= value v.
Proof.
  unfold decode. destruct (Z.leb_spec (Buffer.byteLength b) o); [discriminate|].
  intros Hd. bind_inv Hd. bind_inv Hd. injection Hd as <-. simpl.
  apply readUInt8_ok in E. destruct E as [Ho Ha].
  assert (Hc : 0 <= Z.shiftr a 6 < 4).
  { rewrite Z.shiftr_div_pow2 by lia. change (2 ^ 6) with 64.
    split; [apply Z.div_pos; lia | apply Z.div_lt_upper_bound; lia]. }
  assert (Hs : 1 <= Z.shiftl 1 (Z.shiftr a 6) <= 8).
  { rewrite Z.shiftl_1_l.
    assert (Z.shiftr a 6 = 0 \/ Z.shiftr a 6 = 1 \/ Z.shiftr a 6 = 2
            \/ Z.shiftr a 6 = 3) as [-> | [-> | [-> | ->]]] by lia;
      simpl; lia. }
  assert (Hv : 0 <= a0).
  { eapply readBE_nonneg; [eassumption|].
    apply Z.land_nonneg. lia. }
  repeat split; try lia.
  destruct (Z.to_nat (Z.shiftl 1 (Z.shiftr a 6) - 1)) eqn:En.
  - lia.
  - apply readBE_ok in E0; lia.
Qed.

End VLIEFacts.

Ltac bind_inv_pair H :=
  bind_inv H;
  try match goal with
      | p : (_ * _)%type |- _ => destruct p; cbn beta iota in H
      end.

Ltac decode_facts :=
  repeat match goal with
         | H : VLIE.decode _ _ = Ok _ |- _ => apply VLIEFacts.decode_ok in H
         | H : Buffer.readUInt8 _ _ = Ok _ |- _ =>
             apply BufferFacts.readUInt8_ok in H
         | H : Buffer.allocCopy _ _ _ = Ok _ |- _ =>
             apply BufferFacts.allocCopy_ok in H
         end.

Module FrameParserFacts.
Import FrameParser.

Lemma parsePadding_while_ge (rest : list byte) (o : Z) :
  o <= parsePadding_while rest o.
Proof.
  revert o. induction rest as [|b rest IH]; intros o; simpl; [lia|].
  destruct (Buffer.byte_val b =? 0); [|lia].
  specialize (IH (o + 1)). lia.
Qed.

Lemma parseAckBlocks_advances (n : nat) (b : Buffer.t) (o o' : Z)
    (blocks : list AckBlock) :
  parseAckBlocks n b o = Ok (blocks, o') ->
  o <= o' /\ (o' <= Buffer.byteLength b \/ o' = o) /\ length blocks = n.
Proof.
  revert o o' blocks. induction n as [|n IH]; intros o o' blocks H; simpl in H.
  - injection H as <- <-. simpl. lia.
  - bind_inv H. bind_inv H. bind_inv_pair H. injection H as <- <-.
    apply IH in E1. decode_facts. simpl. lia.
Qed.

Lemma parseAckFields_advances (ecn : bool) (b : Buffer.t) (o e : Z)
    (f : AckFrame) :
  parseAckFields ecn b o = Ok (f, e) ->
  o < e <= Buffer.byteLength b /\
  ECT0count f = None /\ ECT1count f = None /\ CEcount f = None.
Proof.
  unfold parseAckFields. intros H.
  bind_inv H. bind_inv H. bind_inv H. bind_inv H. bind_inv_pair H.
  injection H as <- <-. apply parseAckBlocks_advances in E3.
  decode_facts. simpl. repeat split; lia.
Qed.

(** Each frame parser leaves the offset where it found it or further. *)
Ltac advances :=
  let H := fresh "H" in
  intros H; repeat bind_inv_pair H;
  try (injection H as <-); simpl; decode_facts; lia.

Lemma parsePadding_advances b o fo :
  parsePadding b o = Ok fo -> o <= offset fo.
Proof.
  unfold parsePadding, ret. intros [= <-]. simpl. apply parsePadding_while_ge.
Qed.

Lemma parseRstStream_advances b o fo :
  parseRstStream b o = Ok fo -> o <= offset fo.
Proof. unfold parseRstStream, ret. advances. Qed.

Lemma parseClose_advances t b o fo :
  parseClose t b o = Ok fo -> o <= offset fo.
Proof.
  unfold parseClose, ret. intros H. bind_inv H. bind_inv H.
  decode_facts. destruct t; injection H as <-; simpl; lia.
Qed.

Lemma parseMaxData_advances b o fo :
  parseMaxData b o = Ok fo -> o <= offset fo.
Proof. unfold parseMaxData, ret. advances. Qed.

Lemma parseMaxStreamData_advances b o fo :
  parseMaxStreamData b o = Ok fo -> o <= offset fo.
Proof. unfold parseMaxStreamData, ret. advances. Qed.

Lemma parseMaxStreamId_advances b o fo :
  parseMaxStreamId b o = Ok fo -> o <= offset fo.
Proof. unfold parseMaxStreamId, ret. advances. Qed.

Lemma parsePing_advances b o fo :
  parsePing b o = Ok fo -> o <= offset fo.
Proof. unfold parsePing, ret. advances. Qed.

Lemma parseBlocked_advances b o fo :
  parseBlocked b o = Ok fo -> o <= offset fo.
Proof. unfold parseBlocked, ret. advances. Qed.

Lemma parseStreamBlocked_advances b o fo :
  parseStreamBlocked b o = Ok fo -> o <= offset fo.
Proof. unfold parseStreamBlocked, ret. advances. Qed.

Lemma parseStreamIdBlocked_advances b o fo :
  parseStreamIdBlocked b o = Ok fo -> o <= offset fo.
Proof. unfold parseStreamIdBlocked, ret. advances. Qed.

Lemma parseNewConnectionId_advances b o fo :
  parseNewConnectionId b o = Ok fo -> o <= offset fo.
Proof. unfold parseNewConnectionId, ret. advances. Qed.

Lemma parseStopSending_advances b o fo :
  parseStopSending b o = Ok fo -> o <= offset fo.
Proof. unfold parseStopSending, ret. advances. Qed.

Lemma parseAck_advances ecn b o fo :
  parseAck ecn b o = Ok fo -> o <= offset fo.
Proof.
  unfold parseAck, ret. intros H. bind_inv_pair H.
  apply parseAckFields_advances in E. destruct E as [E _].
  destruct ecn; [destruct (z =? Buffer.byteLength b)|];
    repeat bind_inv H; injection H as <-; simpl; decode_facts; lia.
Qed.

Lemma parsePathChallenge_advances b o fo :
  parsePathChallenge b o = Ok fo -> o <= offset fo.
Proof.
  unfold parsePathChallenge, ret, PATH_CHALLENGE_PAYLOAD_SIZE. advances.
Qed.

Lemma parsePathResponse_advances b o fo :
  parsePathResponse b o = Ok fo -> o <= offset fo.
Proof.
  unfold parsePathResponse, ret, PATH_RESPONSE_PAYLOAD_SIZE. advances.
Qed.

Lemma parseCrypto_advances b o fo :
  parseCrypto b o = Ok fo -> o <= offset fo.
Proof. unfold parseCrypto, ret. advances. Qed.

Lemma parseStream_advances t b o fo :
  parseStream t b o = Ok fo -> o <= offset fo.
Proof.
  unfold parseStream, ret. intros H. bind_inv H. bind_inv_pair H.
  bind_inv_pair H. bind_inv H. injection H as <-. simpl.
  destruct (flag t 4); [bind_inv E0|]; injection E0 as <- <-;
    (destruct (flag t 2); [bind_inv E1|]; injection E1 as <- <-);
    decode_facts; lia.
Qed.

Create HintDb advances.

#[local] Hint Resolve parsePadding_advances parseRstStream_advances
  parseClose_advances parseMaxData_advances parseMaxStreamData_advances
  parseMaxStreamId_advances parsePing_advances parseBlocked_advances
  parseStreamBlocked_advances parseStreamIdBlocked_advances
  parseNewConnectionId_advances parseStopSending_advances parseAck_advances
  parsePathChallenge_advances parsePathResponse_advances
  parseCrypto_advances parseStream_advances : advances.

Lemma some_inv (r : result FrameOffset) (fo : option FrameOffset) :
  some r = Ok fo -> exists fo', r = Ok fo' /\ fo = Some fo'.
Proof.
  unfold some. intros H. bind_inv H. injection H as <-. eauto.
Qed.

(** A frame is emitted only from inside the buffer, and its parser
    returns an offset beyond the type byte. *)
Lemma parseFrame_advances (FT : FrameTypeEnum) (b : Buffer.t) (o : Z)
    (fo : FrameOffset) :
  parseFrame FT b o = Ok (Some fo) ->
  0 <= o < Buffer.byteLength b /\ o < offset fo.
Proof.
  unfold parseFrame.
  destruct (Z.leb_spec (Buffer.byteLength b) o) as [|Hlt]; [discriminate|].
  intros H. bind_inv H. apply BufferFacts.readUInt8_ok in E.
  split; [lia|].
  assert (Hadv : o + 1 <= offset fo); [|lia].
  repeat match type of H with
         | (if ?c then _ else _) = _ => destruct c
         end;
    try discriminate H;
    apply some_inv in H; destruct H as (fo' & H & [= ->]);
    eauto with advances.
Qed.

Lemma parse_while_terminates (FT : FrameTypeEnum) (msg : Buffer.t) :
  forall (fuel : nat) (fo : FrameOffset) (frames : list BaseFrame),
    (1 <= fuel)%nat ->
    Buffer.byteLength msg < Z.of_nat fuel + offset fo ->
    exists r, parse_while FT fuel msg (Some fo) frames = Some r.
Proof.
  induction fuel as [|fuel IH]; intros fo frames H1 H2; [lia|].
  simpl. destruct (parseFrame FT msg (offset fo)) as [[fo'|]|e] eqn:E.
  - apply parseFrame_advances in E. apply IH; lia.
  - destruct fuel; simpl; eauto.
  - eauto.
Qed.

Lemma parse_while_length (FT : FrameTypeEnum) (msg : Buffer.t) :
  forall (fuel : nat) (fo : option FrameOffset) (frames out : list BaseFrame),
    parse_while FT fuel msg fo frames = Some (Ok out) ->
    (length out <= length frames + fuel)%nat.
Proof.
  induction fuel as [|fuel IH]; intros [fo|] frames out H; simpl in H;
    try discriminate; try (injection H as <-; lia).
  destruct (parseFrame FT msg (offset fo)) as [next|e]; [|discriminate].
  apply IH in H. rewrite length_app in H. simpl in H. lia.
Qed.

End FrameParserFacts.

Module FrameParserSpec.
Import FrameParser FrameParserFacts.

(** *** CONNECTION_CLOSE and APPLICATION_CLOSE *)

(** What [parseClose] returns: the phrase is the slice of the buffer from
    the end [e] of the length field up to the absolute offset [L] (not
    [e + L]), and the offset is [e + L]. *)
Lemma parseClose_returns (t : FrameTypeClose) (buffer : Buffer.t) (o : Z)
    (code : Z) (phraseLength : VLIE.VLIEOffset) :
  Buffer.readUInt16BE buffer o = Ok code ->
  VLIE.decode buffer (o + 2) = Ok phraseLength ->
  let e := VLIE.offset phraseLength in
  let L := VLIE.value phraseLength in
  parseClose t buffer o =
    Ok (mkFrameOffset
          (match t with
           | CLOSE_CONNECTION => FConnectionClose code (Buffer.slice buffer e L)
           | CLOSE_APPLICATION =>
               FApplicationClose code (Buffer.slice buffer e L)
           end)
          (e + L)).
Proof.
  intros Hc Hd. unfold parseClose. rewrite Hc. cbn [bind]. rewrite Hd.
  cbn [bind]. destruct t; reflexivity.
Qed.

(** C1: on the CONNECTION_CLOSE frame [02 0007 02 'h' 'i'] the length
    field ends at offset 4 and gives length 2, so the reason phrase is the
    two bytes at offsets 4 and 5; [parseClose] returns the right offset, 6,
    and an empty phrase. *)
Theorem parseClose_phrase_failing_input :
  let buffer := [x02; x00; x07; x02; x68; x69] in
  VLIE.decode buffer 3 = Ok (VLIE.mkVLIEOffset 2 4) /\
  Buffer.slice buffer 4 (4 + 2) = [x68; x69] /\
  parseClose CLOSE_CONNECTION buffer 1 =
    Ok (mkFrameOffset (FConnectionClose 7 []) 6).
Proof. repeat split. Qed.

(** *** Unknown frame types *)

(** C3 (as the code has it): a type byte that is neither a case of the
    [switch] nor in the STREAM range raises nothing.  [parseFrame] returns
    [undefined], so [parse] stops there and returns the frames decoded so
    far. *)
Theorem unknown_type_stops_parse (FT : FrameTypeEnum) (buffer : Buffer.t)
    (o type : Z) :
  Buffer.readUInt8 buffer o = Ok type ->
  isKnownType FT type = false ->
  parseFrame FT buffer o = Ok None /\
  parse FT buffer o = Some (Ok []) /\
  (forall (fuel : nat) (fo : FrameOffset) (frames : list BaseFrame),
      offset fo = o ->
      parse_while FT (S fuel) buffer (Some fo) frames
      = Some (Ok (frames ++ [frame fo]))).
Proof.
  intros Hr Hk.
  assert (Hf : parseFrame FT buffer o = Ok None).
  { unfold parseFrame.
    destruct (Buffer.byteLength buffer <=? o); [reflexivity|].
    rewrite Hr. cbn [bind]. unfold isKnownType in Hk.
    repeat (apply orb_false_elim in Hk; destruct Hk as [Hk ?]).
    repeat match goal with H : _ = false |- _ => rewrite H; clear H end.
    reflexivity. }
  split; [exact Hf|]. split.
  - unfold parse, parse_fuel. rewrite Hf. destruct (length buffer); reflexivity.
  - intros fuel fo frames <-. simpl. rewrite Hf. destruct fuel; reflexivity.
Qed.

Lemma unknown_type_stops_parse_witness :
  parseFrame FrameType [x07; xff; x07] 1 = Ok None /\
  parse FrameType [x07; xff; x07] 1 = Some (Ok []) /\
  (forall (fuel : nat) (fo : FrameOffset) (frames : list BaseFrame),
      offset fo = 1 ->
      parse_while FrameType (S fuel) [x07; xff; x07] (Some fo) frames
      = Some (Ok (frames ++ [frame fo]))).
Proof.
  apply (unknown_type_stops_parse FrameType [x07; xff; x07] 1 255);
    reflexivity.
Defined.

(** C3 (counterexample): the payload [07 ff 07] has the unknown type byte
    [0xff] at offset 1; decoding it raises no [FRAME_ENCODING_ERROR] but
    returns the PING frame decoded before it. *)
Lemma unknown_type_counterexample :
  Buffer.readUInt8 [x07; xff; x07] 1 = Ok 255 /\
  isKnownType FrameType 255 = false /\
  parseFrame FrameType [x07; xff; x07] 1 <> Throw FRAME_ENCODING_ERROR /\
  parse FrameType [x07; xff; x07] 0 <> Some (Throw FRAME_ENCODING_ERROR) /\
  parse FrameType [x07; xff; x07] 0 = Some (Ok [FPing]).
Proof. repeat split; discriminate. Qed.

(** *** PADDING *)

Lemma skipn_nth_error {A : Type} (l : list A) (n : nat) (x : A) :
  nth_error l n = Some x -> skipn n l = x :: skipn (S n) l.
Proof.
  revert n. induction l as [|a l IH]; intros [|n] H; try discriminate.
  - injection H as ->. reflexivity.
  - simpl in H. apply IH in H. simpl. exact H.
Qed.

Lemma readUInt8_skipn (b : Buffer.t) (o v : Z) :
  Buffer.readUInt8 b o = Ok v ->
  exists x, Buffer.byte_val x = v /\
            skipn (Z.to_nat o) b = x :: skipn (Z.to_nat (o + 1)) b.
Proof.
  unfold Buffer.readUInt8. destruct (Z.ltb_spec o 0); [discriminate|].
  destruct (nth_error b (Z.to_nat o)) as [x|] eqn:E; [|discriminate].
  intros [= <-]. exists x. split; [reflexivity|].
  replace (Z.to_nat (o + 1)) with (S (Z.to_nat o)) by lia.
  now apply skipn_nth_error.
Qed.

Lemma readUInt8_skipn_stop (b : Buffer.t) (o : Z) :
  0 <= o -> Buffer.readUInt8 b o <> Ok 0 ->
  forall o', parsePadding_while (skipn (Z.to_nat o) b) o' = o'.
Proof.
  intros Ho Hr o'. unfold Buffer.readUInt8 in Hr.
  destruct (Z.ltb_spec o 0); [lia|].
  destruct (nth_error b (Z.to_nat o)) as [x|] eqn:E.
  - rewrite (skipn_nth_error _ _ _ E). simpl.
    destruct (Z.eqb_spec (Buffer.byte_val x) 0); [congruence|reflexivity].
  - apply nth_error_None in E. rewrite skipn_all2 by exact E. reflexivity.
Qed.

(** The [while] of [parsePadding] stops exactly at the end of a run of
    zero bytes. *)
Lemma parsePadding_while_run (b : Buffer.t) (n : nat) :
  forall o : Z,
    0 <= o ->
    (forall i, o <= i < o + Z.of_nat n -> Buffer.readUInt8 b i = Ok 0) ->
    Buffer.readUInt8 b (o + Z.of_nat n) <> Ok 0 ->
    parsePadding_while (skipn (Z.to_nat o) b) o = o + Z.of_nat n.
Proof.
  induction n as [|n IH]; intros o Ho Hrun Hend.
  - rewrite Z.add_0_r in *. now apply readUInt8_skipn_stop.
  - destruct (readUInt8_skipn b o 0) as (x & Hx & ->); [apply Hrun; lia|].
    simpl parsePadding_while. rewrite Hx. simpl (0 =? 0).
    rewrite IH; [lia|lia| |].
    + intros i Hi. apply Hrun. lia.
    + now replace (o + 1 + Z.of_nat n) with (o + Z.of_nat (S n)) by lia.
Qed.

(** Only the PADDING case of [parseFrame] yields a PADDING frame. *)
Lemma parseFrame_padding_only (FT : FrameTypeEnum) (b : Buffer.t) (o : Z)
    (fo : FrameOffset) :
  parseFrame FT b o = Ok (Some fo) ->
  isPadding (frame fo) = true ->
  Buffer.readUInt8 b o = Ok (PADDING FT).
Proof.
  unfold parseFrame.
  destruct (Buffer.byteLength b <=? o); [discriminate|].
  intros H Hp. bind_inv H.
  destruct (Z.eqb_spec a (PADDING FT)) as [->|_]; [reflexivity|].
  exfalso.
  repeat match type of H with
         | (if ?c then _ else _) = _ => destruct c
         end;
    try discriminate H;
    apply some_inv in H; destruct H as (fo' & H & [= ->]);
    unfold parseRstStream, parseClose, parseMaxData, parseMaxStreamData,
      parseMaxStreamId, parsePing, parseBlocked, parseStreamBlocked,
      parseStreamIdBlocked, parseNewConnectionId, parseStopSending,
      parsePathChallenge, parsePathResponse, parseCrypto, parseAck,
      parseStream, ret in H;
    repeat first
      [ bind_inv_pair H
      | match type of H with
        | (if ?c then _ else _) = _ => destruct c
        end ];
    injection H as <-; discriminate Hp.
Qed.

(** C4 (as the code has it): a maximal run of [k >= 1] zero bytes at the
    frame-type position yields one PADDING frame for the whole run, and
    parsing resumes at the first byte after the run with a frame that is
    not PADDING; the size recorded in the frame is [k - 1], the number of
    zero bytes after the type byte. *)
Theorem padding_run_coalesced (FT : FrameTypeEnum) (buffer : Buffer.t)
    (o k : Z) :
  PADDING FT = 0 ->
  0 <= o -> 1 <= k ->
  (forall i, o <= i < o + k -> Buffer.readUInt8 buffer i = Ok 0) ->
  Buffer.readUInt8 buffer (o + k) <> Ok 0 ->
  parseFrame FT buffer o
  = Ok (Some (mkFrameOffset (FPadding (k - 1)) (o + k))) /\
  (forall fo, parseFrame FT buffer (o + k) = Ok (Some fo) ->
              isPadding (frame fo) = false).
Proof.
  intros HP Ho Hk Hrun Hend. split.
  - unfold parseFrame.
    pose proof (Hrun o ltac:(lia)) as H0.
    destruct (Z.leb_spec (Buffer.byteLength buffer) o) as [Hle|_].
    { apply BufferFacts.readUInt8_ok in H0. lia. }
    rewrite H0. cbn [bind]. rewrite HP. simpl (0 =? 0). cbv iota.
    unfold some, parsePadding, ret. cbn [bind].
    rewrite (parsePadding_while_run buffer (Z.to_nat (k - 1)) (o + 1)).
    + do 3 f_equal; [f_equal|]; lia.
    + lia.
    + intros i Hi. apply Hrun. lia.
    + now replace (o + 1 + Z.of_nat (Z.to_nat (k - 1))) with (o + k) by lia.
  - intros fo Hfo. destruct (isPadding (frame fo)) eqn:Hp; [|reflexivity].
    apply (parseFrame_padding_only FT) in Hfo; [|exact Hp].
    rewrite HP in Hfo. contradiction.
Qed.

Lemma padding_run_coalesced_witness :
  parseFrame FrameType [x00; x00; x00; x07] 0
  = Ok (Some (mkFrameOffset (FPadding (3 - 1)) (0 + 3))) /\
  (forall fo, parseFrame FrameType [x00; x00; x00; x07] (0 + 3) = Ok (Some fo) ->
              isPadding (frame fo) = false).
Proof.
  apply (padding_run_coalesced FrameType [x00; x00; x00; x07] 0 3);
    try reflexivity; try lia.
  - intros i Hi.
    assert (i = 0 \/ i = 1 \/ i = 2) as [-> | [-> | ->]] by lia;
      reflexivity.
  - discriminate.
Defined.

(** C4 (counterexample): a run of three zero bytes followed by a PING
    gives a PADDING frame whose recorded size is 2, not 3. *)
Lemma padding_count_counterexample :
  parseFrame FrameType [x00; x00; x00; x07] 0
  = Ok (Some (mkFrameOffset (FPadding 2) 3)) /\
  parseFrame FrameType [x00; x00; x00; x07] 0
  <> Ok (Some (mkFrameOffset (FPadding 3) 3)).
Proof. split; [reflexivity|discriminate]. Qed.

(** *** STREAM *)

Lemma flag_testbit (type n : Z) :
  0 <= n -> flag type (2 ^ n) = Z.testbit type n.
Proof.
  intros Hn. unfold flag. destruct (Z.testbit type n) eqn:Hb.
  - destruct (Z.eqb_spec (Z.land type (2 ^ n)) 0) as [E|]; [|reflexivity].
    assert (H : Z.testbit (Z.land type (2 ^ n)) n = true).
    { rewrite Z.land_spec, Hb, Z.pow2_bits_true by exact Hn. reflexivity. }
    rewrite E, Z.bits_0 in H. discriminate.
  - assert (H : Z.land type (2 ^ n) = 0).
    { apply Z.bits_inj'. intros m Hm. rewrite Z.land_spec, Z.bits_0.
      destruct (Z.eq_dec n m) as [<-|Hne].
      - rewrite Hb. reflexivity.
      - rewrite Z.pow2_bits_false by exact Hne. apply andb_false_r. }
    rewrite H. reflexivity.
Qed.

(** Allocating and copying what is left of the buffer yields exactly the
    bytes from the offset to the end. *)
Lemma allocCopy_rest (b : Buffer.t) (o n : Z) (d : Buffer.t) :
  Buffer.allocCopy b o n = Ok d ->
  0 <= o -> o + n = Buffer.byteLength b ->
  d = skipn (Z.to_nat o) b.
Proof.
  unfold Buffer.allocCopy. intros H Ho Hn. bind_inv H.
  apply BufferFacts.alloc_ok in E. destruct E as [Hn0 ->].
  unfold Buffer.copy, Buffer.byteLength in *. rewrite repeat_length in H.
  destruct (Z.leb_spec (Z.of_nat (Z.to_nat n)) 0) as [Hz|Hz]; simpl in H.
  - injection H as <-. replace (Z.to_nat n) with O by lia. simpl.
    symmetry. apply skipn_all2. lia.
  - destruct (Z.leb_spec (o + n) o); [lia|].
    destruct (Z.ltb_spec (Z.of_nat (length b)) o); [lia|].
    injection H as <-. unfold Buffer.slice, Buffer.byteLength.
    rewrite Z.max_r, Z.min_r by lia.
    assert (Hl : length (skipn (Z.to_nat o) b) = Z.to_nat n)
      by (rewrite length_skipn; lia).
    rewrite (firstn_all2 (n := Z.to_nat (Z.of_nat (length b) - o)))
      by (rewrite Hl; lia).
    rewrite firstn_all2 by (rewrite Hl; lia).
    rewrite Hl.
    replace (skipn (Z.to_nat n) (repeat x00 (Z.to_nat n))) with (@nil byte).
    + apply app_nil_r.
    + symmetry. apply skipn_all2. rewrite repeat_length. lia.
Qed.

(** C8: for a STREAM type byte, [parseStream] takes FIN from bit 0, LEN
    from bit 1 and OFF from bit 2.  Without OFF no offset field is read
    and the data offset is 0; without LEN no length field is read, the
    data is everything from the current offset to the end of the buffer,
    and the returned offset is the end of the buffer. *)
Theorem parseStream_flags (type : Z) (buffer : Buffer.t) (o : Z)
    (fo : FrameOffset) :
  0x10 <= type <= 0x17 ->
  parseStream type buffer o = Ok fo ->
  exists (sid : VLIE.VLIEOffset) (sf : StreamFrame) (o1 o2 : Z),
    VLIE.decode buffer o = Ok sid /\
    frame fo = FStream sf /\
    streamID sf = VLIE.value sid /\
    fin sf = Z.testbit type 0 /\
    (if Z.testbit type 2
     then exists v, VLIE.decode buffer (VLIE.offset sid) = Ok v /\
                    dataOffset sf = VLIE.value v /\ o1 = VLIE.offset v
     else dataOffset sf = 0 /\ o1 = VLIE.offset sid) /\
    (if Z.testbit type 1
     then exists v, VLIE.decode buffer o1 = Ok v /\
                    streamLength sf = VLIE.value v /\ o2 = VLIE.offset v
     else streamLength sf = Buffer.byteLength buffer - o1 /\ o2 = o1 /\
          streamData sf = skipn (Z.to_nat o1) buffer /\
          offset fo = Buffer.byteLength buffer) /\
    Buffer.allocCopy buffer o2 (streamLength sf) = Ok (streamData sf) /\
    Z.of_nat (length (streamData sf)) = streamLength sf /\
    offset fo = o2 + streamLength sf.
Proof.
  intros _ H. unfold parseStream, ret in H.
  change 1 with (2 ^ 0) in H. change 2 with (2 ^ 1) in H.
  change 4 with (2 ^ 2) in H.
  rewrite !flag_testbit in H by lia.
  bind_inv H. rename a into sid. bind_inv_pair H. rename z into dOff, z0 into o1.
  bind_inv_pair H. rename z into dLen, z0 into o2. bind_inv H. rename a into d.
  injection H as <-. cbn [frame offset].
  exists sid, (mkStreamFrame (VLIE.value sid) d (Z.testbit type 0) true dOff dLen),
    o1, o2.
  cbn [streamID fin dataOffset streamLength streamData].
  assert (Hlen : Z.of_nat (length d) = dLen)
    by (apply BufferFacts.allocCopy_ok in E2; lia).
  pose proof (VLIEFacts.decode_ok _ _ _ E) as Hsid.
  assert (Ho1 : VLIE.offset sid <= o1 <= Buffer.byteLength buffer).
  { destruct (Z.testbit type 2).
    - bind_inv E0. injection E0 as <- <-.
      apply VLIEFacts.decode_ok in E3. lia.
    - injection E0 as <- <-. lia. }
  repeat split; try assumption; try reflexivity.
  - destruct (Z.testbit type 2).
    + bind_inv E0. injection E0 as <- <-. eauto.
    + injection E0 as <- <-. auto.
  - destruct (Z.testbit type 1).
    + bind_inv E1. injection E1 as <- <-. eauto.
    + injection E1 as <- <-. repeat split; try lia.
      apply (allocCopy_rest _ _ _ _ E2); lia.
Qed.

Lemma parseStream_flags_witness :
  exists (sid : VLIE.VLIEOffset) (sf : StreamFrame) (o1 o2 : Z),
    VLIE.decode [x11; x04; x68; x69] 1 = Ok sid /\
    frame (mkFrameOffset
             (FStream (mkStreamFrame 4 [x68; x69] true true 0 2)) 4)
    = FStream sf /\
    streamID sf = VLIE.value sid /\
    fin sf = Z.testbit 0x11 0 /\
    (if Z.testbit 0x11 2
     then exists v, VLIE.decode [x11; x04; x68; x69] (VLIE.offset sid) = Ok v /\
                    dataOffset sf = VLIE.value v /\ o1 = VLIE.offset v
     else dataOffset sf = 0 /\ o1 = VLIE.offset sid) /\
    (if Z.testbit 0x11 1
     then exists v, VLIE.decode [x11; x04; x68; x69] o1 = Ok v /\
                    streamLength sf = VLIE.value v /\ o2 = VLIE.offset v
     else streamLength sf = Buffer.byteLength [x11; x04; x68; x69] - o1 /\
          o2 = o1 /\
          streamData sf = skipn (Z.to_nat o1) [x11; x04; x68; x69] /\
          offset (mkFrameOffset
                    (FStream (mkStreamFrame 4 [x68; x69] true true 0 2)) 4)
          = Buffer.byteLength [x11; x04; x68; x69]) /\
    Buffer.allocCopy [x11; x04; x68; x69] o2 (streamLength sf)
    = Ok (streamData sf) /\
    Z.of_nat (length (streamData sf)) = streamLength sf /\
    offset (mkFrameOffset
              (FStream (mkStreamFrame 4 [x68; x69] true true 0 2)) 4)
    = o2 + streamLength sf.
Proof.
  apply (parseStream_flags 0x11 [x11; x04; x68; x69] 1); [lia|reflexivity].
Defined.

(** In the numbering of the wire-format table, every type byte from
    [0x10] to [0x17] is handed to [parseStream]. *)
Lemma parseFrame_stream (buffer : Buffer.t) (o type : Z) :
  0x10 <= type <= 0x17 ->
  Buffer.readUInt8 buffer o = Ok type ->
  parseFrame FrameType buffer o = some (parseStream type buffer (o + 1)).
Proof.
  intros Ht Hr. unfold parseFrame.
  destruct (Z.leb_spec (Buffer.byteLength buffer) o).
  { apply BufferFacts.readUInt8_ok in Hr. lia. }
  rewrite Hr. cbn [bind].
  assert (type = 16 \/ type = 17 \/ type = 18 \/ type = 19 \/ type = 20
          \/ type = 21 \/ type = 22 \/ type = 23)
    as [-> | [-> | [-> | [-> | [-> | [-> | [-> | ->]]]]]]] by lia;
    reflexivity.
Qed.

(** *** ACK_ECN *)

(** C9: let the ACK fields of an ACK_ECN frame end at offset [e].  If [e]
    is the end of the buffer, the frame is returned as it is, without ECN
    counts, and nothing is raised.  Otherwise three variable-length
    integers are decoded from [e] on: when they decode, they are stored as
    the ECT0, ECT1 and CE counts and the returned offset is the end of the
    third; when one of them does not, its error is raised. *)
Theorem parseAck_ECN_counts (buffer : Buffer.t) (o e : Z) (f : AckFrame) :
  parseAckFields true buffer o = Ok (f, e) ->
  (ECT0count f = None /\ ECT1count f = None /\ CEcount f = None) /\
  (e = Buffer.byteLength buffer ->
   parseAck true buffer o = Ok (mkFrameOffset (FAck f) e)) /\
  (e <> Buffer.byteLength buffer ->
   (forall ECT0 ECT1 CE,
       VLIE.decode buffer e = Ok ECT0 ->
       VLIE.decode buffer (VLIE.offset ECT0) = Ok ECT1 ->
       VLIE.decode buffer (VLIE.offset ECT1) = Ok CE ->
       exists f',
         parseAck true buffer o = Ok (mkFrameOffset (FAck f') (VLIE.offset CE)) /\
         ECT0count f' = Some (VLIE.value ECT0) /\
         ECT1count f' = Some (VLIE.value ECT1) /\
         CEcount f' = Some (VLIE.value CE) /\
         f' = setCEcount (VLIE.value CE)
                (setECT1count (VLIE.value ECT1)
                   (setECT0count (VLIE.value ECT0) f)) /\
         e < VLIE.offset ECT0 < VLIE.offset ECT1 /\
         VLIE.offset ECT1 < VLIE.offset CE <= Buffer.byteLength buffer) /\
   (forall err, VLIE.decode buffer e = Throw err ->
                parseAck true buffer o = Throw err) /\
   (forall ECT0 err,
       VLIE.decode buffer e = Ok ECT0 ->
       VLIE.decode buffer (VLIE.offset ECT0) = Throw err ->
       parseAck true buffer o = Throw err) /\
   (forall ECT0 ECT1 err,
       VLIE.decode buffer e = Ok ECT0 ->
       VLIE.decode buffer (VLIE.offset ECT0) = Ok ECT1 ->
       VLIE.decode buffer (VLIE.offset ECT1) = Throw err ->
       parseAck true buffer o = Throw err)).
Proof.
  intros Hf. pose proof (parseAckFields_advances _ _ _ _ _ Hf) as [_ Hnone].
  split; [exact Hnone|]. unfold parseAck. rewrite Hf. cbn [bind]. split.
  - intros ->. now rewrite Z.eqb_refl.
  - intros Hne. destruct (Z.eqb_spec e (Buffer.byteLength buffer)); [easy|].
    repeat split.
    + intros ECT0 ECT1 CE H0 H1 H2. rewrite H0. cbn [bind]. rewrite H1.
      cbn [bind]. rewrite H2. cbn [bind]. eexists. split; [reflexivity|].
      apply VLIEFacts.decode_ok in H0, H1, H2. cbn. repeat split; lia.
    + intros err ->. reflexivity.
    + intros ECT0 err -> H. cbn [bind]. now rewrite H.
    + intros ECT0 ECT1 err -> H H'. cbn [bind]. rewrite H. cbn [bind].
      now rewrite H'.
Qed.

Lemma parseAck_ECN_counts_witness :
  parseAck true ackEcnWithCounts 1
  = Ok (mkFrameOffset
          (FAck (mkAckFrame true 12 40 1 3 [mkAckBlock 2 1]
                   (Some 1) (Some 2) (Some 3)))
          10).
Proof.
  destruct (parseAck_ECN_counts ackEcnWithCounts 1 7
              (mkAckFrame true 12 40 1 3 [mkAckBlock 2 1] None None None)
              eq_refl) as (_ & _ & H).
  destruct (H ltac:(discriminate)) as (H3 & _).
  destruct (H3 (VLIE.mkVLIEOffset 1 8) (VLIE.mkVLIEOffset 2 9)
              (VLIE.mkVLIEOffset 3 10) eq_refl eq_refl eq_refl)
    as (f' & Hp & _ & _ & _ & -> & _).
  exact Hp.
Defined.

(** *** Termination of [parse] *)

(** C10: [parse] terminates on every buffer and starting offset, with a
    list of frames or an exception: every frame [parseFrame] emits comes
    with an offset beyond the one its type byte was read at, so one
    iteration per byte of the buffer is enough, and the list has at most
    as many frames as the buffer has bytes. *)
Theorem parse_terminates (FT : FrameTypeEnum) (msg : Buffer.t) (o : Z) :
  (exists r, parse FT msg o = Some r) /\
  (forall fo, parseFrame FT msg o = Ok (Some fo) -> o < offset fo) /\
  (forall frames, parse FT msg o = Some (Ok frames) ->
                  (length frames <= length msg)%nat).
Proof.
  repeat split.
  - unfold parse, parse_fuel.
    destruct (parseFrame FT msg o) as [[fo|]|e] eqn:E.
    + apply parseFrame_advances in E. unfold Buffer.byteLength in E.
      apply parse_while_terminates; unfold Buffer.byteLength; lia.
    + destruct (length msg); simpl; eauto.
    + eauto.
  - intros fo H. now apply parseFrame_advances in H.
  - unfold parse, parse_fuel. intros frames H.
    destruct (parseFrame FT msg o) as [fo|e]; [|discriminate].
    apply parse_while_length in H. simpl in H. exact H.
Qed.

Lemma parse_terminates_witness :
  (exists r, parse FrameType ackEcnWithCounts 0 = Some r) /\
  (forall fo, parseFrame FrameType ackEcnWithCounts 0 = Ok (Some fo) ->
              0 < offset fo) /\
  (forall frames, parse FrameType ackEcnWithCounts 0 = Some (Ok frames) ->
                  (length frames <= length ackEcnWithCounts)%nat).
Proof. exact (parse_terminates FrameType ackEcnWithCounts 0). Defined.

End FrameParserSpec.

Module TransportParamsFacts.
Import TransportParams.

Lemma byte_val_byte_of (z : Z) :
  0 <= z < 256 -> Buffer.byte_val (Buffer.byte_of z) = z.
Proof.
  intros Hz. unfold Buffer.byte_val, Buffer.byte_of.
  destruct (Byte.of_N (Z.to_N z)) as [b|] eqn:E.
  - apply Byte.to_of_N in E. lia.
  - apply Byte.of_N_None_iff in E. lia.
Qed.

Lemma skipn_length_app {A : Type} (pre l : list A) :
  skipn (length pre) (pre ++ l) = l.
Proof. induction pre; simpl; auto. Qed.

Lemma firstn_length_app {A : Type} (v rest : list A) :
  firstn (length v) (v ++ rest) = v.
Proof. induction v; simpl; congruence. Qed.

Lemma readUInt8_app (pre : Buffer.t) (x : byte) (rest : Buffer.t) :
  Buffer.readUInt8 (pre ++ x :: rest) (Buffer.byteLength pre)
  = Ok (Buffer.byte_val x).
Proof.
  unfold Buffer.readUInt8, Buffer.byteLength.
  destruct (Z.ltb_spec (Z.of_nat (length pre)) 0); [lia|].
  rewrite Nat2Z.id, nth_error_app2, Nat.sub_diag by lia. reflexivity.
Qed.

Lemma readBE_app (v : Buffer.t) :
  forall (pre rest : Buffer.t) (acc : Z),
    Buffer.readBE (length v) (pre ++ v ++ rest) (Buffer.byteLength pre) acc
    = Ok (fold_left (fun a x => a * 256 + Buffer.byte_val x) v acc).
Proof.
  induction v as [|x v IH]; intros pre rest acc; simpl; [reflexivity|].
  rewrite readUInt8_app. cbn [bind].
  replace (Buffer.byteLength pre + 1) with (Buffer.byteLength (pre ++ [x]))
    by (unfold Buffer.byteLength; rewrite length_app; simpl; lia).
  replace (pre ++ x :: v ++ rest) with ((pre ++ [x]) ++ v ++ rest)
    by (rewrite <- app_assoc; reflexivity).
  apply IH.
Qed.

Lemma readUInt16BE_app (pre rest : Buffer.t) (n : Z) :
  0 <= n < 65536 ->
  Buffer.readUInt16BE (pre ++ Buffer.uint16BE n ++ rest)
    (Buffer.byteLength pre) = Ok n.
Proof.
  intros Hn. unfold Buffer.readUInt16BE.
  change 2%nat with (length (Buffer.uint16BE n)). rewrite readBE_app.
  simpl. rewrite !byte_val_byte_of.
  - f_equal. pose proof (Z.div_mod n 256). lia.
  - apply Z.mod_pos_bound. lia.
  - split; [apply Z.div_pos; lia | apply Z.div_lt_upper_bound; lia].
Qed.

Lemma allocCopy_app (pre v rest : Buffer.t) :
  Buffer.byteLength v <= Buffer.kMaxLength ->
  Buffer.allocCopy (pre ++ v ++ rest) (Buffer.byteLength pre)
    (Buffer.byteLength v) = Ok v.
Proof.
  intros Hv. unfold Buffer.allocCopy, Buffer.alloc, Buffer.byteLength in *.
  destruct (Z.ltb_spec (Z.of_nat (length v)) 0); [lia|].
  destruct (Z.ltb_spec Buffer.kMaxLength (Z.of_nat (length v))); [lia|].
  simpl orb. cbv iota. cbn [bind]. rewrite Nat2Z.id.
  unfold Buffer.copy, Buffer.byteLength. rewrite repeat_length.
  destruct v as [|x v'].
  - reflexivity.
  - set (v := x :: v') in *.
    destruct (Z.leb_spec (Z.of_nat (length v)) 0); [simpl in *; lia|].
    destruct (Z.leb_spec (Z.of_nat (length pre) + Z.of_nat (length v))
                (Z.of_nat (length pre))); [simpl in *; lia|].
    rewrite length_app.
    destruct (Z.ltb_spec (Z.of_nat (length pre + length (v ++ rest)))
                (Z.of_nat (length pre))); [lia|].
    simpl orb. cbv iota. unfold Buffer.slice, Buffer.byteLength.
    rewrite !length_app.
    rewrite Z.max_r, Z.min_l by lia.
    replace (Z.to_nat (Z.of_nat (length pre) + Z.of_nat (length v)
                       - Z.of_nat (length pre))) with (length v) by lia.
    rewrite Nat2Z.id, skipn_length_app, firstn_length_app.
    rewrite !firstn_all.
    rewrite skipn_all2 by (rewrite repeat_length; lia).
    now rewrite app_nil_r.
Qed.

Lemma wireBytes_length (r : WireParameter) :
  Buffer.byteLength (wireBytes r) = 4 + Buffer.byteLength (wireValue r).
Proof.
  unfold wireBytes, Buffer.byteLength, Buffer.uint16BE.
  rewrite !length_app. cbn [length]. lia.
Qed.

(** On a well-formed record, one iteration of the loop reads the type,
    the length and the value, and checks the type against the map. *)
Lemma readParameter_wireBytes (pre rest : Buffer.t) (r : WireParameter)
    (values : Values) :
  wellFormed r ->
  readParameter (pre ++ wireBytes r ++ rest) (Buffer.byteLength pre) values
  = if inValues (wireType r) values then Throw TRANSPORT_PARAMETER_ERROR
    else Ok (Buffer.byteLength (pre ++ wireBytes r),
             setValue (wireType r) (valueOf (wireValue r)) values).
Proof.
  intros [Ht Hl]. unfold readParameter, wireBytes.
  pose proof (BufferFacts.byteLength_nonneg (wireValue r)) as Hl0.
  set (n := Buffer.byteLength (wireValue r)) in *.
  rewrite <- !app_assoc, readUInt16BE_app by lia. cbn [bind].
  assert (Hpre2 : Buffer.byteLength pre + 2
                  = Buffer.byteLength (pre ++ Buffer.uint16BE (wireType r)))
    by (unfold Buffer.byteLength, Buffer.uint16BE; rewrite length_app;
        cbn [length]; lia).
  rewrite Hpre2.
  rewrite (app_assoc pre (Buffer.uint16BE (wireType r))).
  rewrite readUInt16BE_app by lia. cbn [bind].
  set (pre2 := pre ++ Buffer.uint16BE (wireType r)) in *.
  assert (Hpre4 : Buffer.byteLength pre2 + 2
                  = Buffer.byteLength (pre2 ++ Buffer.uint16BE n))
    by (unfold Buffer.byteLength, Buffer.uint16BE; rewrite length_app;
        cbn [length]; lia).
  rewrite Hpre4. rewrite (app_assoc pre2 (Buffer.uint16BE n)).
  set (pre4 := pre2 ++ Buffer.uint16BE n) in *.
  assert (Hend : Buffer.byteLength pre4 + n
                 = Buffer.byteLength (pre4 ++ wireValue r))
    by (unfold n, Buffer.byteLength; rewrite length_app; lia).
  assert (Hval :
    (if 4 <? n
     then value <- Buffer.allocCopy (pre4 ++ wireValue r ++ rest)
                     (Buffer.byteLength pre4) n ;;
          Ok (VBuffer value)
     else if 0 <? n
          then value <- Buffer.readUIntBE (pre4 ++ wireValue r ++ rest)
                          (Buffer.byteLength pre4) n ;;
               Ok (VNumber value)
          else Ok VTrue)
    = Ok (valueOf (wireValue r))).
  { unfold valueOf. fold n. destruct (4 <? n).
    - unfold n. rewrite allocCopy_app; [reflexivity|].
      unfold Buffer.kMaxLength. fold n. lia.
    - destruct (0 <? n); [|reflexivity].
      unfold Buffer.readUIntBE, n, Buffer.byteLength.
      rewrite Nat2Z.id, readBE_app. reflexivity. }
  rewrite Hval. cbn [bind]. rewrite Hend.
  unfold pre4, pre2. rewrite <- !app_assoc.
  destruct (inValues (wireType r) values); reflexivity.
Qed.

Lemma readParameters_S (fuel : nat) (b : Buffer.t) (o : Z) (values : Values) :
  readParameters (S fuel) b o values
  = if o <? Buffer.byteLength b then
      match readParameter b o values with
      | Throw e => Some (Throw e)
      | Ok (o', values') => readParameters fuel b o' values'
      end
    else Some (Ok values).
Proof. reflexivity. Qed.

Lemma readParameters_wireBuffer (rs : list WireParameter) :
  forall (fuel : nat) (pre : Buffer.t) (values : Values),
    Forall wellFormed rs ->
    (length rs <= fuel)%nat ->
    readParameters fuel (pre ++ wireBuffer rs) (Buffer.byteLength pre) values
    = Some (collect rs values).
Proof.
  induction rs as [|r rs IH]; intros fuel pre values Hwf Hfuel.
  - simpl. rewrite app_nil_r.
    destruct fuel; simpl; now rewrite Z.ltb_irrefl.
  - inversion Hwf as [|? ? Hr Hrs]; subst.
    destruct fuel as [|fuel]; [simpl in Hfuel; lia|].
    change (wireBuffer (r :: rs)) with (wireBytes r ++ wireBuffer rs).
    rewrite readParameters_S.
    assert (Hlt : (Buffer.byteLength pre
                   <? Buffer.byteLength (pre ++ wireBytes r ++ wireBuffer rs))
                  = true).
    { apply Z.ltb_lt. unfold Buffer.byteLength. rewrite !length_app.
      pose proof (wireBytes_length r) as Hb. unfold Buffer.byteLength in Hb.
      lia. }
    rewrite Hlt, readParameter_wireBytes by exact Hr. simpl collect.
    destruct (inValues (wireType r) values); [reflexivity|].
    rewrite app_assoc. apply IH; [exact Hrs|simpl in Hfuel; lia].
Qed.

Lemma wireBuffer_length (rs : list WireParameter) :
  (length rs <= length (wireBuffer rs))%nat.
Proof.
  induction rs as [|r rs IH]; simpl; [lia|].
  rewrite length_app. pose proof (wireBytes_length r) as Hb.
  unfold Buffer.byteLength in Hb. lia.
Qed.

(** On a well-formed buffer, [fromExtensionBuffer] is [collect] followed
    by the loop over the collected values. *)
Lemma fromExtensionBuffer_wireBuffer (isServer : bool) (version : Version)
    (rs : list WireParameter) :
  Forall wellFormed rs ->
  fromExtensionBuffer isServer (wireBuffer rs) version
  = Some (values <- collect rs [] ;;
          Ok (applyValues values (new isServer 0 0 0 version))).
Proof.
  intros Hwf. unfold fromExtensionBuffer.
  pose proof (readParameters_wireBuffer rs (length (wireBuffer rs)) []
                [] Hwf (wireBuffer_length rs)) as H.
  change (Buffer.byteLength []) with 0 in H. cbn [app] in H.
  rewrite H. destruct (collect rs []); reflexivity.
Qed.

(** *** Duplicates *)

Lemma inValues_setValue (k t : Z) (v : Value) (vs : Values) :
  inValues k (setValue t v vs) = (k =? t) || inValues k vs.
Proof.
  induction vs as [|[k' w] rest IH]; simpl; [reflexivity|].
  destruct (t <? k'); [reflexivity|].
  destruct (Z.eqb_spec t k') as [->|_]; simpl.
  - destruct (k =? k'), (inValues k rest); reflexivity.
  - rewrite IH. destruct (k =? k'), (k =? t), (inValues k rest); reflexivity.
Qed.

Lemma collect_Ok (rs : list WireParameter) :
  forall values values',
    collect rs values = Ok values' ->
    NoDup (map wireType rs) /\
    Forall (fun r => inValues (wireType r) values = false) rs.
Proof.
  induction rs as [|r rs IH]; intros values values' H; simpl in *.
  - split; constructor.
  - destruct (inValues (wireType r) values) eqn:Hin; [discriminate|].
    apply IH in H. destruct H as [Hnd Hall].
    assert (Hall' : Forall (fun r' => wireType r' <> wireType r /\
                                     inValues (wireType r') values = false) rs).
    { eapply Forall_impl; [|exact Hall]. intros r' Hr'. cbv beta in Hr'.
      rewrite inValues_setValue in Hr'. apply orb_false_elim in Hr'.
      destruct Hr' as [Hne Hv]. split; [|exact Hv].
      now apply Z.eqb_neq in Hne. }
    split.
    + constructor; [|exact Hnd]. rewrite in_map_iff. intros (r' & Heq & Hr').
      rewrite Forall_forall in Hall'. destruct (Hall' r' Hr') as [Hne _].
      congruence.
    + constructor; [exact Hin|]. eapply Forall_impl; [|exact Hall'].
      now intros r' [_ Hv].
Qed.

Lemma collect_Throw (rs : list WireParameter) :
  forall values e,
    collect rs values = Throw e ->
    e = TRANSPORT_PARAMETER_ERROR /\
    ~ (NoDup (map wireType rs) /\
       Forall (fun r => inValues (wireType r) values = false) rs).
Proof.
  induction rs as [|r rs IH]; intros values e H; simpl in *; [discriminate|].
  destruct (inValues (wireType r) values) eqn:Hin.
  - injection H as <-. split; [reflexivity|]. intros [_ Hall].
    inversion Hall; congruence.
  - apply IH in H. destruct H as [-> Hnot]. split; [reflexivity|].
    intros [Hnd Hall]. apply Hnot.
    inversion Hnd as [|? ? Hnotin Hnd']; subst.
    inversion Hall as [|? ? _ Hall']; subst. split; [exact Hnd'|].
    rewrite Forall_forall in *. intros r' Hr'. rewrite inValues_setValue.
    rewrite (Hall' r' Hr'), orb_false_r. apply Z.eqb_neq. intros Heq.
    apply Hnotin. rewrite <- Heq. now apply in_map.
Qed.

(** The loop raises exactly when a type occurs twice. *)
Lemma collect_duplicates (rs : list WireParameter) :
  (collect rs [] = Throw TRANSPORT_PARAMETER_ERROR
   <-> ~ NoDup (map wireType rs)) /\
  (NoDup (map wireType rs) -> exists values, collect rs [] = Ok values).
Proof.
  assert (Hall : Forall (fun r => inValues (wireType r) [] = false) rs)
    by (apply Forall_forall; reflexivity).
  destruct (collect rs []) as [values|e] eqn:E.
  - apply collect_Ok in E. destruct E as [Hnd _]. repeat split.
    + discriminate.
    + intros Hn. contradiction.
    + eauto.
  - apply collect_Throw in E. destruct E as [-> Hnot]. repeat split.
    + intros _ Hnd. apply Hnot. now split.
    + intros Hnd. exfalso. apply Hnot. now split.
Qed.

(** *** Unknown types *)

Lemma Forall_setValue (P : Z * Value -> Prop) (t : Z) (v : Value)
    (vs : Values) :
  P (t, v) -> Forall P vs -> Forall P (setValue t v vs).
Proof.
  intros Ht. induction vs as [|[k w] rest IH]; intros Hall; simpl.
  - now constructor.
  - inversion Hall; subst.
    destruct (t <? k); [now constructor|].
    destruct (t =? k); constructor; auto.
Qed.

Lemma setValue_ascending (t : Z) (v : Value) (vs : Values) :
  ascending vs -> ascending (setValue t v vs).
Proof.
  induction vs as [|[k w] rest IH]; intros Hs; simpl.
  - split; constructor.
  - destruct Hs as [Hlt Hs].
    destruct (Z.ltb_spec t k) as [Htk|Htk].
    + split; [|now split]. constructor; [exact Htk|].
      eapply Forall_impl; [|exact Hlt]. intros kv Hkv. simpl in *. lia.
    + destruct (Z.eqb_spec t k) as [->|Hne].
      * now split.
      * split; [|now apply IH]. apply Forall_setValue; [simpl; lia|exact Hlt].
Qed.

Lemma collect_ascending (rs : list WireParameter) :
  forall values values',
    ascending values -> collect rs values = Ok values' -> ascending values'.
Proof.
  induction rs as [|r rs IH]; intros values values' Hs H; simpl in H.
  - now injection H as <-.
  - destruct (inValues (wireType r) values); [discriminate|].
    eapply IH; [|exact H]. now apply setValue_ascending.
Qed.

Lemma setValue_below (t : Z) (v : Value) (vs : Values) :
  Forall (fun kv => t < fst kv) vs -> setValue t v vs = (t, v) :: vs.
Proof.
  destruct vs as [|[k w] rest]; [reflexivity|]. intros H.
  inversion H; subst. simpl in *.
  destruct (Z.ltb_spec t k); [reflexivity|lia].
Qed.

Lemma Forall_knownValues (P : Z * Value -> Prop) (vs : Values) :
  Forall P vs -> Forall P (knownValues vs).
Proof.
  intros H. apply Forall_forall. intros kv Hkv.
  apply filter_In in Hkv. rewrite Forall_forall in H. now apply H.
Qed.

Lemma knownValues_setValue (t : Z) (v : Value) (vs : Values) :
  ascending vs ->
  knownValues (setValue t v vs)
  = if inTransportParameterType t then setValue t v (knownValues vs)
    else knownValues vs.
Proof.
  induction vs as [|[k w] rest IH]; intros Hs.
  - simpl. destruct (inTransportParameterType t); reflexivity.
  - destruct Hs as [Hlt Hs]. specialize (IH Hs).
    cbn [setValue].
    destruct (Z.ltb_spec t k) as [Htk|Htk].
    + assert (Hbelow : Forall (fun kv => t < fst kv) ((k, w) :: rest)).
      { constructor; [exact Htk|]. eapply Forall_impl; [|exact Hlt].
        intros kv Hkv. simpl in *. lia. }
      change (knownValues ((t, v) :: (k, w) :: rest))
        with (if inTransportParameterType t
              then (t, v) :: knownValues ((k, w) :: rest)
              else knownValues ((k, w) :: rest)).
      destruct (inTransportParameterType t); [|reflexivity].
      symmetry. apply setValue_below. now apply Forall_knownValues.
    + destruct (Z.eqb_spec t k) as [->|Hne].
      * unfold knownValues. cbn [filter fst].
        destruct (inTransportParameterType k); [|reflexivity].
        cbn [setValue]. now rewrite Z.ltb_irrefl, Z.eqb_refl.
      * unfold knownValues in *. cbn [filter fst]. rewrite IH.
        destruct (inTransportParameterType k),
          (inTransportParameterType t); try reflexivity.
        cbn [setValue].
        destruct (Z.ltb_spec t k); [lia|].
        destruct (Z.eqb_spec t k); [lia|reflexivity].
Qed.

Lemma inValues_knownValues (t : Z) (vs : Values) :
  inValues t vs = false -> inValues t (knownValues vs) = false.
Proof.
  induction vs as [|[k w] rest IH]; [reflexivity|].
  simpl. intros H. apply orb_false_elim in H. destruct H as [Hk Hrest].
  destruct (inTransportParameterType k); simpl; [rewrite Hk|]; auto.
Qed.

(** Dropping the records of unknown type from the buffer drops their
    entries from the map and nothing else. *)
Lemma collect_known (rs : list WireParameter) :
  forall values values',
    ascending values ->
    collect rs values = Ok values' ->
    collect (filter isKnown rs) (knownValues values) = Ok (knownValues values').
Proof.
  induction rs as [|r rs IH]; intros values values' Hs H; simpl in H.
  - injection H as <-. reflexivity.
  - destruct (inValues (wireType r) values) eqn:Hin; [discriminate|].
    apply IH in H; [|now apply setValue_ascending].
    rewrite knownValues_setValue in H by exact Hs.
    cbn [filter]. unfold isKnown at 1.
    destruct (inTransportParameterType (wireType r)); [|exact H].
    cbn [collect]. now rewrite inValues_knownValues.
Qed.

Lemma applyValues_known (vs : Values) :
  forall tp, applyValues (knownValues vs) tp = applyValues vs tp.
Proof.
  unfold applyValues, knownValues.
  induction vs as [|[k w] rest IH]; intros tp; [reflexivity|].
  cbn [filter fold_left fst snd].
  destruct (inTransportParameterType k) eqn:Hk; [|apply IH].
  cbn [fold_left fst snd]. rewrite Hk. apply IH.
Qed.

Lemma wellFormed_filter (f : WireParameter -> bool) (rs : list WireParameter) :
  Forall wellFormed rs -> Forall wellFormed (filter f rs).
Proof.
  intros H. apply Forall_forall. intros r Hr. apply filter_In in Hr.
  rewrite Forall_forall in H. now apply H.
Qed.

End TransportParamsFacts.

Module TransportParamsSpec.
Import TransportParams TransportParamsFacts.

(** C6: on a well-formed buffer, [fromExtensionBuffer] raises
    [TRANSPORT_PARAMETER_ERROR] if and only if some type occurs in two
    records, and returns transport parameters otherwise; the parameters it
    returns are those it returns for the buffer without the records whose
    type is not in [TransportParameterType]. *)
Theorem fromExtensionBuffer_duplicates_unknown (isServer : bool)
    (version : Version) (rs : list WireParameter) :
  Forall wellFormed rs ->
  (fromExtensionBuffer isServer (wireBuffer rs) version
   = Some (Throw TRANSPORT_PARAMETER_ERROR)
   <-> ~ NoDup (map wireType rs)) /\
  (NoDup (map wireType rs) ->
   exists tp,
     fromExtensionBuffer isServer (wireBuffer rs) version = Some (Ok tp)) /\
  (forall tp,
      fromExtensionBuffer isServer (wireBuffer rs) version = Some (Ok tp) ->
      fromExtensionBuffer isServer (wireBuffer (filter isKnown rs)) version
      = Some (Ok tp)).
Proof.
  intros Hwf.
  rewrite (fromExtensionBuffer_wireBuffer _ _ _ Hwf).
  rewrite (fromExtensionBuffer_wireBuffer _ _ _
             (wellFormed_filter isKnown rs Hwf)).
  destruct (collect_duplicates rs) as [Hiff Hok]. repeat split.
  - intros H. apply Hiff. destruct (collect rs []); [discriminate|].
    cbn [bind] in H. congruence.
  - intros Hnd. apply Hiff in Hnd. now rewrite Hnd.
  - intros Hnd. destruct (Hok Hnd) as [values ->]. cbn [bind]. eauto.
  - intros tp H. destruct (collect rs []) as [values|] eqn:E; [|discriminate].
    cbn [bind] in H. injection H as <-.
    apply collect_known in E; [|exact I]. cbn [knownValues filter] in E.
    rewrite E. cbn [bind]. now rewrite applyValues_known.
Qed.

Lemma fromExtensionBuffer_duplicates_unknown_witness :
  (fromExtensionBuffer true (wireBuffer sampleParameters) []
   = Some (Throw TRANSPORT_PARAMETER_ERROR)
   <-> ~ NoDup (map wireType sampleParameters)) /\
  (NoDup (map wireType sampleParameters) ->
   exists tp,
     fromExtensionBuffer true (wireBuffer sampleParameters) []
     = Some (Ok tp)) /\
  (forall tp,
      fromExtensionBuffer true (wireBuffer sampleParameters) []
      = Some (Ok tp) ->
      fromExtensionBuffer true
        (wireBuffer (filter isKnown sampleParameters)) []
      = Some (Ok tp)).
Proof.
  apply (fromExtensionBuffer_duplicates_unknown true [] sampleParameters).
  repeat (apply Forall_cons; [split; [split|]; vm_compute; congruence|]).
  apply Forall_nil.
Defined.

End TransportParamsSpec.

Module CongestionFacts.
Import Congestion.

Lemma setQueue_same (cc : State) : setQueue (packetsQueue cc) cc = cc.
Proof. destruct cc; reflexivity. Qed.

Lemma packetByteSize_nonneg (p : BasePacket) : 0 <= packetByteSize p.
Proof. apply BufferFacts.byteLength_nonneg. Qed.

(** Sending a packet leaves the window, the threshold and the end of
    recovery alone. *)
Lemma sendPackets_body_window (p : BasePacket) (cc : State) :
  congestionWindow (sendPackets_body p cc) = congestionWindow cc /\
  sshtresh (sendPackets_body p cc) = sshtresh cc /\
  endOfRecovery (sendPackets_body p cc) = endOfRecovery cc.
Proof.
  unfold sendPackets_body, onPacketSent, socketSend.
  destruct (getEncryptionContextByPacketType (packetType p)) as [l|].
  - destruct (getNext l (pnSpaces cc)) as [pn spaces]. simpl.
    destruct (isAckOnly p); simpl; auto.
  - destruct (isAckOnly p); simpl; auto.
Qed.

Lemma sendPackets_while_window (queue : list BasePacket) :
  forall cc,
    congestionWindow (sendPackets_while queue cc) = congestionWindow cc /\
    sshtresh (sendPackets_while queue cc) = sshtresh cc /\
    endOfRecovery (sendPackets_while queue cc) = endOfRecovery cc.
Proof.
  induction queue as [|p queue IH]; intros cc; simpl; [auto|].
  destruct (bytesInFlight cc <? congestionWindow cc); [|auto].
  destruct (IH (sendPackets_body p (setQueue queue cc))) as (-> & -> & ->).
  apply (sendPackets_body_window p (setQueue queue cc)).
Qed.

Lemma sendPackets_window (cc : State) :
  congestionWindow (sendPackets cc) = congestionWindow cc /\
  sshtresh (sendPackets cc) = sshtresh cc /\
  endOfRecovery (sendPackets cc) = endOfRecovery cc.
Proof. apply sendPackets_while_window. Qed.

(** The largest lost packet number [forEachLost] ends with. *)
Lemma forEachLost_largest (lostPackets : list BasePacket) :
  forall bif largest bif' largest',
    forEachLost lostPackets bif largest = Ok (bif', largest') ->
    largest' =
      fold_left
        (fun largest p =>
           if isAckOnly p then largest
           else match packetNumber p with
                | Some pn => if pn >? largest then pn else largest
                | None => largest
                end)
        lostPackets largest.
Proof.
  induction lostPackets as [|p rest IH]; intros bif largest bif' largest' H;
    simpl in *.
  - now injection H as _ <-.
  - destruct (isAckOnly p); [now apply IH in H|].
    unfold getPacketNumberValue in H.
    destruct (packetNumber p) as [pn|]; [|discriminate]. cbn [bind] in H.
    destruct (pn >? largest); now apply IH in H.
Qed.

Lemma Bignum_multiply_half (b : Z) :
  Bignum_multiply b LOSS_REDUCTION_FACTOR = b / 2.
Proof.
  unfold Bignum_multiply, LOSS_REDUCTION_FACTOR, Qfloor, Qmult, inject_Z.
  simpl. now rewrite Z.mul_1_r.
Qed.

(** The window never falls below the minimum window. *)
Lemma reachable_minimum_window (cc : State) :
  reachable cc -> MINIMUM_WINDOW <= congestionWindow cc.
Proof.
  induction 1 as [|packets cc _ IH|p cc cc' _ IH H|lost cc cc' _ IH H|cc _ IH].
  - vm_compute. discriminate.
  - unfold queuePackets.
    destruct (sendPackets_window (setQueue (packetsQueue cc ++ packets) cc))
      as (-> & _). exact IH.
  - unfold onPacketAcked in H. destruct (isAckOnly p); [congruence|].
    bind_inv H. cbn [endOfRecovery inRecovery] in H.
    match type of H with
    | (if ?c then _ else _) = _ => destruct c
    end.
    + injection H as <-. exact IH.
    + pose proof (packetByteSize_nonneg p) as Hp.
      set (d := Bignum_divide _ _) in H.
      assert (Hd : 0 <= d).
      { subst d. unfold Bignum_divide. cbn [congestionWindow].
        apply Z.div_pos.
        - unfold DEFAULT_MSS. lia.
        - unfold MINIMUM_WINDOW, DEFAULT_MSS in IH. lia. }
      clearbody d. injection H as <-.
      match goal with
      | |- _ <= congestionWindow (sendPackets ?s) =>
          destruct (sendPackets_window s) as (-> & _)
      end.
      cbn [congestionWindow].
      match goal with
      | |- _ <= (if ?c then _ else _) => destruct c
      end; lia.
  - unfold onPacketsLost in H. bind_inv_pair H. injection H as <-.
    match goal with
    | |- _ <= congestionWindow (sendPackets ?s) =>
        destruct (sendPackets_window s) as (-> & _)
    end.
    destruct (negb _); cbn [congestionWindow]; [|exact IH].
    unfold Bignum_max. lia.
  - cbn. lia.
Qed.

End CongestionFacts.

Module CongestionSpec.
Import Congestion CongestionFacts.

(** *** The send gate *)

(** The gate as the code has it: while
    [bytesInFlight >= congestionWindow], [sendPackets] sends nothing at
    all, whether the queued packets are ACK-only or not: the queue, the
    socket and the rest of the state stay as they are.  A packet that is
    sent adds its size to [bytesInFlight] unless it is ACK-only, in which
    case [bytesInFlight] is unchanged. *)
Lemma sendPackets_gate (cc : State) (packet : BasePacket) :
  (congestionWindow cc <= bytesInFlight cc -> sendPackets cc = cc) /\
  (isAckOnly packet = true ->
   bytesInFlight (sendPackets_body packet cc) = bytesInFlight cc) /\
  (isAckOnly packet = false ->
   bytesInFlight (sendPackets_body packet cc)
   = bytesInFlight cc + packetByteSize packet).
Proof.
  repeat split.
  - intros Hgate. unfold sendPackets.
    destruct (packetsQueue cc) as [|p queue] eqn:Eq; simpl.
    + rewrite <- Eq. apply setQueue_same.
    + destruct (Z.ltb_spec (bytesInFlight cc) (congestionWindow cc)); [lia|].
      rewrite <- Eq. apply setQueue_same.
  - intros Hack. unfold sendPackets_body, onPacketSent, socketSend.
    destruct (getEncryptionContextByPacketType (packetType packet)) as [l|].
    + destruct (getNext l (pnSpaces cc)). simpl. now rewrite Hack.
    + now rewrite Hack.
  - intros Hack. unfold sendPackets_body, onPacketSent, socketSend, packetByteSize.
    destruct (getEncryptionContextByPacketType (packetType packet)) as [l|].
    + destruct (getNext l (pnSpaces cc)). simpl. now rewrite Hack.
    + now rewrite Hack.
Qed.

(** C2 (failing input): thirteen data packets of 1200 bytes have been
    queued and sent, so that 15600 bytes are in flight against a window
    of 14600 and the queue is empty.  An ACK-only packet queued then is
    not sent: it stays in the queue and the socket gets nothing, now and
    on every later call of [sendPackets] in that state, although the
    congestion feedback it carries is what ACK-only packets are kept out
    of the bytes in flight for.  The same packet queued in the initial
    state is sent at once and leaves the bytes in flight as they were. *)
Theorem sendPackets_ackOnly_failing_input :
  reachable gatedState /\
  packetsQueue gatedState = [] /\
  bytesInFlight gatedState = 15600 /\
  congestionWindow gatedState = 14600 /\
  isAckOnly ackPacket = true /\
  socket (queuePackets [ackPacket] gatedState) = socket gatedState /\
  packetsQueue (queuePackets [ackPacket] gatedState) = [ackPacket] /\
  sendPackets (queuePackets [ackPacket] gatedState)
  = queuePackets [ackPacket] gatedState /\
  map (fun p => (isAckOnly p, toBuffer p))
    (socket (queuePackets [ackPacket] init))
  = [(true, toBuffer ackPacket)] /\
  packetsQueue (queuePackets [ackPacket] init) = [] /\
  bytesInFlight (queuePackets [ackPacket] init) = bytesInFlight init.
Proof.
  split; [apply reach_queuePackets, reach_init|].
  repeat (split; [vm_compute; reflexivity|]).
  vm_compute. reflexivity.
Qed.

(** *** Loss events *)

(** C7 (as the code has it): let [largestLost] be the largest packet
    number among the lost packets that are not ACK-only.  If it is greater
    than [endOfRecovery], the window becomes
    [max(congestionWindow * 0.5, MINIMUM_WINDOW)] (the product kept as an
    integer), the threshold becomes the new window and [endOfRecovery]
    becomes [largestLost].  Otherwise the three are unchanged.  In every
    state the controller can reach, a loss event never increases the
    window. *)
Theorem onPacketsLost_window (lostPackets : list BasePacket) (cc cc' : State) :
  onPacketsLost lostPackets cc = Ok cc' ->
  (endOfRecovery cc < largestLostOf lostPackets ->
   congestionWindow cc'
   = Bignum_max (Bignum_multiply (congestionWindow cc) LOSS_REDUCTION_FACTOR)
       MINIMUM_WINDOW /\
   2 * congestionWindow cc'
   <= Z.max (congestionWindow cc) (2 * MINIMUM_WINDOW) /\
   sshtresh cc' = Some (congestionWindow cc') /\
   endOfRecovery cc' = largestLostOf lostPackets) /\
  (largestLostOf lostPackets <= endOfRecovery cc ->
   congestionWindow cc' = congestionWindow cc /\
   sshtresh cc' = sshtresh cc /\
   endOfRecovery cc' = endOfRecovery cc) /\
  (reachable cc -> congestionWindow cc' <= congestionWindow cc).
Proof.
  intros H. unfold onPacketsLost in H. bind_inv_pair H.
  apply forEachLost_largest in E. fold (largestLostOf lostPackets) in E.
  subst z0. set (largestLost := largestLostOf lostPackets) in *.
  clearbody largestLost.
  pose proof (Bignum_multiply_half (congestionWindow cc)) as Hhalf.
  set (half := Bignum_multiply _ _) in H.
  assert (Hh : half = congestionWindow cc / 2) by (subst half; exact Hhalf).
  clearbody half. clear Hhalf. injection H as <-.
  match goal with
  | |- context [sendPackets ?s] =>
      destruct (sendPackets_window s) as (Hw & Hs & He)
  end.
  rewrite Hw, Hs, He. clear Hw Hs He.
  unfold inRecovery. cbn [endOfRecovery].
  unfold Bignum_max, MINIMUM_WINDOW, DEFAULT_MSS.
  rewrite Bignum_multiply_half. subst half.
  pose proof (Z.mul_div_le (congestionWindow cc) 2 ltac:(lia)) as Hdiv.
  destruct (Z.leb_spec largestLost (endOfRecovery cc));
    cbn [negb congestionWindow sshtresh endOfRecovery].
  - split; [intros; lia|].
    split; [intros; repeat split; reflexivity | intros; lia].
  - split; [intros _; split; [reflexivity|];
            split; [lia | split; reflexivity]|].
    split; [intros; lia|].
    intros Hr. apply reachable_minimum_window in Hr.
    unfold MINIMUM_WINDOW, DEFAULT_MSS in Hr. lia.
Qed.

Lemma onPacketsLost_window_witness :
  congestionWindow afterFirstLoss
  = Bignum_max (Bignum_multiply (congestionWindow sixSent) LOSS_REDUCTION_FACTOR)
      MINIMUM_WINDOW /\
  endOfRecovery afterFirstLoss = 5 /\
  congestionWindow afterFirstLoss <= congestionWindow sixSent.
Proof.
  destruct (onPacketsLost_window lostFifth sixSent afterFirstLoss)
    as (Hnew & _ & Hle); [vm_compute; reflexivity|].
  destruct Hnew as (Hw & _ & _ & He); [vm_compute; reflexivity|].
  split; [exact Hw|]. split; [exact He|].
  apply Hle. apply reach_queuePackets, reach_init.
Defined.

(** C7 (counterexample): after the loss of packet 5 has halved the window
    to 7300, the loss of packet 3 is a loss event inside the recovery
    period.  It leaves the window at 7300, above
    [max(7300 * 0.5, MINIMUM_WINDOW) = 3650].  And the loss of the ACK-only
    packet 6, whose number is greater than [endOfRecovery = 5], changes
    neither the window nor [endOfRecovery]. *)
Lemma loss_in_recovery_counterexample :
  reachable afterFirstLoss /\
  congestionWindow afterFirstLoss = 7300 /\
  Bignum_max (Bignum_multiply (congestionWindow afterFirstLoss)
                LOSS_REDUCTION_FACTOR) MINIMUM_WINDOW = 3650 /\
  (exists cc',
      onPacketsLost lostThird afterFirstLoss = Ok cc' /\
      congestionWindow cc' = 7300 /\
      ~ (congestionWindow cc' <= 3650)) /\
  reachable ackSent /\
  endOfRecovery ackSent = 5 /\
  map packetNumber lostAck = [Some 6] /\
  (exists cc',
      onPacketsLost lostAck ackSent = Ok cc' /\
      congestionWindow cc' = 7300 /\
      endOfRecovery cc' = 5).
Proof.
  assert (Hr : reachable afterFirstLoss).
  { apply (reach_onPacketsLost lostFifth sixSent).
    - apply reach_queuePackets, reach_init.
    - vm_compute. reflexivity. }
  split; [exact Hr|].
  split; [vm_compute; reflexivity|].
  split; [vm_compute; reflexivity|].
  split.
  { eexists. split; [vm_compute; reflexivity|].
    split; [reflexivity|]. vm_compute. intros H. now apply H. }
  split; [now apply reach_queuePackets|].
  split; [vm_compute; reflexivity|].
  split; [vm_compute; reflexivity|].
  eexists. split; [vm_compute; reflexivity|]. split; reflexivity.
Qed.

End CongestionSpec.

Module ServerSpec.
Import Congestion Server.

(** C5 (as the code has it): when handling a packet of a known connection
    raises [VERSION_NEGOTIATION_ERROR], the server resets the connection
    state, sets the highest received number of the Initial space to
    packet number 0 (it is present, not absent), and sends a Version
    Negotiation packet; [handleError] is not called. *)
Theorem version_negotiation_handling
    (Connection Packet : Type)
    (resetConnectionState : Connection -> Connection)
    (setHighestReceivedNumber :
       EncryptionLevel -> PacketNumber -> Connection -> Connection)
    (getHighestReceivedNumber :
       EncryptionLevel -> Connection -> option PacketNumber)
    (createVersionNegotiationPacket : Connection -> Packet)
    (sendPacket : Packet -> Connection -> Connection)
    (handleError : Connection -> Caught -> Connection)
    (connection : Connection) :
  (forall pn c,
      getHighestReceivedNumber INITIAL (setHighestReceivedNumber INITIAL pn c)
      = Some pn) ->
  (forall p c,
      getHighestReceivedNumber INITIAL (sendPacket p c)
      = getHighestReceivedNumber INITIAL c) ->
  let afterReset :=
    setHighestReceivedNumber INITIAL (mkPacketNumber 0)
      (resetConnectionState connection) in
  let after :=
    sendPacket (createVersionNegotiationPacket afterReset) afterReset in
  onMessage_catch Connection Packet resetConnectionState
    setHighestReceivedNumber createVersionNegotiationPacket sendPacket
    handleError (Some connection) (QuicError VERSION_NEGOTIATION_ERROR)
  = Some after /\
  onMessage_packet Connection Packet resetConnectionState
    setHighestReceivedNumber createVersionNegotiationPacket sendPacket
    handleError (Ok connection)
    (fun c => (c, Some (QuicError VERSION_NEGOTIATION_ERROR)))
  = Some after /\
  getHighestReceivedNumber INITIAL after = Some (mkPacketNumber 0).
Proof.
  intros Hset Hsend afterReset after. repeat split.
  unfold after. rewrite Hsend. apply Hset.
Qed.

Lemma version_negotiation_handling_witness :
  onMessage_catch SimpleConnection PacketType simpleReset simpleSet
    simpleVersionNegotiationPacket simpleSend simpleHandleError
    (Some freshConnection) (QuicError VERSION_NEGOTIATION_ERROR)
  = Some (mkSimpleConnection (Some (mkPacketNumber 0)) None
            [VersionNegotiation] None).
Proof.
  destruct (version_negotiation_handling SimpleConnection PacketType
              simpleReset simpleSet simpleGet simpleVersionNegotiationPacket
              simpleSend simpleHandleError freshConnection)
    as (H & _ & _).
  - intros pn c. reflexivity.
  - intros p c. reflexivity.
  - exact H.
Defined.

(** C5 (counterexample): on a connection with no highest received number
    yet, handling [VERSION_NEGOTIATION_ERROR] leaves the highest received
    number of the Initial space at packet number 0, not absent; a Version
    Negotiation packet has been sent and no error was handed to
    [handleError]. *)
Lemma version_negotiation_counterexample :
  exists after,
    onMessage_catch SimpleConnection PacketType simpleReset simpleSet
      simpleVersionNegotiationPacket simpleSend simpleHandleError
      (Some freshConnection) (QuicError VERSION_NEGOTIATION_ERROR)
    = Some after /\
    simpleGet INITIAL after = Some (mkPacketNumber 0) /\
    simpleGet INITIAL after <> None /\
    sentPackets after = [VersionNegotiation] /\
    handledError after = None.
Proof.
  eexists. split; [reflexivity|]. repeat split. discriminate.
Qed.

End ServerSpec.

Module CongestionLedgerFacts.
Import Congestion CongestionFacts CongestionLedger.

Lemma sendPackets_body_effect (p : BasePacket) (cc : State) :
  exists p',
    unnumbered p' = unnumbered p /\
    socket (sendPackets_body p cc) = socket cc ++ [p'] /\
    packetsQueue (sendPackets_body p cc) = packetsQueue cc /\
    bytesInFlight (sendPackets_body p cc)
    = bytesInFlight cc + inFlightBytes [p].
Proof.
  unfold sendPackets_body, onPacketSent, socketSend, inFlightBytes,
    packetByteSize, unnumbered.
  destruct (getEncryptionContextByPacketType (packetType p)) as [l|].
  - destruct (getNext l (pnSpaces cc)) as [pn spaces].
    exists (setPacketNumber pn p). cbn.
    destruct (isAckOnly p); cbn; repeat split; lia.
  - exists p. cbn. destruct (isAckOnly p); cbn; repeat split; lia.
Qed.

Lemma inFlightBytes_app (l1 l2 : list BasePacket) :
  inFlightBytes (l1 ++ l2) = inFlightBytes l1 + inFlightBytes l2.
Proof.
  unfold inFlightBytes. induction l1 as [|p l1 IH]; simpl; [reflexivity|].
  rewrite IH. lia.
Qed.

Lemma inFlightBytes_nonneg (l : list BasePacket) : 0 <= inFlightBytes l.
Proof.
  unfold inFlightBytes. induction l as [|p l IH]; simpl; [lia|].
  pose proof (packetByteSize_nonneg p). destruct (isAckOnly p); lia.
Qed.

(** What the [while] of [sendPackets] does with the queue it is given. *)
Lemma sendPackets_while_effect (queue : list BasePacket) :
  forall cc,
  exists sent sent' rest,
    queue = sent ++ rest /\
    map unnumbered sent' = map unnumbered sent /\
    socket (sendPackets_while queue cc) = socket cc ++ sent' /\
    packetsQueue (sendPackets_while queue cc) = rest /\
    bytesInFlight (sendPackets_while queue cc)
    = bytesInFlight cc + inFlightBytes sent /\
    (rest = [] \/
     congestionWindow cc <= bytesInFlight (sendPackets_while queue cc)).
Proof.
  induction queue as [|p queue IH]; intros cc.
  - exists [], [], []. cbn. rewrite app_nil_r. repeat split; auto; lia.
  - cbn [sendPackets_while].
    destruct (Z.ltb_spec (bytesInFlight cc) (congestionWindow cc)) as [Hlt|Hge].
    + destruct (sendPackets_body_effect p (setQueue queue cc))
        as (p' & Hp' & Hsock & _ & Hbif).
      destruct (IH (sendPackets_body p (setQueue queue cc)))
        as (sent & sent' & rest & Hq & Hmap & Hs & Hr & Hb & Hgate).
      destruct (sendPackets_body_window p (setQueue queue cc)) as (Hw & _).
      exists (p :: sent), (p' :: sent'), rest.
      rewrite Hs, Hr, Hb, Hsock, Hbif. cbn [setQueue socket bytesInFlight].
      repeat split.
      * now rewrite Hq.
      * cbn [map]. now rewrite Hp', Hmap.
      * now rewrite <- app_assoc.
      * change (p :: sent) with ([p] ++ sent). rewrite inFlightBytes_app. lia.
      * destruct Hgate as [Hgate|Hgate]; [now left|right].
        rewrite Hb, Hbif, Hw in Hgate.
        cbn [setQueue bytesInFlight congestionWindow] in Hgate. lia.
    + exists [], [], (p :: queue). cbn. rewrite app_nil_r.
      repeat split; auto; try lia.
Qed.

Lemma sendPackets_while_bound (M : Z) (queue : list BasePacket) :
  forall cc,
    (forall p, In p queue -> packetByteSize p <= M) ->
    bytesInFlight (sendPackets_while queue cc)
    <= Z.max (bytesInFlight cc) (congestionWindow cc - 1 + M).
Proof.
  induction queue as [|p queue IH]; intros cc HM; cbn [sendPackets_while].
  - cbn. lia.
  - destruct (Z.ltb_spec (bytesInFlight cc) (congestionWindow cc)) as [Hlt|Hge].
    + destruct (sendPackets_body_effect p (setQueue queue cc))
        as (_ & _ & _ & _ & Hbif).
      destruct (sendPackets_body_window p (setQueue queue cc)) as (Hw & _).
      specialize (IH (sendPackets_body p (setQueue queue cc))
                    (fun q Hq => HM q (or_intror Hq))).
      rewrite Hbif, Hw in IH.
      cbn [setQueue bytesInFlight congestionWindow] in IH.
      pose proof (HM p (or_introl eq_refl)) as Hp.
      unfold inFlightBytes in IH. cbn [fold_right] in IH.
      pose proof (packetByteSize_nonneg p).
      destruct (isAckOnly p); lia.
    + cbn. lia.
Qed.

Lemma onPacketAcked_window_unchanged (p : BasePacket) (cc cc' : State) :
  onPacketAcked p cc = Ok cc' ->
  sshtresh cc' = sshtresh cc /\ endOfRecovery cc' = endOfRecovery cc.
Proof.
  unfold onPacketAcked. destruct (isAckOnly p); [now intros [= <-]|].
  intros H. bind_inv H.
  match type of H with
  | (if ?c then _ else _) = _ => destruct c
  end.
  - now injection H as <-.
  - set (w := if belowThreshold _ then _ else _) in H. clearbody w.
    injection H as <-.
    match goal with
    | |- context [sendPackets ?s] =>
        destruct (sendPackets_window s) as (_ & -> & ->)
    end.
    auto.
Qed.

Lemma sendPackets_ledger_aux (cc : State) :
  exists sent',
    socket (sendPackets cc) = socket cc ++ sent' /\
    bytesInFlight (sendPackets cc) = bytesInFlight cc + inFlightBytes sent'.
Proof.
  destruct (sendPackets_while_effect (packetsQueue cc) cc)
    as (sent & sent' & rest & _ & Hmap & Hs & _ & Hb & _).
  exists sent'. split; [exact Hs|]. unfold sendPackets. rewrite Hb.
  f_equal. clear -Hmap. revert sent Hmap.
  induction sent' as [|p' sent' IH]; intros [|p sent] Hmap;
    try discriminate; [reflexivity|].
  cbn [map] in Hmap. unfold unnumbered at 1 3 in Hmap.
  injection Hmap as _ Hack Hbuf Hrest.
  unfold inFlightBytes in *. cbn [fold_right]. rewrite (IH _ Hrest).
  unfold packetByteSize. now rewrite Hack, Hbuf.
Qed.

(** The bytes in flight and the largest number [forEachLost] ends with. *)
Lemma forEachLost_bytes (lost : list BasePacket) :
  forall bif largest bif' largest',
    forEachLost lost bif largest = Ok (bif', largest') ->
    bif' = bif - inFlightBytes lost /\ largest <= largest'.
Proof.
  induction lost as [|p lost IH]; intros bif largest bif' largest' H;
    cbn [forEachLost] in H.
  - injection H as <- <-. cbn. lia.
  - unfold inFlightBytes. cbn [fold_right]. fold (inFlightBytes lost).
    destruct (isAckOnly p).
    + apply IH in H. lia.
    + bind_inv H. destruct (Z.gtb_spec a largest); apply IH in H; lia.
Qed.

Lemma forEachLost_Throw (lost : list BasePacket) :
  forall bif largest e,
    forEachLost lost bif largest = Throw e ->
    e = TypeError /\
    exists p, In p lost /\ isAckOnly p = false /\ packetNumber p = None.
Proof.
  induction lost as [|p lost IH]; intros bif largest e H;
    cbn [forEachLost] in H; [discriminate|].
  destruct (isAckOnly p) eqn:Hack.
  - apply IH in H. destruct H as (-> & q & Hq & Hq'). split; [reflexivity|].
    exists q. split; [now right|exact Hq'].
  - unfold getPacketNumberValue in H.
    destruct (packetNumber p) as [pn|] eqn:Hpn; cbn [bind] in H.
    + assert (H' : exists b l, forEachLost lost b l = Throw e)
        by (destruct (pn >? largest); eauto).
      destruct H' as (b & l & H'). apply IH in H'.
      destruct H' as (-> & q & Hq & Hq'). split; [reflexivity|].
      exists q. split; [now right|exact Hq'].
    + injection H as <-. split; [reflexivity|]. exists p.
      repeat split; auto. now left.
Qed.

Lemma forEachLost_Ok_inv (lost : list BasePacket) :
  forall bif largest r p,
    forEachLost lost bif largest = Ok r ->
    In p lost -> isAckOnly p = false -> packetNumber p <> None.
Proof.
  induction lost as [|q lost IH]; intros bif largest r p E Hin Hack Hpn;
    [contradiction|].
  cbn [forEachLost] in E. destruct Hin as [->|Hin].
  - rewrite Hack in E. unfold getPacketNumberValue in E.
    rewrite Hpn in E. discriminate.
  - destruct (isAckOnly q); [exact (IH _ _ _ _ E Hin Hack Hpn)|].
    bind_inv E. destruct (_ >? _); exact (IH _ _ _ _ E Hin Hack Hpn).
Qed.

End CongestionLedgerFacts.

Module CongestionMore.
Import Congestion CongestionFacts CongestionLedger CongestionLedgerFacts.

(** X1: [sendPackets] sends a prefix of the queue, in queue order, and
    keeps the rest queued in order: nothing is dropped, duplicated or
    reordered.  When it returns, the queue is empty or the bytes in flight
    have reached the window. *)
Theorem sendPackets_fifo (cc : State) :
  exists sent sent' rest,
    packetsQueue cc = sent ++ rest /\
    map unnumbered sent' = map unnumbered sent /\
    socket (sendPackets cc) = socket cc ++ sent' /\
    packetsQueue (sendPackets cc) = rest /\
    (rest = [] \/ congestionWindow cc <= bytesInFlight (sendPackets cc)).
Proof.
  destruct (sendPackets_while_effect (packetsQueue cc) cc)
    as (sent & sent' & rest & H1 & H2 & H3 & H4 & _ & H6).
  exists sent, sent', rest. auto.
Qed.

(** X2: the bytes in flight after [sendPackets] are those before plus
    the sizes of the packets it handed to the socket that are not
    ACK-only. *)
Theorem sendPackets_ledger (cc : State) :
  exists sent',
    socket (sendPackets cc) = socket cc ++ sent' /\
    bytesInFlight (sendPackets cc) = bytesInFlight cc + inFlightBytes sent'.
Proof. apply sendPackets_ledger_aux. Qed.

(** X3: if no queued packet is larger than [M] bytes, [sendPackets] never
    takes the bytes in flight further than [M - 1] bytes beyond the
    window (or leaves them where they were, if they were already
    higher). *)
Theorem sendPackets_overshoot (cc : State) (M : Z) :
  (forall p, In p (packetsQueue cc) -> packetByteSize p <= M) ->
  bytesInFlight (sendPackets cc)
  <= Z.max (bytesInFlight cc) (congestionWindow cc - 1 + M).
Proof. apply sendPackets_while_bound. Qed.

Lemma sendPackets_overshoot_witness :
  packetsQueue (sendPackets (setQueue (repeat dataPacket 13) init)) = [] /\
  congestionWindow (setQueue (repeat dataPacket 13) init)
  < bytesInFlight (sendPackets (setQueue (repeat dataPacket 13) init)) /\
  bytesInFlight (sendPackets (setQueue (repeat dataPacket 13) init))
  <= Z.max (bytesInFlight (setQueue (repeat dataPacket 13) init))
       (congestionWindow (setQueue (repeat dataPacket 13) init) - 1 + 1200).
Proof.
  split; [vm_compute; reflexivity|].
  split; [vm_compute; reflexivity|].
  apply (sendPackets_overshoot (setQueue (repeat dataPacket 13) init) 1200).
  intros p Hp.
  change (packetsQueue (setQueue (repeat dataPacket 13) init))
    with (repeat dataPacket 13) in Hp.
  apply repeat_spec in Hp. subst p. vm_compute. discriminate.
Defined.

(** X4: in a state the controller can reach, acknowledging a packet never
    shrinks the window and never grows it by more than the size of the
    packet; the window, the threshold and the end of recovery are all
    unchanged when the packet is ACK-only or was sent before the end of
    recovery. *)
Theorem onPacketAcked_growth (p : BasePacket) (cc cc' : State) :
  reachable cc ->
  onPacketAcked p cc = Ok cc' ->
  congestionWindow cc <= congestionWindow cc'
  /\ congestionWindow cc' <= congestionWindow cc + packetByteSize p
  /\ sshtresh cc' = sshtresh cc
  /\ endOfRecovery cc' = endOfRecovery cc
  /\ (isAckOnly p = true -> cc' = cc)
  /\ (forall pn, packetNumber p = Some pn -> pn <= endOfRecovery cc ->
                congestionWindow cc' = congestionWindow cc).
Proof.
  intros Hr H. apply reachable_minimum_window in Hr.
  unfold MINIMUM_WINDOW, DEFAULT_MSS in Hr.
  pose proof (packetByteSize_nonneg p) as Hp.
  unfold onPacketAcked in H. destruct (isAckOnly p) eqn:Hack.
  { injection H as <-. repeat split; auto; try lia. }
  unfold getPacketNumberValue in H.
  destruct (packetNumber p) as [pn|] eqn:Hpn; [|discriminate].
  cbn [bind] in H. unfold inRecovery in H. cbn [endOfRecovery] in H.
  destruct (Z.leb_spec pn (endOfRecovery cc)) as [Hin|Hout].
  { injection H as <-. cbn. repeat split; auto; try lia; discriminate. }
  set (d := Bignum_divide _ _) in H.
  assert (Hd : 0 <= d <= packetByteSize p).
  { subst d. unfold Bignum_divide, DEFAULT_MSS. cbn [congestionWindow].
    split.
    - apply Z.div_pos; lia.
    - apply Z.div_le_upper_bound; [lia|]. nia. }
  clearbody d. injection H as <-.
  match goal with
  | |- context [sendPackets ?s] =>
      destruct (sendPackets_window s) as (Hw & Hs & He)
  end.
  rewrite Hw, Hs, He. cbn [congestionWindow sshtresh endOfRecovery].
  repeat split; try discriminate.
  - destruct (belowThreshold _); lia.
  - destruct (belowThreshold _); lia.
  - intros pn' [= <-] Hle. lia.
Qed.

Lemma onPacketAcked_growth_witness :
  exists cc',
    onPacketAcked (nth 1 (socket sixSent) dataPacket) sixSent = Ok cc' /\
    packetNumber (nth 1 (socket sixSent) dataPacket) = Some 1 /\
    endOfRecovery sixSent = 0 /\
    congestionWindow sixSent < congestionWindow cc' /\
    congestionWindow sixSent <= congestionWindow cc' /\
    congestionWindow cc'
    <= congestionWindow sixSent
       + packetByteSize (nth 1 (socket sixSent) dataPacket).
Proof.
  eexists. split; [vm_compute; reflexivity|].
  split; [vm_compute; reflexivity|].
  split; [vm_compute; reflexivity|].
  split; [vm_compute; reflexivity|].
  match goal with
  | |- _ <= congestionWindow ?s /\ _ =>
      destruct (onPacketAcked_growth (nth 1 (socket sixSent) dataPacket)
                  sixSent s) as (H1 & H2 & _)
  end.
  - apply reach_queuePackets, reach_init.
  - vm_compute. reflexivity.
  - split; [exact H1|exact H2].
Defined.

(** X5: in every state the controller can reach, the end of recovery is
    not negative, the threshold is infinite exactly as long as no
    recovery epoch has started ([endOfRecovery = 0]), and a finite
    threshold is at least the minimum window. *)
Theorem reachable_threshold (cc : State) :
  reachable cc ->
  0 <= endOfRecovery cc /\
  (sshtresh cc = None <-> endOfRecovery cc = 0) /\
  (forall s, sshtresh cc = Some s -> MINIMUM_WINDOW <= s).
Proof.
  induction 1 as [|packets cc _ IH|p cc cc' Hr IH H|lost cc cc' _ IH H|cc _ IH].
  - cbn. repeat split; auto; try lia; discriminate.
  - unfold queuePackets.
    destruct (sendPackets_window (setQueue (packetsQueue cc ++ packets) cc))
      as (_ & -> & ->). exact IH.
  - destruct (onPacketAcked_window_unchanged p cc cc' H) as (-> & ->).
    exact IH.
  - destruct IH as (IH0 & IHiff & IHmin).
    unfold onPacketsLost in H. bind_inv_pair H.
    apply forEachLost_bytes in E. destruct E as [_ Hl].
    injection H as <-.
    match goal with
    | |- context [sendPackets ?s] =>
        destruct (sendPackets_window s) as (_ & Hs & He)
    end.
    rewrite Hs, He. unfold inRecovery. cbn [endOfRecovery].
    destruct (Z.leb_spec z0 (endOfRecovery cc));
      cbn [negb sshtresh endOfRecovery].
    + repeat split; auto; apply IHiff.
    + repeat split; try lia; try discriminate.
      intros s [= <-]. unfold Bignum_max. lia.
  - exact IH.
Qed.

Lemma reachable_threshold_witness :
  0 <= endOfRecovery afterFirstLoss /\
  (sshtresh afterFirstLoss = None <-> endOfRecovery afterFirstLoss = 0) /\
  (forall s, sshtresh afterFirstLoss = Some s -> MINIMUM_WINDOW <= s).
Proof.
  apply (reachable_threshold afterFirstLoss).
  apply (reach_onPacketsLost lostFifth sixSent).
  - apply reach_queuePackets, reach_init.
  - vm_compute. reflexivity.
Defined.

(** X6: a loss event never lowers the end of recovery, and it takes the
    sizes of the lost packets that are not ACK-only off the bytes in
    flight before it sends what the window then allows. *)
Theorem onPacketsLost_ledger (lost : list BasePacket) (cc cc' : State) :
  onPacketsLost lost cc = Ok cc' ->
  endOfRecovery cc <= endOfRecovery cc' /\
  exists sent',
    socket cc' = socket cc ++ sent' /\
    bytesInFlight cc'
    = bytesInFlight cc - inFlightBytes lost + inFlightBytes sent'.
Proof.
  intros H. unfold onPacketsLost in H. bind_inv_pair H.
  apply forEachLost_bytes in E. destruct E as [-> Hl].
  injection H as <-.
  match goal with
  | |- context [sendPackets ?s] =>
      destruct (sendPackets_window s) as (_ & _ & He);
      destruct (sendPackets_ledger_aux s) as (sent' & Hs & Hb)
  end.
  rewrite He. split.
  - unfold inRecovery. cbn [endOfRecovery].
    destruct (Z.leb_spec z0 (endOfRecovery cc)); cbn [negb endOfRecovery]; lia.
  - exists sent'. rewrite Hs, Hb.
    destruct (negb _); cbn [socket bytesInFlight]; auto.
Qed.

Lemma onPacketsLost_ledger_witness :
  endOfRecovery sixSent <= endOfRecovery afterFirstLoss /\
  exists sent',
    socket afterFirstLoss = socket sixSent ++ sent' /\
    bytesInFlight afterFirstLoss
    = bytesInFlight sixSent - inFlightBytes lostFifth + inFlightBytes sent'.
Proof.
  apply (onPacketsLost_ledger lostFifth sixSent afterFirstLoss).
  vm_compute. reflexivity.
Defined.

(** X7: a loss event raises an exception exactly when one of the lost
    packets that are not ACK-only has no packet number, and the exception
    is then a [TypeError]. *)
Theorem onPacketsLost_TypeError (lost : list BasePacket) (cc : State) :
  ((exists e, onPacketsLost lost cc = Throw e)
   <-> exists p, In p lost /\ isAckOnly p = false /\ packetNumber p = None)
  /\ (forall e, onPacketsLost lost cc = Throw e -> e = TypeError).
Proof.
  assert (Hthrow : forall e, onPacketsLost lost cc = Throw e ->
            e = TypeError /\
            exists p, In p lost /\ isAckOnly p = false /\ packetNumber p = None).
  { intros e H. unfold onPacketsLost in H.
    destruct (forEachLost lost (bytesInFlight cc) 0) as [[b l]|e'] eqn:E;
      cbn [bind] in H; [discriminate|].
    injection H as <-. now apply forEachLost_Throw in E. }
  split; [split|].
  - intros [e H]. now apply Hthrow in H.
  - intros (p & Hin & Hack & Hpn).
    destruct (onPacketsLost lost cc) as [cc'|e] eqn:H; [|eauto].
    exfalso. unfold onPacketsLost in H.
    destruct (forEachLost lost (bytesInFlight cc) 0) as [[b l]|e'] eqn:E;
      cbn [bind] in H; [|discriminate].
    exact (forEachLost_Ok_inv _ _ _ _ _ E Hin Hack Hpn).
  - intros e H. now apply Hthrow in H.
Qed.

Lemma onPacketsLost_TypeError_witness :
  exists e, onPacketsLost [dataPacket] sixSent = Throw e.
Proof.
  apply (proj1 (onPacketsLost_TypeError [dataPacket] sixSent)).
  exists dataPacket. repeat split. left. reflexivity.
Defined.

End CongestionMore.

Module FrameParserMoreFacts.
Import FrameParser FrameParserFacts FrameParserAux.

(** More iterations do not change what the loop of [parse] returns. *)
Lemma parse_while_more FT msg : forall fuel fo frames r,
  parse_while FT fuel msg fo frames = Some r ->
  forall fuel', (fuel <= fuel')%nat ->
                parse_while FT fuel' msg fo frames = Some r.
Proof.
  induction fuel as [|fuel IH]; intros [fo|] frames r H fuel' Hle;
    cbn in H; try discriminate.
  - destruct fuel'; exact H.
  - destruct fuel' as [|fuel']; [lia|]. cbn.
    destruct (parseFrame FT msg (offset fo)); [|exact H].
    apply (IH _ _ _ H). lia.
  - destruct fuel'; exact H.
Qed.

(** The frames collected so far stay in front of what the loop adds. *)
Lemma parse_while_acc FT msg f : forall fuel fo frames,
  parse_while FT fuel msg fo (f :: frames)
  = consFrames f (parse_while FT fuel msg fo frames).
Proof.
  induction fuel as [|fuel IH]; intros [fo|] frames; cbn; try reflexivity.
  destruct (parseFrame FT msg (offset fo)); [|reflexivity]. apply IH.
Qed.

Lemma parse_while_Some FT msg fuel fo frames :
  parse_while FT (S fuel) msg (Some fo) frames
  = match parseFrame FT msg (offset fo) with
    | Throw e => Some (Throw e)
    | Ok next => parse_while FT fuel msg next (frames ++ [frame fo])
    end.
Proof. reflexivity. Qed.

Lemma skipn_repeat {A : Type} (x : A) (k n : nat) :
  skipn k (repeat x n) = repeat x (n - k).
Proof.
  revert k. induction n as [|n IH]; intros [|k]; simpl; auto.
Qed.

Lemma slice_length (b : Buffer.t) (s e : Z) :
  0 <= s <= Buffer.byteLength b ->
  Z.of_nat (length (Buffer.slice b s e))
  = Z.max 0 (Z.min e (Buffer.byteLength b) - s).
Proof.
  intros Hs. unfold Buffer.slice, Buffer.byteLength in *.
  rewrite length_firstn, length_skipn. lia.
Qed.

(** Allocating [n] bytes and copying from [start]: the bytes of the
    buffer from [start] on, as far as there are any, then zeroes. *)
Lemma allocCopy_slice (b : Buffer.t) (start n : Z) :
  0 <= start <= Buffer.byteLength b ->
  0 <= n <= Buffer.kMaxLength ->
  Buffer.allocCopy b start n
  = Ok (Buffer.slice b start (start + n)
        ++ repeat x00 (Z.to_nat (start + n - Buffer.byteLength b))).
Proof.
  intros Hs Hn. unfold Buffer.allocCopy, Buffer.alloc.
  destruct (Z.ltb_spec n 0); [lia|].
  destruct (Z.ltb_spec Buffer.kMaxLength n); [lia|].
  cbn [orb bind]. unfold Buffer.copy.
  pose proof (slice_length b start (start + n) Hs) as Hsl.
  unfold Buffer.byteLength in *. rewrite repeat_length.
  destruct (Z.leb_spec (Z.of_nat (Z.to_nat n)) 0) as [Hz|Hz]; cbn [orb].
  - assert (n = 0) by lia. subst n. rewrite Z.add_0_r in *.
    replace (Z.to_nat (start - Z.of_nat (length b))) with O by lia.
    destruct (Buffer.slice b start start); [reflexivity|].
    cbn [length] in Hsl. lia.
  - destruct (Z.leb_spec (start + n) start); [lia|].
    destruct (Z.ltb_spec (Z.of_nat (length b)) start); [lia|].
    rewrite firstn_all2 by lia. rewrite skipn_repeat.
    do 3 f_equal. lia.
Qed.

Lemma parseStream_no_len_offset (t : Z) (b : Buffer.t) (o : Z)
    (fo : FrameOffset) :
  flag t 2 = false ->
  parseStream t b o = Ok fo -> offset fo = Buffer.byteLength b.
Proof.
  intros Hlen H. unfold parseStream, ret in H. rewrite Hlen in H.
  bind_inv H. bind_inv_pair H. cbn [bind] in H. bind_inv H.
  injection H as <-. cbn [offset]. lia.
Qed.

Lemma parseAckBlocks_bytes (n : nat) : forall b o o' blocks,
  parseAckBlocks n b o = Ok (blocks, o') -> o + 2 * Z.of_nat n <= o'.
Proof.
  induction n as [|n IH]; intros b o o' blocks H; cbn [parseAckBlocks] in H.
  - injection H as _ <-. lia.
  - bind_inv H. bind_inv H. bind_inv_pair H. injection H as _ <-.
    apply IH in E1. decode_facts. lia.
Qed.

End FrameParserMoreFacts.

Module FrameParserMore.
Import FrameParser FrameParserFacts FrameParserAux FrameParserMoreFacts.

(** X9: [parse] is the frame at the offset followed by the parse from
    where that frame ends: if [parseFrame] yields a frame, [parse] from
    its offset yields that frame in front of what [parse] yields from the
    offset after it, and raises what that raises. *)
Theorem parse_unfolds (FT : FrameTypeEnum) (msg : Buffer.t) (o : Z)
    (fo : FrameOffset) :
  parseFrame FT msg o = Ok (Some fo) ->
  parse FT msg o = consFrames (frame fo) (parse FT msg (offset fo)).
Proof.
  intros Hf. pose proof (parseFrame_advances _ _ _ _ Hf) as [Ho Hadv].
  unfold parse at 1, parse_fuel at 1. rewrite Hf.
  assert (Hlen : (1 <= length msg)%nat)
    by (unfold Buffer.byteLength in Ho; lia).
  destruct (length msg) as [|n] eqn:En; [lia|].
  rewrite parse_while_Some. unfold parse, parse_fuel. rewrite En.
  cbn [app].
  destruct (parseFrame FT msg (offset fo)) as [[fo'|]|e] eqn:E.
  - rewrite parse_while_acc. f_equal.
    pose proof (parseFrame_advances _ _ _ _ E) as [Ho' Hadv'].
    unfold Buffer.byteLength in *.
    destruct (parse_while_terminates FT msg n fo' []) as [r Hr];
      [lia|unfold Buffer.byteLength; lia|].
    rewrite Hr. symmetry. apply (parse_while_more _ _ _ _ _ _ Hr). lia.
  - destruct n; reflexivity.
  - reflexivity.
Qed.

Lemma parse_unfolds_witness :
  parse FrameType [x00; x00; x00; x07] 0
  = consFrames (FPadding 2) (parse FrameType [x00; x00; x00; x07] 3).
Proof.
  apply (parse_unfolds FrameType [x00; x00; x00; x07] 0
           (mkFrameOffset (FPadding 2) 3)).
  reflexivity.
Defined.

(** X10: from an offset at or beyond the end of the buffer [parse]
    returns no frame; from a negative offset it raises a [RangeError]. *)
Theorem parse_outside (FT : FrameTypeEnum) (msg : Buffer.t) (o : Z) :
  (Buffer.byteLength msg <= o -> parse FT msg o = Some (Ok [])) /\
  (o < 0 -> parse FT msg o = Some (Throw RangeError)).
Proof.
  unfold parse, parse_fuel, parseFrame. split; intros H.
  - destruct (Z.leb_spec (Buffer.byteLength msg) o); [|lia].
    destruct (length msg); reflexivity.
  - pose proof (BufferFacts.byteLength_nonneg msg).
    destruct (Z.leb_spec (Buffer.byteLength msg) o); [lia|].
    unfold Buffer.readUInt8. destruct (Z.ltb_spec o 0); [reflexivity|lia].
Qed.

Lemma parse_outside_witness :
  parse FrameType [x07] 1 = Some (Ok []) /\
  parse FrameType [x07] (-1) = Some (Throw RangeError).
Proof.
  destruct (parse_outside FrameType [x07] 1) as [H1 _].
  destruct (parse_outside FrameType [x07] (-1)) as [_ H2].
  split; [apply H1; vm_compute; discriminate | apply H2; reflexivity].
Defined.

(** X11: [parseCrypto] does not fail on data the buffer lacks.  With the
    offset field decoded and the length field giving a length [L] of at
    most [2 ^ 31 - 1], ending at [e], the frame's data is the bytes of the
    buffer at [e, e + L) as far as the buffer goes, followed by zeroes
    for the bytes it lacks, and the returned offset is [e + L] even
    beyond the end of the buffer. *)
Theorem parseCrypto_data (buffer : Buffer.t) (o : Z)
    (cryptooffset lengthV : VLIE.VLIEOffset) :
  VLIE.decode buffer o = Ok cryptooffset ->
  VLIE.decode buffer (VLIE.offset cryptooffset) = Ok lengthV ->
  let L := VLIE.value lengthV in
  let e := VLIE.offset lengthV in
  L <= 2 ^ 31 - 1 ->
  parseCrypto buffer o
  = Ok (mkFrameOffset
          (FCrypto
             (Buffer.slice buffer e (e + L)
              ++ repeat x00 (Z.to_nat (e + L - Buffer.byteLength buffer)))
             (VLIE.value cryptooffset))
          (e + L)).
Proof.
  intros H1 H2 L e HL. unfold parseCrypto, ret. rewrite H1. cbn [bind].
  rewrite H2. cbn [bind]. fold L e.
  pose proof (VLIEFacts.decode_ok _ _ _ H1) as D1.
  pose proof (VLIEFacts.decode_ok _ _ _ H2) as D2. fold L e in D2.
  rewrite allocCopy_slice by (unfold Buffer.kMaxLength; lia). reflexivity.
Qed.

Lemma parseCrypto_data_witness :
  parseCrypto [x18; x00; x04; x68; x69] 1
  = Ok (mkFrameOffset (FCrypto [x68; x69; x00; x00] 0) 7).
Proof.
  apply (parseCrypto_data [x18; x00; x04; x68; x69] 1
           (VLIE.mkVLIEOffset 0 2) (VLIE.mkVLIEOffset 4 3) eq_refl eq_refl).
  vm_compute. discriminate.
Defined.

(** X12: a STREAM frame without the LEN bit is the last frame of the
    payload: its parser returns the end of the buffer as offset, and
    [parse] from the frame's type byte returns this frame alone. *)
Theorem stream_without_length_is_last (msg : Buffer.t) (o type : Z)
    (fo : FrameOffset) :
  0x10 <= type <= 0x17 ->
  Z.testbit type 1 = false ->
  Buffer.readUInt8 msg o = Ok type ->
  parseStream type msg (o + 1) = Ok fo ->
  offset fo = Buffer.byteLength msg /\
  parse FrameType msg o = Some (Ok [frame fo]).
Proof.
  intros Ht Hbit Hr Hs.
  assert (Hflag : flag type 2 = false).
  { change 2 with (2 ^ 1). now rewrite FrameParserSpec.flag_testbit by lia. }
  pose proof (parseStream_no_len_offset _ _ _ _ Hflag Hs) as Hoff.
  split; [exact Hoff|].
  unfold parse, parse_fuel.
  rewrite (FrameParserSpec.parseFrame_stream _ _ _ Ht Hr), Hs.
  cbn [some bind].
  apply BufferFacts.readUInt8_ok in Hr. unfold Buffer.byteLength in Hr.
  destruct (length msg) as [|n] eqn:En; [lia|].
  rewrite parse_while_Some.
  assert (Hend : parseFrame FrameType msg (offset fo) = Ok None).
  { unfold parseFrame. rewrite Hoff.
    now rewrite Z.leb_refl. }
  rewrite Hend. destruct n; reflexivity.
Qed.

Lemma stream_without_length_is_last_witness :
  offset (mkFrameOffset
            (FStream (mkStreamFrame 4 [x68; x69] true true 0 2)) 4)
  = Buffer.byteLength [x11; x04; x68; x69] /\
  parse FrameType [x11; x04; x68; x69] 0
  = Some (Ok [frame (mkFrameOffset
                       (FStream (mkStreamFrame 4 [x68; x69] true true 0 2))
                       4)]).
Proof.
  apply (stream_without_length_is_last [x11; x04; x68; x69] 0 0x11);
    try reflexivity.
  lia.
Defined.

(** X13: an ACK frame that is decoded has as many ack blocks as its block
    count says, and the buffer holds at least four bytes for its fields
    and two for each block; a block count the buffer cannot hold raises
    an exception instead. *)
Theorem parseAck_block_count (ecn : bool) (buffer : Buffer.t) (o : Z)
    (fo : FrameOffset) :
  parseAck ecn buffer o = Ok fo ->
  exists f,
    frame fo = FAck f /\
    Z.of_nat (length (ackBlocks f)) = ackBlockCount f /\
    o + 4 + 2 * ackBlockCount f <= Buffer.byteLength buffer.
Proof.
  intros H. unfold parseAck in H. bind_inv_pair H.
  assert (Hf : Z.of_nat (length (ackBlocks a)) = ackBlockCount a /\
               o + 4 + 2 * ackBlockCount a <= z /\
               z <= Buffer.byteLength buffer).
  { pose proof (parseAckFields_advances _ _ _ _ _ E) as [Hz _].
    unfold parseAckFields in E.
    bind_inv E. bind_inv E. bind_inv E. bind_inv E. bind_inv_pair E.
    injection E as <- <-. cbn [ackBlocks ackBlockCount].
    pose proof (parseAckBlocks_advances _ _ _ _ _ E4) as (_ & _ & Hl).
    apply parseAckBlocks_bytes in E4. decode_facts. clear H.
    split; [lia | split; lia]. }
  destruct Hf as (Hl & Hb & Hz).
  destruct ecn; [destruct (z =? Buffer.byteLength buffer)|];
    repeat bind_inv H; injection H as <-; cbn [frame];
    eexists; (split; [reflexivity|]);
    cbn [ackBlocks ackBlockCount setCEcount setECT1count setECT0count];
    split; lia.
Qed.

Lemma parseAck_block_count_witness :
  exists f,
    frame (mkFrameOffset
             (FAck (mkAckFrame true 12 40 1 3 [mkAckBlock 2 1]
                      (Some 1) (Some 2) (Some 3))) 10)
    = FAck f /\
    Z.of_nat (length (ackBlocks f)) = ackBlockCount f /\
    1 + 4 + 2 * ackBlockCount f <= Buffer.byteLength ackEcnWithCounts.
Proof.
  apply (parseAck_block_count true ackEcnWithCounts 1). reflexivity.
Defined.

(** X14: called with an offset inside the buffer or at its end,
    [parsePathChallenge] and [parsePathResponse] never raise: the data is
    always 8 bytes, the bytes of the buffer from the offset on followed by
    zeroes when fewer than 8 are left, and the returned offset is 8 bytes
    further even when that is beyond the end. *)
Theorem path_frames_padded (buffer : Buffer.t) (o : Z) :
  0 <= o <= Buffer.byteLength buffer ->
  let data :=
    Buffer.slice buffer o (o + 8)
    ++ repeat x00 (Z.to_nat (o + 8 - Buffer.byteLength buffer)) in
  length data = 8%nat /\
  parsePathChallenge buffer o = Ok (mkFrameOffset (FPathChallenge data) (o + 8))
  /\
  parsePathResponse buffer o = Ok (mkFrameOffset (FPathResponse data) (o + 8)).
Proof.
  intros Ho data.
  assert (Hk : 0 <= 8 <= Buffer.kMaxLength) by (vm_compute; split; discriminate).
  split.
  - unfold data. rewrite length_app, repeat_length.
    pose proof (slice_length buffer o (o + 8) Ho). lia.
  - unfold parsePathChallenge, parsePathResponse, ret,
      PATH_CHALLENGE_PAYLOAD_SIZE, PATH_RESPONSE_PAYLOAD_SIZE.
    rewrite allocCopy_slice by assumption. split; reflexivity.
Qed.

Lemma path_frames_padded_witness :
  parsePathChallenge [x0e; x01; x02; x03] 1
  = Ok (mkFrameOffset
          (FPathChallenge [x01; x02; x03; x00; x00; x00; x00; x00]) 9).
Proof.
  destruct (path_frames_padded [x0e; x01; x02; x03] 1) as (_ & H & _).
  - vm_compute. split; discriminate.
  - exact H.
Defined.

(** X15: a NEW_CONNECTION_ID frame that is decoded has a connection ID of
    exactly the length its length byte says, all of it inside the buffer,
    and a reset token of 16 bytes.  A connection ID that would end beyond
    the buffer raises a [RangeError]. *)
Theorem parseNewConnectionId_lengths (buffer : Buffer.t) (o : Z)
    (sequence : VLIE.VLIEOffset) (connectionIDLength : Z) :
  VLIE.decode buffer o = Ok sequence ->
  Buffer.readUInt8 buffer (VLIE.offset sequence) = Ok connectionIDLength ->
  let cidEnd := VLIE.offset sequence + 1 + connectionIDLength in
  (cidEnd <= Buffer.byteLength buffer ->
   exists cid token,
     parseNewConnectionId buffer o
     = Ok (mkFrameOffset
             (FNewConnectionId (VLIE.value sequence)
                (mkConnectionID cid connectionIDLength) token)
             (cidEnd + 16)) /\
     cid = Buffer.slice buffer (VLIE.offset sequence + 1) cidEnd /\
     Z.of_nat (length cid) = connectionIDLength /\
     length token = 16%nat) /\
  (Buffer.byteLength buffer < cidEnd ->
   parseNewConnectionId buffer o = Throw RangeError).
Proof.
  intros Hs Hl cidEnd. unfold parseNewConnectionId, ret.
  rewrite Hs. cbn [bind]. rewrite Hl. cbn [bind].
  pose proof (VLIEFacts.decode_ok _ _ _ Hs) as Ds.
  pose proof (BufferFacts.readUInt8_ok _ _ _ Hl) as [Dl Dr].
  assert (Hk : Buffer.kMaxLength = 2147483647) by reflexivity.
  assert (Hc : Buffer.allocCopy buffer (VLIE.offset sequence + 1)
                 connectionIDLength
               = Ok (Buffer.slice buffer (VLIE.offset sequence + 1) cidEnd
                     ++ repeat x00 (Z.to_nat (cidEnd - Buffer.byteLength buffer))))
    by (apply allocCopy_slice; lia).
  rewrite Hc. cbn [bind]. fold cidEnd. split; intros Hend.
  - rewrite allocCopy_slice by lia.
    replace (Z.to_nat (cidEnd - Buffer.byteLength buffer)) with O by lia.
    rewrite app_nil_r. do 2 eexists. split; [reflexivity|].
    split; [reflexivity|]. split.
    + rewrite slice_length by lia. lia.
    + rewrite length_app, repeat_length.
      pose proof (slice_length buffer cidEnd (cidEnd + 16) ltac:(lia)). lia.
  - unfold Buffer.allocCopy, Buffer.alloc, Buffer.copy.
    cbn [Z.ltb Z.compare orb bind]. rewrite Hk. cbn.
    destruct (Z.leb_spec (cidEnd + 16) cidEnd); [lia|].
    destruct (Z.ltb_spec (Buffer.byteLength buffer) cidEnd); [reflexivity|lia].
Qed.

Lemma parseNewConnectionId_lengths_witness :
  parseNewConnectionId [x0b; x01; x05; xaa] 1 = Throw RangeError.
Proof.
  destruct (parseNewConnectionId_lengths [x0b; x01; x05; xaa] 1
              (VLIE.mkVLIEOffset 1 2) 5 eq_refl eq_refl) as [_ H].
  apply H. reflexivity.
Defined.

End FrameParserMore.

Module TransportParamsMoreFacts.
Import TransportParams TransportParamsFacts TransportParamsIO.

Lemma setTransportParameter_keeps (type : Z) (value : Value)
    (tp : TransportParameters) :
  isServer (setTransportParameter type value tp) = isServer tp /\
  version (setTransportParameter type value tp) = version tp.
Proof.
  destruct tp. unfold setTransportParameter.
  repeat match goal with
         | |- context [if ?c then _ else _] => destruct c
         end; split; reflexivity.
Qed.

Lemma applyValues_keeps (values : Values) :
  forall tp,
    isServer (applyValues values tp) = isServer tp /\
    version (applyValues values tp) = version tp.
Proof.
  unfold applyValues.
  induction values as [|[k v] values IH]; intros tp; [auto|].
  cbn [fold_left fst snd]. destruct (inTransportParameterType k); [|apply IH].
  destruct (IH (setTransportParameter k v tp)) as [-> ->].
  apply setTransportParameter_keeps.
Qed.

Lemma readBE_Throw_Range (n : nat) : forall b o acc e,
  Buffer.readBE n b o acc = Throw e -> e = RangeError.
Proof.
  induction n as [|n IH]; intros b o acc e H; cbn [Buffer.readBE] in H;
    [discriminate|].
  destruct (Buffer.readUInt8 b o) eqn:E; cbn [bind] in H.
  - now apply IH in H.
  - injection H as <-. unfold Buffer.readUInt8 in E.
    destruct (o <? 0); [congruence|].
    destruct (nth_error b (Z.to_nat o)); congruence.
Qed.

Lemma allocCopy_Throw_Range b o n e :
  Buffer.allocCopy b o n = Throw e -> e = RangeError.
Proof.
  unfold Buffer.allocCopy, Buffer.alloc, Buffer.copy.
  destruct (_ || _); cbn [bind]; [congruence|].
  destruct (_ || _); [discriminate|].
  destruct (_ <? _); [congruence|discriminate].
Qed.

(** One iteration of the loop consumes at least the four bytes of a
    header, and raises nothing but the two errors. *)
Lemma readParameter_progress (b : Buffer.t) (o : Z) (values : Values) :
  match readParameter b o values with
  | Ok (o', _) => o + 4 <= o'
  | Throw e => e = TRANSPORT_PARAMETER_ERROR \/ e = RangeError
  end.
Proof.
  unfold readParameter, Buffer.readUInt16BE.
  destruct (Buffer.readBE 2 b o 0) as [type|e] eqn:E1; cbn [bind];
    [|right; now apply readBE_Throw_Range in E1].
  destruct (Buffer.readBE 2 b (o + 2) 0) as [len|e] eqn:E2; cbn [bind];
    [|right; now apply readBE_Throw_Range in E2].
  pose proof (BufferFacts.readBE_nonneg _ _ _ _ _ E2 ltac:(lia)) as Hlen.
  assert (Hfin : forall v : Value,
             match (if inValues type values
                    then Throw TRANSPORT_PARAMETER_ERROR
                    else Ok (o + 2 + 2 + len, setValue type v values)) with
             | Ok (o', _) => o + 4 <= o'
             | Throw e => e = TRANSPORT_PARAMETER_ERROR \/ e = RangeError
             end).
  { intros v. destruct (inValues type values); [now left|lia]. }
  destruct (4 <? len).
  - destruct (Buffer.allocCopy b (o + 2 + 2) len) eqn:E3; cbn [bind];
      [apply Hfin|right; now apply allocCopy_Throw_Range in E3].
  - destruct (0 <? len); cbn [bind]; [|apply Hfin].
    unfold Buffer.readUIntBE.
    destruct (Buffer.readBE (Z.to_nat len) _ _ _) eqn:E3; cbn [bind];
      [apply Hfin|right; now apply readBE_Throw_Range in E3].
Qed.

Lemma readParameters_total (b : Buffer.t) :
  forall fuel o values,
    Buffer.byteLength b <= o + Z.of_nat fuel ->
    exists r,
      readParameters fuel b o values = Some r /\
      forall e, r = Throw e ->
                e = TRANSPORT_PARAMETER_ERROR \/ e = RangeError.
Proof.
  induction fuel as [|fuel IH]; intros o values Hfuel.
  - cbn. destruct (Z.ltb_spec o (Buffer.byteLength b)); [lia|].
    eexists. split; [reflexivity|discriminate].
  - rewrite readParameters_S.
    destruct (Z.ltb_spec o (Buffer.byteLength b));
      [|eexists; split; [reflexivity|discriminate]].
    pose proof (readParameter_progress b o values) as Hp.
    destruct (readParameter b o values) as [[o' values']|e].
    + apply IH. lia.
    + eexists. split; [reflexivity|]. now intros e' [= <-].
Qed.

(** The loop on the records of a well-formed prefix of the buffer,
    whatever follows them. *)
Lemma readParameters_prefix (rs : list WireParameter) :
  forall (fuel : nat) (pre suffix : Buffer.t) (values : Values),
    Forall wellFormed rs ->
    readParameters (length rs + fuel) (pre ++ wireBuffer rs ++ suffix)
      (Buffer.byteLength pre) values
    = match collect rs values with
      | Throw e => Some (Throw e)
      | Ok values' =>
          readParameters fuel (pre ++ wireBuffer rs ++ suffix)
            (Buffer.byteLength (pre ++ wireBuffer rs)) values'
      end.
Proof.
  induction rs as [|r rs IH]; intros fuel pre suffix values Hwf.
  - cbn [length plus wireBuffer flat_map collect app]. now rewrite app_nil_r.
  - inversion Hwf as [|? ? Hr Hrs]; subst.
    change (wireBuffer (r :: rs)) with (wireBytes r ++ wireBuffer rs).
    cbn [length plus]. rewrite readParameters_S.
    assert (Hlt : (Buffer.byteLength pre
                   <? Buffer.byteLength
                        (pre ++ (wireBytes r ++ wireBuffer rs) ++ suffix))
                  = true).
    { apply Z.ltb_lt. unfold Buffer.byteLength. rewrite !length_app.
      pose proof (wireBytes_length r) as Hb. unfold Buffer.byteLength in Hb.
      lia. }
    rewrite Hlt. rewrite <- (app_assoc (wireBytes r)).
    rewrite readParameter_wireBytes by exact Hr. cbn [collect].
    destruct (inValues (wireType r) values); [reflexivity|].
    rewrite (app_assoc pre (wireBytes r)).
    rewrite IH by exact Hrs. rewrite <- !app_assoc. reflexivity.
Qed.

Lemma readParameters_done (fuel : nat) (b : Buffer.t) (o : Z)
    (values : Values) :
  Buffer.byteLength b <= o -> readParameters fuel b o values = Some (Ok values).
Proof.
  intros Ho. destruct fuel; cbn [readParameters];
    destruct (Z.ltb_spec o (Buffer.byteLength b)); try lia; reflexivity.
Qed.

Lemma readBE_short (n : nat) : forall (b : Buffer.t) (o acc : Z),
  0 <= o -> (0 < n)%nat -> Buffer.byteLength b < o + Z.of_nat n ->
  Buffer.readBE n b o acc = Throw RangeError.
Proof.
  induction n as [|n IH]; intros b o acc Ho Hn Hlen; [lia|].
  cbn [Buffer.readBE]. unfold Buffer.readUInt8.
  destruct (Z.ltb_spec o 0); [lia|].
  destruct (nth_error b (Z.to_nat o)) eqn:E; [|reflexivity].
  cbn [bind]. apply IH; [lia| |lia].
  assert (Z.to_nat o < length b)%nat
    by (apply nth_error_Some; congruence).
  unfold Buffer.byteLength in Hlen. lia.
Qed.

(** Fewer than four bytes left: the header cannot be read. *)
Lemma readParameter_short (b : Buffer.t) (o : Z) (values : Values) :
  0 <= o -> Buffer.byteLength b < o + 4 ->
  readParameter b o values = Throw RangeError.
Proof.
  intros Ho Hlen. unfold readParameter, Buffer.readUInt16BE.
  destruct (Buffer.readBE 2 b o 0) as [type|e] eqn:E1; cbn [bind];
    [|now apply readBE_Throw_Range in E1; subst].
  rewrite (readBE_short 2 b (o + 2) 0) by lia. reflexivity.
Qed.

(** The two header fields read back, whatever follows them. *)
Lemma readParameter_header (pre rest : Buffer.t) (type len : Z)
    (values : Values) :
  0 <= type < 65536 -> 0 <= len < 65536 ->
  let b := pre ++ Buffer.uint16BE type ++ Buffer.uint16BE len ++ rest in
  let o := Buffer.byteLength (pre ++ Buffer.uint16BE type
                              ++ Buffer.uint16BE len) in
  readParameter b (Buffer.byteLength pre) values
  = value <-
      (if 4 <? len then
         value <- Buffer.allocCopy b o len ;; Ok (VBuffer value)
       else if 0 <? len then
         value <- Buffer.readUIntBE b o len ;; Ok (VNumber value)
       else Ok VTrue) ;;
    if inValues type values then Throw TRANSPORT_PARAMETER_ERROR
    else Ok (o + len, setValue type value values).
Proof.
  intros Ht Hl b o. unfold readParameter. subst b.
  rewrite readUInt16BE_app by lia. cbn [bind].
  assert (Hpre2 : Buffer.byteLength pre + 2
                  = Buffer.byteLength (pre ++ Buffer.uint16BE type))
    by (unfold Buffer.byteLength, Buffer.uint16BE; rewrite length_app;
        cbn [length]; lia).
  rewrite Hpre2.
  rewrite (app_assoc pre (Buffer.uint16BE type)) at 1.
  rewrite readUInt16BE_app by lia. cbn [bind].
  assert (Ho : Buffer.byteLength (pre ++ Buffer.uint16BE type) + 2 = o)
    by (unfold o, Buffer.byteLength, Buffer.uint16BE; rewrite !length_app;
        cbn [length]; lia).
  rewrite Ho. reflexivity.
Qed.

(** A copy that runs past the end of the source leaves the zeroes of the
    allocation behind what was there to copy. *)
Lemma allocCopy_truncated (pre partial : Buffer.t) (n : Z) :
  Buffer.byteLength partial < n <= Buffer.kMaxLength ->
  Buffer.allocCopy (pre ++ partial) (Buffer.byteLength pre) n
  = Ok (partial ++ repeat x00 (Z.to_nat n - length partial)).
Proof.
  intros Hn. unfold Buffer.allocCopy, Buffer.alloc.
  pose proof (BufferFacts.byteLength_nonneg partial) as Hp.
  destruct (Z.ltb_spec n 0); [lia|].
  destruct (Z.ltb_spec Buffer.kMaxLength n); [lia|].
  cbn [orb bind]. unfold Buffer.copy.
  assert (Hz : Buffer.byteLength (repeat x00 (Z.to_nat n)) = n)
    by (unfold Buffer.byteLength; rewrite repeat_length; lia).
  rewrite Hz.
  destruct (Z.leb_spec n 0); [lia|].
  destruct (Z.leb_spec (Buffer.byteLength pre + n) (Buffer.byteLength pre));
    [lia|].
  cbn [orb].
  assert (Hsrc : Buffer.byteLength (pre ++ partial)
                 = Buffer.byteLength pre + Buffer.byteLength partial)
    by (unfold Buffer.byteLength; rewrite length_app; lia).
  destruct (Z.ltb_spec (Buffer.byteLength (pre ++ partial))
              (Buffer.byteLength pre)); [lia|].
  assert (Hslice : Buffer.slice (pre ++ partial) (Buffer.byteLength pre)
                     (Buffer.byteLength pre + n) = partial).
  { unfold Buffer.slice. rewrite Hsrc.
    pose proof (BufferFacts.byteLength_nonneg pre).
    rewrite Z.max_r, Z.min_r by lia.
    replace (Z.to_nat (Buffer.byteLength pre)) with (length pre)
      by (unfold Buffer.byteLength; lia).
    replace (Z.to_nat (Buffer.byteLength pre + Buffer.byteLength partial
                       - Buffer.byteLength pre))
      with (length partial) by (unfold Buffer.byteLength; lia).
    rewrite skipn_length_app. apply firstn_all. }
  rewrite Hslice, repeat_length.
  assert (Hle : (length partial <= Z.to_nat n)%nat)
    by (unfold Buffer.byteLength in Hn; lia).
  rewrite firstn_all2 by exact Hle.
  now rewrite FrameParserMoreFacts.skipn_repeat.
Qed.

Lemma collect_app (rs : list WireParameter) :
  forall (rs' : list WireParameter) (values : Values),
    collect (rs ++ rs') values
    = values' <- collect rs values ;; collect rs' values'.
Proof.
  induction rs as [|r rs IH]; intros rs' values; cbn [app collect bind];
    [reflexivity|].
  destruct (inValues (wireType r) values); [reflexivity|apply IH].
Qed.

(** [fromExtensionBuffer] on well-formed records followed by other bytes:
    the records are collected, and the loop goes on behind them. *)
Lemma fromExtensionBuffer_prefix (isServer : bool) (version : Version)
    (rs : list WireParameter) (suffix : Buffer.t) :
  Forall wellFormed rs ->
  fromExtensionBuffer isServer (wireBuffer rs ++ suffix) version
  = match collect rs [] with
    | Throw e => Some (Throw e)
    | Ok values =>
        match readParameters (length (wireBuffer rs ++ suffix) - length rs)
                (wireBuffer rs ++ suffix)
                (Buffer.byteLength (wireBuffer rs)) values with
        | None => None
        | Some (Throw e) => Some (Throw e)
        | Some (Ok values) =>
            Some (Ok (applyValues values (new isServer 0 0 0 version)))
        end
    end.
Proof.
  intros Hwf. unfold fromExtensionBuffer.
  pose proof (wireBuffer_length rs) as Hlen.
  replace (length (wireBuffer rs ++ suffix))
    with (length rs + (length (wireBuffer rs ++ suffix) - length rs))%nat
    at 1 by (rewrite length_app; lia).
  pose proof (readParameters_prefix rs
                (length (wireBuffer rs ++ suffix) - length rs) [] suffix []
                Hwf) as H.
  cbn [app] in H. change (Buffer.byteLength []) with 0 in H.
  rewrite H. destruct (collect rs []); reflexivity.
Qed.

End TransportParamsMoreFacts.

Module TransportParamsMore.
Import TransportParams TransportParamsFacts TransportParamsIO
  TransportParamsMoreFacts.

(** X16: setting and getting a transport parameter.  For a type the class
    has a field for, the value set is the value got; for any other type
    setting changes nothing; and setting one type never changes what is
    got for another. *)
Theorem set_get_parameter (maxPacketSize0 ackExponent0 : Value)
    (type type' : Z) (value : Value) (tp : TransportParameters) :
  (hasField type = true ->
   getTransportParameter maxPacketSize0 ackExponent0 type
     (setTransportParameter type value tp) = Some value) /\
  (hasField type = false -> setTransportParameter type value tp = tp) /\
  (type' <> type ->
   getTransportParameter maxPacketSize0 ackExponent0 type'
     (setTransportParameter type value tp)
   = getTransportParameter maxPacketSize0 ackExponent0 type' tp).
Proof.
  destruct tp. unfold hasField, setTransportParameter.
  repeat match goal with
         | |- context [type =? ?c] =>
             destruct (Z.eqb_spec type c) as [->|?]
         end;
    cbn [orb];
    (split; [intros H; try reflexivity; discriminate H|]);
    (split; [intros H; try reflexivity; discriminate H|]);
    intros Hne; unfold getTransportParameter;
    repeat match goal with
           | |- context [type' =? ?c] =>
               destruct (Z.eqb_spec type' c) as [->|?]
           end;
    try reflexivity; try contradiction.
Qed.

Lemma set_get_parameter_witness :
  getTransportParameter (VNumber 1252) (VNumber 3) MAX_PACKET_SIZE
    (setTransportParameter MAX_PACKET_SIZE (VNumber 1400)
       sampleServerParameters)
  = Some (VNumber 1400) /\
  setTransportParameter PREFERRED_ADDRESS (VNumber 7) sampleServerParameters
  = sampleServerParameters.
Proof.
  destruct (set_get_parameter (VNumber 1252) (VNumber 3) MAX_PACKET_SIZE 0
              (VNumber 1400) sampleServerParameters) as (H1 & _ & _).
  destruct (set_get_parameter (VNumber 1252) (VNumber 3) PREFERRED_ADDRESS 0
              (VNumber 7) sampleServerParameters) as (_ & H2 & _).
  split; [apply H1; reflexivity | apply H2; reflexivity].
Defined.

(** X17: [fromExtensionBuffer] ends on every buffer; what it raises is a
    [TRANSPORT_PARAMETER_ERROR] or a [RangeError]; and the parameters it
    returns carry the [isServer] flag and the version it was given. *)
Theorem fromExtensionBuffer_total (isServer0 : bool) (buffer : Buffer.t)
    (version0 : Version) :
  exists r,
    fromExtensionBuffer isServer0 buffer version0 = Some r /\
    (forall e, r = Throw e ->
               e = TRANSPORT_PARAMETER_ERROR \/ e = RangeError) /\
    (forall tp, r = Ok tp -> isServer tp = isServer0 /\ version tp = version0).
Proof.
  unfold fromExtensionBuffer.
  destruct (readParameters_total buffer (length buffer) 0 [])
    as (r & -> & Hr); [unfold Buffer.byteLength; lia|].
  destruct r as [values|e]; eexists; (split; [reflexivity|]); split.
  - discriminate.
  - intros tp [= <-]. apply applyValues_keeps.
  - intros e' [= <-]. now apply Hr.
  - discriminate.
Qed.

Lemma fromExtensionBuffer_total_witness :
  exists r,
    fromExtensionBuffer false [x00; x05; x00] [xff; x00; x00; x0c] = Some r /\
    (forall e, r = Throw e ->
               e = TRANSPORT_PARAMETER_ERROR \/ e = RangeError) /\
    (forall tp, r = Ok tp ->
                isServer tp = false /\ version tp = [xff; x00; x00; x0c]).
Proof.
  exact (fromExtensionBuffer_total false [x00; x05; x00]
           [xff; x00; x00; x0c]).
Defined.

(** X18: bytes left over.  When well-formed records without a repeated
    type are followed by one to three more bytes, these cannot hold a
    header, and [fromExtensionBuffer] raises a [RangeError]. *)
Theorem stray_bytes_rejected (isServer0 : bool) (version0 : Version)
    (rs : list WireParameter) (suffix : Buffer.t) :
  Forall wellFormed rs ->
  NoDup (map wireType rs) ->
  (0 < length suffix < 4)%nat ->
  fromExtensionBuffer isServer0 (wireBuffer rs ++ suffix) version0
  = Some (Throw RangeError).
Proof.
  intros Hwf Hnd Hs.
  rewrite fromExtensionBuffer_prefix by exact Hwf.
  destruct (proj2 (collect_duplicates rs) Hnd) as [values ->].
  pose proof (wireBuffer_length rs) as Hlen.
  destruct (length (wireBuffer rs ++ suffix) - length rs)%nat
    as [|fuel] eqn:Ef; [rewrite length_app in Ef; lia|].
  rewrite readParameters_S.
  destruct (Z.ltb_spec (Buffer.byteLength (wireBuffer rs))
              (Buffer.byteLength (wireBuffer rs ++ suffix))) as [_|Hge];
    [|unfold Buffer.byteLength in Hge; rewrite length_app in Hge; lia].
  rewrite readParameter_short; [reflexivity|apply BufferFacts.byteLength_nonneg|].
  unfold Buffer.byteLength. rewrite length_app. lia.
Qed.

Lemma stray_bytes_rejected_witness :
  fromExtensionBuffer true
    (wireBuffer [mkWireParameter IDLE_TIMEOUT [x00; x1e]] ++ [x00; x08; x00])
    [xff; x00; x00; x0c]
  = Some (Throw RangeError).
Proof.
  apply stray_bytes_rejected.
  - repeat (apply Forall_cons; [split; vm_compute; intuition congruence|]).
    apply Forall_nil.
  - repeat constructor. intros [].
  - cbn [length]. lia.
Defined.

(** X19: a last value cut short.  Behind well-formed records, a header
    that declares [len] value bytes followed by fewer than [len] bytes:
    for [len] up to four the read of the number raises a [RangeError];
    for a longer [len] nothing is raised, and the result is that of the
    buffer in which the missing bytes are zeroes. *)
Theorem truncated_value (isServer0 : bool) (version0 : Version)
    (rs : list WireParameter) (type len : Z) (partial : Buffer.t) :
  Forall wellFormed rs ->
  NoDup (map wireType rs) ->
  0 <= type < 65536 ->
  Buffer.byteLength partial < len < 65536 ->
  let cut := wireBuffer rs ++ Buffer.uint16BE type ++ Buffer.uint16BE len
             ++ partial in
  let padded := partial ++ repeat x00 (Z.to_nat len - length partial) in
  (len <= 4 ->
   fromExtensionBuffer isServer0 cut version0 = Some (Throw RangeError)) /\
  (4 < len ->
   fromExtensionBuffer isServer0 cut version0
   = fromExtensionBuffer isServer0
       (wireBuffer (rs ++ [mkWireParameter type padded])) version0).
Proof.
  intros Hwf Hnd Ht Hl cut padded.
  pose proof (BufferFacts.byteLength_nonneg partial) as Hp.
  pose proof (wireBuffer_length rs) as Hlen.
  assert (Hcut : fromExtensionBuffer isServer0 cut version0
    = match collect rs [] with
      | Throw e => Some (Throw e)
      | Ok values =>
          match
            (value <-
               (if 4 <? len then
                  value <- Buffer.allocCopy cut
                             (Buffer.byteLength (wireBuffer rs) + 4) len ;;
                  Ok (VBuffer value)
                else
                  value <- Buffer.readUIntBE cut
                             (Buffer.byteLength (wireBuffer rs) + 4) len ;;
                  Ok (VNumber value)) ;;
             if inValues type values then Throw TRANSPORT_PARAMETER_ERROR
             else Ok (setValue type value values)) with
          | Throw e => Some (Throw e)
          | Ok values =>
              Some (Ok (applyValues values (new isServer0 0 0 0 version0)))
          end
      end).
  { unfold cut. rewrite fromExtensionBuffer_prefix by exact Hwf.
    destruct (collect rs []) as [values|e]; [|reflexivity].
    destruct (length (wireBuffer rs ++ Buffer.uint16BE type
                      ++ Buffer.uint16BE len ++ partial) - length rs)%nat
      as [|fuel] eqn:Ef;
      [rewrite !length_app in Ef; cbn [Buffer.uint16BE length] in Ef; lia|].
    rewrite readParameters_S.
    assert (Hbl : Buffer.byteLength
                    (wireBuffer rs ++ Buffer.uint16BE type
                     ++ Buffer.uint16BE len ++ partial)
                  = Buffer.byteLength (wireBuffer rs) + 4
                    + Buffer.byteLength partial)
      by (unfold Buffer.byteLength; rewrite !length_app;
          cbn [Buffer.uint16BE length]; lia).
    destruct (Z.ltb_spec (Buffer.byteLength (wireBuffer rs))
                (Buffer.byteLength
                   (wireBuffer rs ++ Buffer.uint16BE type
                    ++ Buffer.uint16BE len ++ partial))); [|lia].
    rewrite readParameter_header by lia.
    assert (Ho : Buffer.byteLength
                   (wireBuffer rs ++ Buffer.uint16BE type
                    ++ Buffer.uint16BE len)
                 = Buffer.byteLength (wireBuffer rs) + 4)
      by (unfold Buffer.byteLength; rewrite !length_app;
          cbn [Buffer.uint16BE length]; lia).
    rewrite Ho.
    destruct (Z.ltb_spec 0 len); [|lia].
    destruct (4 <? len).
    - destruct (Buffer.allocCopy _ _ _); cbn [bind]; [|reflexivity].
      destruct (inValues type values); [reflexivity|].
      rewrite readParameters_done by lia. reflexivity.
    - destruct (Buffer.readUIntBE _ _ _); cbn [bind]; [|reflexivity].
      destruct (inValues type values); [reflexivity|].
      rewrite readParameters_done by lia. reflexivity. }
  split; intros Hlen4; rewrite Hcut; clear Hcut.
  - destruct (proj2 (collect_duplicates rs) Hnd) as [values ->].
    destruct (Z.ltb_spec 4 len); [lia|].
    unfold Buffer.readUIntBE. rewrite readBE_short; [reflexivity| | |].
    + pose proof (BufferFacts.byteLength_nonneg (wireBuffer rs)). lia.
    + lia.
    + unfold cut, Buffer.byteLength in *. rewrite !length_app.
      cbn [Buffer.uint16BE length]. lia.
  - assert (Hpl : Buffer.byteLength padded = len).
    { unfold padded, Buffer.byteLength in *.
      rewrite length_app, repeat_length. lia. }
    assert (Hwf' : Forall wellFormed (rs ++ [mkWireParameter type padded])).
    { apply Forall_app. split; [exact Hwf|].
      apply Forall_cons; [|apply Forall_nil].
      split; cbn [wireType wireValue]; lia. }
    rewrite (fromExtensionBuffer_wireBuffer _ _ _ Hwf'), collect_app.
    destruct (collect rs []) as [values|e]; [|reflexivity].
    cbn [bind collect wireType wireValue]. unfold valueOf. rewrite Hpl.
    destruct (Z.ltb_spec 4 len); [|lia].
    unfold cut.
    replace (wireBuffer rs ++ Buffer.uint16BE type ++ Buffer.uint16BE len
             ++ partial)
      with ((wireBuffer rs ++ Buffer.uint16BE type ++ Buffer.uint16BE len)
            ++ partial) by (now rewrite <- !app_assoc).
    replace (Buffer.byteLength (wireBuffer rs) + 4)
      with (Buffer.byteLength
              (wireBuffer rs ++ Buffer.uint16BE type ++ Buffer.uint16BE len))
      by (unfold Buffer.byteLength; rewrite !length_app;
          cbn [Buffer.uint16BE length]; lia).
    rewrite allocCopy_truncated by (unfold Buffer.kMaxLength; lia).
    cbn [bind]. fold padded.
    destruct (inValues type values); reflexivity.
Qed.

Lemma truncated_value_witness :
  fromExtensionBuffer true
    (wireBuffer [] ++ Buffer.uint16BE IDLE_TIMEOUT ++ Buffer.uint16BE 2
     ++ [x1e]) [xff; x00; x00; x0c]
  = Some (Throw RangeError) /\
  fromExtensionBuffer true
    (wireBuffer [] ++ Buffer.uint16BE STATELESS_RESET_TOKEN
     ++ Buffer.uint16BE 16 ++ [x01; x02]) [xff; x00; x00; x0c]
  = fromExtensionBuffer true
      (wireBuffer
         ([] ++ [mkWireParameter STATELESS_RESET_TOKEN
                   ([x01; x02] ++ repeat x00 (Z.to_nat 16 - 2))]))
      [xff; x00; x00; x0c].
Proof.
  split.
  - apply (truncated_value true [xff; x00; x00; x0c] [] IDLE_TIMEOUT 2 [x1e]);
      [apply Forall_nil|apply NoDup_nil|vm_compute; intuition congruence
      |vm_compute; intuition congruence|lia].
  - apply (truncated_value true [xff; x00; x00; x0c] []
             STATELESS_RESET_TOKEN 16 [x01; x02]);
      [apply Forall_nil|apply NoDup_nil|vm_compute; intuition congruence
      |vm_compute; intuition congruence|lia].
Defined.

End TransportParamsMore.

Module TransportParamsWriteFacts.
Import TransportParams TransportParamsFacts TransportParamsIO.

Lemma uintBE_length (n : nat) : forall value,
  length (BufferWrite.uintBE n value) = n.
Proof.
  induction n as [|n IH]; intros value; cbn [BufferWrite.uintBE length];
    [reflexivity|].
  rewrite length_app, IH. cbn [length]. lia.
Qed.

Lemma fold_uintBE (n : nat) : forall value acc,
  0 <= value < 256 ^ Z.of_nat n ->
  fold_left (fun a x => a * 256 + Buffer.byte_val x)
    (BufferWrite.uintBE n value) acc
  = acc * 256 ^ Z.of_nat n + value.
Proof.
  induction n as [|n IH]; intros value acc Hv.
  - cbn [BufferWrite.uintBE fold_left]. change (256 ^ Z.of_nat 0) with 1 in *.
    lia.
  - cbn [BufferWrite.uintBE]. rewrite fold_left_app. cbn [fold_left].
    rewrite Nat2Z.inj_succ, Z.pow_succ_r in * by lia.
    rewrite IH by (split; [apply Z.div_pos; lia
                          |apply Z.div_lt_upper_bound; lia]).
    rewrite byte_val_byte_of by (apply Z.mod_pos_bound; lia).
    pose proof (Z.div_mod value 256 ltac:(lia)). lia.
Qed.

Lemma bigEndian_uintBE (n : nat) (value : Z) :
  0 <= value < 256 ^ Z.of_nat n ->
  Buffer.bigEndian (BufferWrite.uintBE n value) = value.
Proof.
  intros Hv. unfold Buffer.bigEndian. rewrite fold_uintBE by exact Hv. lia.
Qed.

(** Storing into the zeroes behind what has been written. *)
Lemma store_zeros (pre bytes : Buffer.t) (m : nat) :
  BufferWrite.store (pre ++ repeat x00 (length bytes + m))
    (Buffer.byteLength pre) bytes
  = Ok ((pre ++ bytes) ++ repeat x00 m).
Proof.
  unfold BufferWrite.store, Buffer.byteLength.
  destruct (Z.ltb_spec (Z.of_nat (length pre)) 0); [lia|].
  rewrite length_app, repeat_length.
  destruct (Z.ltb_spec (Z.of_nat (length pre + (length bytes + m)))
              (Z.of_nat (length pre) + Z.of_nat (length bytes))); [lia|].
  cbn [orb]. rewrite Nat2Z.id, firstn_length_app.
  rewrite skipn_app, skipn_all2 by lia. cbn [app].
  replace (length pre + length bytes - length pre)%nat with (length bytes)
    by lia.
  rewrite FrameParserMoreFacts.skipn_repeat.
  replace (length bytes + m - length bytes)%nat with m by lia.
  now rewrite <- app_assoc.
Qed.

Lemma writeUInt16BE_zeros (pre : Buffer.t) (value : Z) (m : nat) :
  0 <= value <= 65535 ->
  BufferWrite.writeUInt16BE (pre ++ repeat x00 (2 + m)) value
    (Buffer.byteLength pre)
  = Ok ((pre ++ Buffer.uint16BE value) ++ repeat x00 m).
Proof.
  intros Hv. unfold BufferWrite.writeUInt16BE.
  destruct (Z.ltb_spec value 0); [lia|].
  destruct (Z.ltb_spec 65535 value); [lia|].
  cbn [orb]. apply (store_zeros pre (Buffer.uint16BE value) m).
Qed.

Lemma writeTypeAndLength_zeros (pre : Buffer.t) (type len : Z) (m : nat) :
  0 <= type <= 65535 -> 0 <= len <= 65535 ->
  writeTypeAndLength type (pre ++ repeat x00 (4 + m)) (Buffer.byteLength pre)
    len
  = Ok (mkBufferOffset
          ((pre ++ Buffer.uint16BE type ++ Buffer.uint16BE len)
           ++ repeat x00 m)
          (Buffer.byteLength
             (pre ++ Buffer.uint16BE type ++ Buffer.uint16BE len))).
Proof.
  intros Ht Hl. unfold writeTypeAndLength.
  change (4 + m)%nat with (2 + (2 + m))%nat.
  rewrite writeUInt16BE_zeros by exact Ht. cbn [bind].
  replace (Buffer.byteLength pre + 2)
    with (Buffer.byteLength (pre ++ Buffer.uint16BE type))
    by (unfold Buffer.byteLength; rewrite length_app;
        cbn [Buffer.uint16BE length]; lia).
  rewrite writeUInt16BE_zeros by exact Hl. cbn [bind].
  rewrite <- !app_assoc. do 2 f_equal.
  unfold Buffer.byteLength. rewrite !length_app.
  cbn [Buffer.uint16BE length]. lia.
Qed.

Lemma getTransportParameterTypeByteSize_range (type : Z) :
  0 <= getTransportParameterTypeByteSize type <= 16.
Proof.
  unfold getTransportParameterTypeByteSize.
  repeat match goal with
         | |- context [if ?c then _ else _] => destruct c
         end; lia.
Qed.

Lemma valueBytes_length (size : Z) (value : option Value) :
  fitsSize size value -> Buffer.byteLength (valueBytes size value) = size.
Proof.
  intros [(b & -> & Hb & _)|(n & -> & _ & Hs)]; cbn [valueBytes numberOf];
    [exact Hb|].
  unfold Buffer.byteLength. rewrite uintBE_length. lia.
Qed.

(** What the parser makes of the value bytes is the value written: a
    [Buffer] of more than four bytes, or a number. *)
Lemma valueOf_valueBytes (size : Z) (value : Value) :
  fitsSize size (Some value) ->
  4 < size \/ (exists n, value = VNumber n) ->
  valueOf (valueBytes size (Some value)) = value.
Proof.
  intros Hfit Hkind. pose proof (valueBytes_length _ _ Hfit) as Hlen.
  unfold valueOf. rewrite Hlen.
  destruct Hfit as [(b & [= ->] & Hb & Hs)|(n & [= ->] & Hn & Hs)].
  - destruct Hkind as [Hbig|(n & Hn)]; [|discriminate].
    destruct (Z.ltb_spec 4 size); [reflexivity|lia].
  - destruct (Z.ltb_spec 4 size); [lia|].
    destruct (Z.ltb_spec 0 size); [|lia].
    cbn [valueBytes numberOf]. rewrite bigEndian_uintBE; [reflexivity|].
    replace (256 ^ Z.of_nat (Z.to_nat size)) with (2 ^ (8 * size)); [exact Hn|].
    rewrite Z2Nat.id by lia. change 256 with (2 ^ 8).
    rewrite <- Z.pow_mul_r by lia. reflexivity.
Qed.

(** One record written into the zeroes behind what has been written. *)
Lemma writeTransportParameter_zeros (pre : Buffer.t) (type : Z)
    (value : option Value) (k m : nat) :
  0 <= type <= 65535 ->
  fitsSize (getTransportParameterTypeByteSize type) value ->
  k = (4 + Z.to_nat (getTransportParameterTypeByteSize type))%nat ->
  writeTransportParameter type
    (mkBufferOffset (pre ++ repeat x00 (k + m)) (Buffer.byteLength pre)) value
  = Ok (mkBufferOffset
          ((pre ++ wireBytes (wireOf type value)) ++ repeat x00 m)
          (Buffer.byteLength (pre ++ wireBytes (wireOf type value)))).
Proof.
  intros Ht Hfit ->. unfold writeTransportParameter.
  pose proof (getTransportParameterTypeByteSize_range type) as Hs.
  pose proof (valueBytes_length _ _ Hfit) as Hlen.
  set (size := getTransportParameterTypeByteSize type) in *.
  cbn [buffer offset].
  replace (4 + Z.to_nat size + m)%nat with (4 + (Z.to_nat size + m))%nat
    by lia.
  rewrite writeTypeAndLength_zeros by lia. cbn [bind buffer offset].
  set (pre4 := pre ++ Buffer.uint16BE type ++ Buffer.uint16BE size).
  assert (Hbytes : wireBytes (wireOf type value)
                   = Buffer.uint16BE type ++ Buffer.uint16BE size
                     ++ valueBytes size value).
  { unfold wireBytes, wireOf. cbn [wireType wireValue]. fold size.
    now rewrite Hlen. }
  assert (Hwritten :
    match value with
    | Some (VBuffer value) =>
        BufferWrite.copyInto value (pre4 ++ repeat x00 (Z.to_nat size + m))
          (Buffer.byteLength pre4)
    | _ =>
        BufferWrite.writeUIntBE (pre4 ++ repeat x00 (Z.to_nat size + m))
          (numberOf value) (Buffer.byteLength pre4) size
    end = Ok ((pre4 ++ valueBytes size value) ++ repeat x00 m)).
  { assert (Hn : Z.to_nat size = length (valueBytes size value))
      by (unfold Buffer.byteLength in Hlen; lia).
    destruct Hfit as [(b & -> & Hb & Hpos)|(n & -> & Hn' & Hs')].
    - cbn [valueBytes] in *. unfold BufferWrite.copyInto.
      pose proof (BufferFacts.byteLength_nonneg pre4).
      destruct (Z.ltb_spec (Buffer.byteLength pre4) 0); [lia|].
      assert (Hroom : Buffer.byteLength
                        (pre4 ++ repeat x00 (Z.to_nat size + m))
                      = Buffer.byteLength pre4 + size + Z.of_nat m)
        by (unfold Buffer.byteLength; rewrite length_app, repeat_length; lia).
      rewrite Hroom.
      destruct (Z.leb_spec (Buffer.byteLength pre4 + size + Z.of_nat m)
                  (Buffer.byteLength pre4)); [lia|].
      destruct (Z.leb_spec (Buffer.byteLength b) 0); [lia|].
      cbn [orb]. rewrite firstn_all2 by (unfold Buffer.byteLength in *; lia).
      rewrite Hn. apply store_zeros.
    - cbn [valueBytes numberOf] in *. unfold BufferWrite.writeUIntBE.
      destruct (Z.ltb_spec size 1); [lia|].
      destruct (Z.ltb_spec 6 size); [lia|].
      destruct (Z.ltb_spec n 0); [lia|].
      destruct (Z.leb_spec (2 ^ (8 * size)) n); [lia|].
      cbn [orb]. rewrite Hn at 1. apply store_zeros. }
  rewrite Hwritten. cbn [bind]. rewrite Hbytes. unfold pre4.
  rewrite <- !app_assoc. do 2 f_equal.
  unfold Buffer.byteLength in *. rewrite !length_app.
  cbn [Buffer.uint16BE length]. lia.
Qed.

Lemma when_write_zeros (cond : bool) (pre : Buffer.t) (type : Z)
    (value : option Value) (k m : nat) :
  0 <= type <= 65535 ->
  (cond = true -> fitsSize (getTransportParameterTypeByteSize type) value) ->
  k = (4 + Z.to_nat (getTransportParameterTypeByteSize type))%nat ->
  let bytes := if cond then wireBytes (wireOf type value) else [] in
  when cond
    (fun bufferOffset => writeTransportParameter type bufferOffset value)
    (mkBufferOffset (pre ++ repeat x00 ((if cond then k else 0) + m))
       (Buffer.byteLength pre))
  = Ok (mkBufferOffset ((pre ++ bytes) ++ repeat x00 m)
          (Buffer.byteLength (pre ++ bytes))).
Proof.
  intros Ht Hfit Hk bytes. subst bytes. destruct cond; cbn [when].
  - apply writeTransportParameter_zeros; auto.
  - cbn [plus]. now rewrite app_nil_r.
Qed.

Lemma when_zero_length_zeros (cond : bool) (pre : Buffer.t) (type : Z)
    (m : nat) :
  0 <= type <= 65535 ->
  let bytes := if cond then wireBytes (mkWireParameter type []) else [] in
  when cond (writeZeroLengthTransportParameter type)
    (mkBufferOffset (pre ++ repeat x00 ((if cond then 4 else 0) + m))
       (Buffer.byteLength pre))
  = Ok (mkBufferOffset ((pre ++ bytes) ++ repeat x00 m)
          (Buffer.byteLength (pre ++ bytes))).
Proof.
  intros Ht bytes. subst bytes. destruct cond; cbn [when].
  - unfold writeZeroLengthTransportParameter. cbn [buffer offset].
    rewrite writeTypeAndLength_zeros by lia.
    unfold wireBytes. cbn [wireType wireValue].
    change (Buffer.byteLength []) with 0. now rewrite !app_nil_r.
  - cbn [plus]. now rewrite app_nil_r.
Qed.

Lemma flat_map_if {A B : Type} (f : A -> list B) (cond : bool) (a : A) :
  flat_map f (if cond then [a] else []) = if cond then f a else [].
Proof. destruct cond; cbn [flat_map]; [apply app_nil_r|reflexivity]. Qed.

Lemma numberBelow_fitsSize (size : Z) (v : Value) :
  1 <= size <= 4 -> numberBelow (2 ^ (8 * size)) v -> fitsSize size (Some v).
Proof. intros Hs (n & -> & Hn). right. exists n. auto. Qed.

Lemma optional_fitsSize (size : Z) (value : option Value) :
  1 <= size <= 4 -> optionalNumberBelow (2 ^ (8 * size)) value ->
  isDefined value = true -> fitsSize size value.
Proof.
  intros Hs Hv Hd. destruct value as [v|]; [|discriminate].
  now apply numberBelow_fitsSize.
Qed.

Lemma token_fitsSize (tp : TransportParameters) :
  fitsSizes tp -> isServer tp = true ->
  fitsSize 16 (statelessResetToken tp).
Proof.
  intros (_ & _ & _ & _ & _ & Htoken & _) Hsrv.
  destruct (Htoken Hsrv) as (token & -> & Hlen).
  left. exists token. unfold Buffer.byteLength. rewrite Hlen.
  repeat split; lia.
Qed.

Lemma wireOf_length (type : Z) (value : option Value) :
  fitsSize (getTransportParameterTypeByteSize type) value ->
  length (wireBytes (wireOf type value))
  = (4 + Z.to_nat (getTransportParameterTypeByteSize type))%nat.
Proof.
  intros Hfit. pose proof (wireBytes_length (wireOf type value)) as Hw.
  unfold wireOf at 2 in Hw. cbn [wireValue] in Hw.
  rewrite (valueBytes_length _ _ Hfit) in Hw.
  pose proof (getTransportParameterTypeByteSize_range type).
  unfold Buffer.byteLength in Hw. lia.
Qed.

Lemma wireOf_length_if (cond : bool) (type : Z) (value : option Value) :
  (cond = true -> fitsSize (getTransportParameterTypeByteSize type) value) ->
  length (if cond then wireBytes (wireOf type value) else [])
  = if cond
    then (4 + Z.to_nat (getTransportParameterTypeByteSize type))%nat
    else 0%nat.
Proof.
  destruct cond; intros Hfit; [apply wireOf_length; auto|reflexivity].
Qed.

(** The serialisation of parameters that fit their sizes. *)
Lemma getTransportParametersBuffer_wire (tp : TransportParameters) :
  fitsSizes tp ->
  getTransportParametersBuffer tp = Ok (wireBuffer (wireParameters tp)) /\
  Buffer.byteLength (wireBuffer (wireParameters tp)) = getBufferSize tp.
Proof.
  intros Hfit. pose proof (token_fitsSize tp Hfit) as Htoken.
  destruct Hfit as (H1 & H2 & H3 & H4 & H5 & _ & H7 & H8 & H9 & H10).
  assert (Hsize : getBufferSize tp
    = Z.of_nat
        (8 + (8 + (8 + (8 + (6
         + ((if isServer tp then 20 else 0)
            + ((if isDefined (maxStreamIdBidi tp) then 6 else 0)
               + ((if isDefined (maxStreamIdUni tp) then 6 else 0)
                  + ((if isDefined (maxPacketSize tp) then 6 else 0)
                     + ((if isDefined (ackDelayExponent tp) then 5 else 0)
                        + ((if truthy (disableMigration tp) then 4 else 0)
                           + 0)))))))))))%nat).
  { unfold getBufferSize.
    destruct (isServer tp), (isDefined (maxStreamIdBidi tp)),
      (isDefined (maxStreamIdUni tp)), (isDefined (maxPacketSize tp)),
      (isDefined (ackDelayExponent tp)), (truthy (disableMigration tp));
      reflexivity. }
  assert (Hwritten :
    getTransportParametersBuffer tp = Ok (wireBuffer (wireParameters tp))).
  { unfold getTransportParametersBuffer. rewrite Hsize.
    match goal with
    | |- context [Buffer.alloc (Z.of_nat ?n)] =>
        assert (Halloc : Buffer.alloc (Z.of_nat n) = Ok ([] ++ repeat x00 n))
    end.
    { unfold Buffer.alloc. rewrite Nat2Z.id.
      match goal with
      | |- context [(?a <? 0) || (Buffer.kMaxLength <? ?a)] =>
          destruct (Z.ltb_spec a 0); [lia|];
          destruct (Z.ltb_spec Buffer.kMaxLength a); [|reflexivity]
      end.
      unfold Buffer.kMaxLength in *.
      destruct (isServer tp), (isDefined (maxStreamIdBidi tp)),
        (isDefined (maxStreamIdUni tp)), (isDefined (maxPacketSize tp)),
        (isDefined (ackDelayExponent tp)), (truthy (disableMigration tp));
        cbn in *; lia. }
    rewrite Halloc. cbn [bind].
    change 0 with (Buffer.byteLength []) at 1.
    rewrite (writeTransportParameter_zeros _ _ _ 8);
      [|vm_compute; split; discriminate|apply (numberBelow_fitsSize 4); [lia|exact H1]|reflexivity].
    cbn [bind].
    rewrite (writeTransportParameter_zeros _ _ _ 8);
      [|vm_compute; split; discriminate|apply (numberBelow_fitsSize 4); [lia|exact H2]|reflexivity].
    cbn [bind].
    rewrite (writeTransportParameter_zeros _ _ _ 8);
      [|vm_compute; split; discriminate|apply (numberBelow_fitsSize 4); [lia|exact H3]|reflexivity].
    cbn [bind].
    rewrite (writeTransportParameter_zeros _ _ _ 8);
      [|vm_compute; split; discriminate|apply (numberBelow_fitsSize 4); [lia|exact H4]|reflexivity].
    cbn [bind].
    rewrite (writeTransportParameter_zeros _ _ _ 6);
      [|vm_compute; split; discriminate|apply (numberBelow_fitsSize 2); [lia|exact H5]|reflexivity].
    cbn [bind].
    rewrite (when_write_zeros _ _ _ _ 20);
      [|vm_compute; split; discriminate|exact Htoken|reflexivity].
    cbn [bind].
    rewrite (when_write_zeros _ _ _ _ 6);
      [|vm_compute; split; discriminate|apply (optional_fitsSize 2); [lia|exact H7]|reflexivity].
    cbn [bind].
    rewrite (when_write_zeros _ _ _ _ 6);
      [|vm_compute; split; discriminate|apply (optional_fitsSize 2); [lia|exact H8]|reflexivity].
    cbn [bind].
    rewrite (when_write_zeros _ _ _ _ 6);
      [|vm_compute; split; discriminate|apply (optional_fitsSize 2); [lia|exact H9]|reflexivity].
    cbn [bind].
    rewrite (when_write_zeros _ _ _ _ 5);
      [|vm_compute; split; discriminate|apply (optional_fitsSize 1); [lia|exact H10]|reflexivity].
    cbn [bind].
    rewrite when_zero_length_zeros by (vm_compute; split; discriminate).
    cbn [bind buffer repeat].
    unfold wireBuffer, wireParameters.
    rewrite !flat_map_app, !flat_map_if. cbn [flat_map].
    rewrite <- !app_assoc, !app_nil_r. cbn [app]. reflexivity. }
  split; [exact Hwritten|].
  rewrite Hsize. unfold Buffer.byteLength. f_equal.
  unfold wireBuffer, wireParameters.
  rewrite !flat_map_app, !flat_map_if. cbn [flat_map].
  rewrite !length_app.
  rewrite (wireOf_length INITIAL_MAX_STREAM_DATA_BIDI_LOCAL)
    by (apply (numberBelow_fitsSize 4); [lia|exact H1]).
  rewrite (wireOf_length INITIAL_MAX_STREAM_DATA_BIDI_REMOTE)
    by (apply (numberBelow_fitsSize 4); [lia|exact H2]).
  rewrite (wireOf_length INITIAL_MAX_STREAM_DATA_UNI)
    by (apply (numberBelow_fitsSize 4); [lia|exact H3]).
  rewrite (wireOf_length INITIAL_MAX_DATA)
    by (apply (numberBelow_fitsSize 4); [lia|exact H4]).
  rewrite (wireOf_length IDLE_TIMEOUT)
    by (apply (numberBelow_fitsSize 2); [lia|exact H5]).
  rewrite (wireOf_length_if (isServer tp) STATELESS_RESET_TOKEN)
    by exact Htoken.
  rewrite (wireOf_length_if _ INITIAL_MAX_BIDI_STREAMS)
    by (apply (optional_fitsSize 2); [lia|exact H7]).
  rewrite (wireOf_length_if _ INITIAL_MAX_UNI_STREAMS)
    by (apply (optional_fitsSize 2); [lia|exact H8]).
  rewrite (wireOf_length_if _ MAX_PACKET_SIZE)
    by (apply (optional_fitsSize 2); [lia|exact H9]).
  rewrite (wireOf_length_if _ ACK_DELAY_EXPONENT)
    by (apply (optional_fitsSize 1); [lia|exact H10]).
  destruct (isServer tp), (isDefined (maxStreamIdBidi tp)),
    (isDefined (maxStreamIdUni tp)), (isDefined (maxPacketSize tp)),
    (isDefined (ackDelayExponent tp)), (truthy (disableMigration tp));
    reflexivity.
Qed.

Lemma number_valueOf (size : Z) (v : Value) :
  1 <= size <= 4 -> numberBelow (2 ^ (8 * size)) v ->
  valueOf (valueBytes size (Some v)) = v.
Proof.
  intros Hs Hv. apply valueOf_valueBytes.
  - now apply numberBelow_fitsSize.
  - right. destruct Hv as (n & -> & _). now exists n.
Qed.

Lemma Forall_if {A : Type} (P : A -> Prop) (cond : bool) (a : A) :
  (cond = true -> P a) -> Forall P (if cond then [a] else []).
Proof. destruct cond; intros H; [|constructor]. constructor; auto. Qed.

Lemma wireOf_wellFormed (type : Z) (value : option Value) :
  0 <= type < 65536 ->
  fitsSize (getTransportParameterTypeByteSize type) value ->
  wellFormed (wireOf type value).
Proof.
  intros Ht Hfit. split; [exact Ht|]. unfold wireOf. cbn [wireValue].
  rewrite (valueBytes_length _ _ Hfit).
  pose proof (getTransportParameterTypeByteSize_range type). lia.
Qed.

Lemma wireParameters_wellFormed (tp : TransportParameters) :
  fitsSizes tp -> Forall wellFormed (wireParameters tp).
Proof.
  intros Hfit. pose proof (token_fitsSize tp Hfit) as Htoken.
  destruct Hfit as (H1 & H2 & H3 & H4 & H5 & _ & H7 & H8 & H9 & H10).
  unfold wireParameters.
  repeat first
    [ apply Forall_app; split
    | apply Forall_cons
    | apply Forall_nil
    | apply Forall_if; intros Hcond ].
  - apply wireOf_wellFormed; [vm_compute; split; [discriminate|reflexivity]|].
    apply (numberBelow_fitsSize 4); [lia|exact H1].
  - apply wireOf_wellFormed; [vm_compute; split; [discriminate|reflexivity]|].
    apply (numberBelow_fitsSize 4); [lia|exact H2].
  - apply wireOf_wellFormed; [vm_compute; split; [discriminate|reflexivity]|].
    apply (numberBelow_fitsSize 4); [lia|exact H3].
  - apply wireOf_wellFormed; [vm_compute; split; [discriminate|reflexivity]|].
    apply (numberBelow_fitsSize 4); [lia|exact H4].
  - apply wireOf_wellFormed; [vm_compute; split; [discriminate|reflexivity]|].
    apply (numberBelow_fitsSize 2); [lia|exact H5].
  - apply wireOf_wellFormed; [vm_compute; split; [discriminate|reflexivity]|].
    exact (Htoken Hcond).
  - apply wireOf_wellFormed; [vm_compute; split; [discriminate|reflexivity]|].
    apply (optional_fitsSize 2); [lia|exact H7|exact Hcond].
  - apply wireOf_wellFormed; [vm_compute; split; [discriminate|reflexivity]|].
    apply (optional_fitsSize 2); [lia|exact H8|exact Hcond].
  - apply wireOf_wellFormed; [vm_compute; split; [discriminate|reflexivity]|].
    apply (optional_fitsSize 2); [lia|exact H9|exact Hcond].
  - apply wireOf_wellFormed; [vm_compute; split; [discriminate|reflexivity]|].
    apply (optional_fitsSize 1); [lia|exact H10|exact Hcond].
  - split; vm_compute; [split; [discriminate|reflexivity]|reflexivity].
Qed.

(** The records of parameters that fit their sizes, collected and
    applied to fresh parameters, give the parameters back. *)
Lemma collect_wireParameters (tp : TransportParameters) :
  fitsSizes tp ->
  (isServer tp = false -> statelessResetToken tp = None) ->
  disableMigration tp = None \/ disableMigration tp = Some VTrue ->
  (values <- collect (wireParameters tp) [] ;;
   Ok (applyValues values (new (isServer tp) 0 0 0 (version tp))))
  = Ok tp.
Proof.
  intros Hfit Hclient Hmig.
  destruct Hfit as (H1 & H2 & H3 & H4 & H5 & Htoken & H7 & H8 & H9 & H10).
  apply (number_valueOf 4) in H1; [|lia].
  apply (number_valueOf 4) in H2; [|lia].
  apply (number_valueOf 4) in H3; [|lia].
  apply (number_valueOf 4) in H4; [|lia].
  apply (number_valueOf 2) in H5; [|lia].
  destruct tp as [srv v1 v2 v3 v4 o1 o2 v5 o3 tok o4 mig ver].
  cbn [isServer maxStreamDataBidiLocal maxStreamDataBidiRemote
       maxStreamDataUni maxData maxStreamIdBidi maxStreamIdUni idleTimeout
       maxPacketSize statelessResetToken ackDelayExponent disableMigration
       version] in *.
  assert (Htok : match tok with
                 | Some v => srv = true /\ valueOf (valueBytes 16 (Some v)) = v
                 | None => srv = false
                 end).
  { destruct srv.
    - destruct (Htoken eq_refl) as (token & -> & Hlen). split; [reflexivity|].
      apply valueOf_valueBytes; [|left; lia].
      left. exists token. unfold Buffer.byteLength. rewrite Hlen.
      repeat split; lia.
    - now rewrite (Hclient eq_refl). }
  clear Htoken Hclient.
  assert (Hopt : forall size o,
             1 <= size <= 4 -> optionalNumberBelow (2 ^ (8 * size)) o ->
             match o with
             | Some v => valueOf (valueBytes size (Some v)) = v
             | None => True
             end).
  { intros size [v|] Hs Hv; [|exact I]. now apply number_valueOf. }
  apply (Hopt 2) in H7; [|lia]. apply (Hopt 2) in H8; [|lia].
  apply (Hopt 2) in H9; [|lia]. apply (Hopt 1) in H10; [|lia].
  clear Hopt. unfold wireParameters.
  cbn [isServer maxStreamDataBidiLocal maxStreamDataBidiRemote
       maxStreamDataUni maxData maxStreamIdBidi maxStreamIdUni idleTimeout
       maxPacketSize statelessResetToken ackDelayExponent disableMigration
       version].
  destruct tok as [token|]; [destruct Htok as [-> Htok]|subst srv];
    destruct o1 as [w1|], o2 as [w2|], o3 as [w3|], o4 as [w4|];
    destruct Hmig as [-> | ->];
    cbn [isDefined truthy app collect wireType wireValue wireOf];
    change (getTransportParameterTypeByteSize
              INITIAL_MAX_STREAM_DATA_BIDI_LOCAL) with 4;
    change (getTransportParameterTypeByteSize
              INITIAL_MAX_STREAM_DATA_BIDI_REMOTE) with 4;
    change (getTransportParameterTypeByteSize INITIAL_MAX_STREAM_DATA_UNI)
      with 4;
    change (getTransportParameterTypeByteSize INITIAL_MAX_DATA) with 4;
    change (getTransportParameterTypeByteSize IDLE_TIMEOUT) with 2;
    change (getTransportParameterTypeByteSize STATELESS_RESET_TOKEN) with 16;
    change (getTransportParameterTypeByteSize INITIAL_MAX_BIDI_STREAMS)
      with 2;
    change (getTransportParameterTypeByteSize INITIAL_MAX_UNI_STREAMS) with 2;
    change (getTransportParameterTypeByteSize MAX_PACKET_SIZE) with 2;
    change (getTransportParameterTypeByteSize ACK_DELAY_EXPONENT) with 1;
    rewrite H1, H2, H3, H4, H5, ?H7, ?H8, ?H9, ?H10, ?Htok;
    reflexivity.
Qed.

End TransportParamsWriteFacts.

Module TransportParamsWrite.
Import TransportParams TransportParamsFacts TransportParamsIO
  TransportParamsWriteFacts.

(** X20: what is serialised.  For parameters whose values fit the sizes
    of their types, [getTransportParametersBuffer] raises nothing and
    returns the records [type | length | value] of the parameters in
    its fixed order, which fill the buffer of [getBufferSize] bytes
    exactly. *)
Theorem serialised_records (tp : TransportParameters) :
  fitsSizes tp ->
  getTransportParametersBuffer tp = Ok (wireBuffer (wireParameters tp)) /\
  Buffer.byteLength (wireBuffer (wireParameters tp)) = getBufferSize tp.
Proof. apply getTransportParametersBuffer_wire. Qed.

Lemma serialised_records_witness :
  getTransportParametersBuffer sampleServerParameters
  = Ok (wireBuffer (wireParameters sampleServerParameters)) /\
  Buffer.byteLength (wireBuffer (wireParameters sampleServerParameters))
  = getBufferSize sampleServerParameters.
Proof.
  apply serialised_records.
  unfold fitsSizes, sampleServerParameters.
  cbn [isServer maxStreamDataBidiLocal maxStreamDataBidiRemote
       maxStreamDataUni maxData maxStreamIdBidi maxStreamIdUni idleTimeout
       maxPacketSize statelessResetToken ackDelayExponent].
  repeat match goal with
         | |- _ /\ _ => split
         | |- numberBelow _ _ => eexists; split; [reflexivity|lia]
         | |- optionalNumberBelow _ None => exact I
         | |- optionalNumberBelow _ (Some _) =>
             eexists; split; [reflexivity|lia]
         | |- _ -> _ => intros _; eexists; split; reflexivity
         end.
Defined.

(** X21: writing then parsing.  Parameters whose values fit the sizes of
    their types, with a reset token only on a server and a migration
    flag that is absent or [true], are what [fromExtensionBuffer] reads
    back from the buffer [getTransportParametersBuffer] writes for
    them. *)
Theorem write_parse_round_trip (tp : TransportParameters) :
  fitsSizes tp ->
  (isServer tp = false -> statelessResetToken tp = None) ->
  disableMigration tp = None \/ disableMigration tp = Some VTrue ->
  exists written,
    getTransportParametersBuffer tp = Ok written /\
    fromExtensionBuffer (isServer tp) written (version tp) = Some (Ok tp).
Proof.
  intros Hfit Hclient Hmig.
  exists (wireBuffer (wireParameters tp)).
  split; [apply getTransportParametersBuffer_wire, Hfit|].
  rewrite fromExtensionBuffer_wireBuffer
    by apply wireParameters_wellFormed, Hfit.
  now rewrite collect_wireParameters.
Qed.

Lemma write_parse_round_trip_witness :
  exists written,
    getTransportParametersBuffer sampleServerParameters = Ok written /\
    fromExtensionBuffer (isServer sampleServerParameters) written
      (version sampleServerParameters)
    = Some (Ok sampleServerParameters).
Proof.
  apply write_parse_round_trip.
  - unfold fitsSizes, sampleServerParameters.
    cbn [isServer maxStreamDataBidiLocal maxStreamDataBidiRemote
         maxStreamDataUni maxData maxStreamIdBidi maxStreamIdUni idleTimeout
         maxPacketSize statelessResetToken ackDelayExponent].
    repeat match goal with
           | |- _ /\ _ => split
           | |- numberBelow _ _ => eexists; split; [reflexivity|lia]
           | |- optionalNumberBelow _ None => exact I
           | |- optionalNumberBelow _ (Some _) =>
               eexists; split; [reflexivity|lia]
           | |- _ -> _ => intros _; eexists; split; reflexivity
           end.
  - discriminate.
  - right. reflexivity.
Defined.

End TransportParamsWrite.

Module TransportParamsVersionFacts.
Import TransportParams TransportParamsFacts TransportParamsIO.

(** The two digits of a byte read back as the byte. *)
Lemma fromHex_byte (b : byte) (rest : list byte) :
  fromHex (hexDigit (Buffer.byte_val b / 16)
           :: hexDigit (Buffer.byte_val b mod 16) :: rest)
  = b :: fromHex rest.
Proof. destruct b; reflexivity. Qed.

(** Two rounds of the digit loop take the last byte off the number. *)
Lemma toString16_digits_byte (fuel : nat) (x : Z) (b : byte)
    (digits : list byte) :
  0 <= x ->
  toString16_digits (S (S fuel)) (x * 256 + Buffer.byte_val b) digits
  = let digits := hexDigit (Buffer.byte_val b / 16)
                  :: hexDigit (Buffer.byte_val b mod 16) :: digits in
    if x =? 0 then
      if Buffer.byte_val b / 16 =? 0 then tl digits else digits
    else toString16_digits fuel x digits.
Proof.
  intros Hx. pose proof (BufferFacts.byte_val_range b) as Hb.
  set (v := Buffer.byte_val b) in *.
  assert (Hmod : (x * 256 + v) mod 16 = v mod 16).
  { replace (x * 256 + v) with (v + (x * 16) * 16) by lia.
    apply Z.mod_add. lia. }
  assert (Hdiv : (x * 256 + v) / 16 = x * 16 + v / 16).
  { replace (x * 256 + v) with (v + (x * 16) * 16) by lia.
    rewrite Z.div_add by lia. lia. }
  assert (Hv16 : 0 <= v / 16 < 16)
    by (split; [apply Z.div_pos; lia|apply Z.div_lt_upper_bound; lia]).
  assert (Hmod2 : (x * 16 + v / 16) mod 16 = v / 16).
  { replace (x * 16 + v / 16) with (v / 16 + x * 16) by lia.
    rewrite Z.mod_add by lia. apply Z.mod_small. exact Hv16. }
  assert (Hdiv2 : (x * 16 + v / 16) / 16 = x).
  { replace (x * 16 + v / 16) with (v / 16 + x * 16) by lia.
    rewrite Z.div_add by lia. rewrite Z.div_small by exact Hv16. lia. }
  cbn [toString16_digits]. rewrite Hmod, Hdiv.
  cbv zeta. cbn [tl].
  destruct (Z.eqb_spec x 0) as [->|Hx0].
  - cbn [Z.mul Z.add].
    destruct (Z.eqb_spec (v / 16) 0) as [E|E]; [reflexivity|].
    rewrite Z.mod_small by exact Hv16.
    rewrite (Z.div_small (v / 16)) by exact Hv16. reflexivity.
  - destruct (Z.eqb_spec (x * 16 + v / 16) 0); [lia|].
    rewrite Hmod2, Hdiv2.
    destruct (Z.eqb_spec x 0); [lia|]. reflexivity.
Qed.

Lemma readUInt32BE_bytes (b0 b1 b2 b3 : byte) (rest : Buffer.t) :
  readUInt32BE (b0 :: b1 :: b2 :: b3 :: rest) 0
  = Ok (((Buffer.byte_val b0 * 256 + Buffer.byte_val b1) * 256
         + Buffer.byte_val b2) * 256 + Buffer.byte_val b3).
Proof.
  unfold readUInt32BE.
  pose proof (readBE_app [b0; b1; b2; b3] [] rest 0) as H.
  cbn [length app fold_left] in H. change (Buffer.byteLength []) with 0 in H.
  rewrite H. f_equal.
Qed.

Lemma slice_from_4 (b0 b1 b2 b3 : byte) (rest : Buffer.t) :
  Buffer.slice (b0 :: b1 :: b2 :: b3 :: rest) 4
    (Buffer.byteLength (b0 :: b1 :: b2 :: b3 :: rest))
  = rest.
Proof.
  unfold Buffer.slice. rewrite Z.min_id.
  change (Z.max 0 4) with 4. change (Z.to_nat 4) with 4%nat.
  cbn [skipn].
  replace (Z.to_nat _) with (length rest)
    by (unfold Buffer.byteLength; cbn [length]; lia).
  apply firstn_all.
Qed.

End TransportParamsVersionFacts.

Module TransportParamsVersion.
Import TransportParams TransportParamsFacts TransportParamsIO
  TransportParamsVersionFacts.

(** X22: the version [fromBuffer] reads.  On a buffer of fewer than four
    bytes it raises a [RangeError].  When the first byte is at least
    0x10, the version is the first four bytes and the parameters are
    those of the bytes behind them.  When the first byte is zero and the
    second at least 0x10, the hexadecimal text of the number has six
    digits only, and the version is the three bytes behind the first:
    the zero byte is lost. *)
Theorem fromBuffer_version (isServer0 : bool) :
  (forall buffer, (length buffer < 4)%nat ->
     fromBuffer isServer0 buffer = Some (Throw RangeError)) /\
  (forall b0 b1 b2 b3 rest, 16 <= Buffer.byte_val b0 ->
     fromBuffer isServer0 (b0 :: b1 :: b2 :: b3 :: rest)
     = fromExtensionBuffer isServer0 rest [b0; b1; b2; b3]) /\
  (forall b1 b2 b3 rest, 16 <= Buffer.byte_val b1 ->
     fromBuffer isServer0 (x00 :: b1 :: b2 :: b3 :: rest)
     = fromExtensionBuffer isServer0 rest [b1; b2; b3]).
Proof.
  split; [|split].
  - intros buffer Hlen. unfold fromBuffer, readUInt32BE.
    rewrite TransportParamsMoreFacts.readBE_short;
      [reflexivity|lia|lia|unfold Buffer.byteLength; lia].
  - intros b0 b1 b2 b3 rest Hb0. unfold fromBuffer.
    rewrite readUInt32BE_bytes, slice_from_4. cbv zeta. f_equal.
    pose proof (BufferFacts.byte_val_range b0).
    pose proof (BufferFacts.byte_val_range b1).
    pose proof (BufferFacts.byte_val_range b2).
    unfold toString16.
    rewrite toString16_digits_byte by lia. cbv zeta.
    destruct (Z.eqb_spec ((Buffer.byte_val b0 * 256 + Buffer.byte_val b1)
                          * 256 + Buffer.byte_val b2) 0); [lia|].
    rewrite toString16_digits_byte by lia. cbv zeta.
    destruct (Z.eqb_spec (Buffer.byte_val b0 * 256 + Buffer.byte_val b1) 0);
      [lia|].
    rewrite toString16_digits_byte by lia. cbv zeta.
    destruct (Z.eqb_spec (Buffer.byte_val b0) 0); [lia|].
    replace (Buffer.byte_val b0) with (0 * 256 + Buffer.byte_val b0) at 1
      by lia.
    rewrite toString16_digits_byte by lia. cbv zeta.
    change (0 =? 0) with true. cbv iota.
    destruct (Z.eqb_spec (Buffer.byte_val b0 / 16) 0) as [E|_].
    + pose proof (Z.div_mod (Buffer.byte_val b0) 16 ltac:(lia)).
      pose proof (Z.mod_pos_bound (Buffer.byte_val b0) 16 ltac:(lia)). lia.
    + now rewrite !fromHex_byte.
  - intros b1 b2 b3 rest Hb1. unfold fromBuffer.
    rewrite readUInt32BE_bytes, slice_from_4. cbv zeta. f_equal.
    pose proof (BufferFacts.byte_val_range b1).
    pose proof (BufferFacts.byte_val_range b2).
    change (Buffer.byte_val x00) with 0. unfold toString16.
    rewrite toString16_digits_byte by lia. cbv zeta.
    destruct (Z.eqb_spec ((0 * 256 + Buffer.byte_val b1) * 256
                          + Buffer.byte_val b2) 0); [lia|].
    rewrite toString16_digits_byte by lia. cbv zeta.
    destruct (Z.eqb_spec (0 * 256 + Buffer.byte_val b1) 0); [lia|].
    rewrite toString16_digits_byte by lia. cbv zeta.
    change (0 =? 0) with true. cbv iota.
    destruct (Z.eqb_spec (Buffer.byte_val b1 / 16) 0) as [E|_].
    + pose proof (Z.div_mod (Buffer.byte_val b1) 16 ltac:(lia)).
      pose proof (Z.mod_pos_bound (Buffer.byte_val b1) 16 ltac:(lia)). lia.
    + now rewrite !fromHex_byte.
Qed.

Lemma fromBuffer_version_witness :
  fromBuffer true [xff; x00] = Some (Throw RangeError) /\
  fromBuffer true [xff; x00; x00; x0c; x00; x05; x00; x02; x00; x1e]
  = fromExtensionBuffer true [x00; x05; x00; x02; x00; x1e]
      [xff; x00; x00; x0c] /\
  fromBuffer true [x00; xff; x00; x0c; x00; x05; x00; x02; x00; x1e]
  = fromExtensionBuffer true [x00; x05; x00; x02; x00; x1e]
      [xff; x00; x0c].
Proof.
  destruct (fromBuffer_version true) as (Hshort & Hfull & Hlost).
  split; [apply Hshort; cbn [length]; lia|].
  split; [apply Hfull|apply Hlost]; vm_compute; discriminate.
Defined.

End TransportParamsVersion.

Module PacketParserFacts.
Import PacketParser.

(** The loop of [parseVersionNegotiationPacket] from an offset within
    reach of the fuel. *)
Lemma parseVersionNegotiationPacket_while_versions (buffer : Buffer.t) :
  forall (fuel : nat) (offset : Z) (acc : list Version),
    0 <= offset ->
    Buffer.byteLength buffer - offset <= 4 * Z.of_nat fuel ->
    exists versions,
      parseVersionNegotiationPacket_while fuel buffer offset acc
      = Some (acc ++ versions, offset + 4 * Z.of_nat (length versions)) /\
      concat versions = skipn (Z.to_nat offset) buffer /\
      Forall (fun v => (1 <= length v <= 4)%nat) versions /\
      Forall (fun v => length v = 4%nat) (removelast versions) /\
      (Buffer.byteLength buffer <= offset -> versions = []).
Proof.
  induction fuel as [|fuel IH]; intros offset acc Ho Hfuel.
  - exists []. cbn [parseVersionNegotiationPacket_while].
    destruct (Z.ltb_spec offset (Buffer.byteLength buffer)); [lia|].
    rewrite app_nil_r. cbn [length concat removelast].
    repeat split; auto; [do 2 f_equal; lia|].
    symmetry. apply skipn_all2. unfold Buffer.byteLength in *. lia.
  - cbn [parseVersionNegotiationPacket_while].
    destruct (Z.ltb_spec offset (Buffer.byteLength buffer)) as [Hlt|Hge].
    + destruct (IH (offset + 4)
                  (acc ++ [Buffer.slice buffer offset (offset + 4)])
                  ltac:(lia) ltac:(lia))
        as (versions & -> & Hcat & Hlen & Hfull & Hnone).
      set (rest := skipn (Z.to_nat offset) buffer).
      assert (Hrest : length rest = (length buffer - Z.to_nat offset)%nat)
        by apply length_skipn.
      assert (Hslice : Buffer.slice buffer offset (offset + 4)
                       = firstn 4 rest).
      { unfold Buffer.slice. rewrite Z.max_r by lia. fold rest.
        destruct (Z.le_ge_cases (offset + 4) (Buffer.byteLength buffer)).
        - rewrite Z.min_l by lia. f_equal. lia.
        - rewrite Z.min_r by lia.
          rewrite !firstn_all2; auto; unfold Buffer.byteLength in *; lia. }
      assert (Hnext : skipn (Z.to_nat (offset + 4)) buffer = skipn 4 rest).
      { unfold rest. rewrite skipn_skipn. f_equal. lia. }
      exists (Buffer.slice buffer offset (offset + 4) :: versions).
      rewrite <- app_assoc. cbn [app length concat].
      split; [do 2 f_equal; lia|].
      split; [rewrite Hcat, Hslice, Hnext; apply firstn_skipn|].
      assert (Hv : (1 <= length (Buffer.slice buffer offset (offset + 4))
                    <= 4)%nat).
      { rewrite Hslice, length_firstn. unfold Buffer.byteLength in *. lia. }
      split; [constructor; assumption|].
      split; [|lia].
      destruct versions as [|v versions]; [constructor|].
      change (removelast (?a :: v :: versions))
        with (a :: removelast (v :: versions)).
      constructor; [|exact Hfull].
      rewrite Hslice, length_firstn.
      destruct (Z.le_gt_cases (Buffer.byteLength buffer) (offset + 4)) as [H|H];
        [specialize (Hnone H); discriminate|].
      unfold Buffer.byteLength in *. lia.
    + exists []. rewrite app_nil_r. cbn [length concat removelast].
      repeat split; auto; [do 2 f_equal; lia|].
      symmetry. apply skipn_all2. unfold Buffer.byteLength in *. lia.
Qed.

(** The payload: the bytes of the buffer from the offset on. *)
Lemma payload_skipn (buffer : Buffer.t) (offset : Z) :
  0 <= offset <= Buffer.byteLength buffer ->
  Buffer.byteLength buffer <= Buffer.kMaxLength ->
  payload buffer offset = Ok (skipn (Z.to_nat offset) buffer).
Proof.
  intros Ho Hmax. unfold payload, Buffer.alloc.
  destruct (Z.ltb_spec (Buffer.byteLength buffer - offset) 0); [lia|].
  destruct (Z.ltb_spec Buffer.kMaxLength (Buffer.byteLength buffer - offset));
    [lia|].
  cbn [orb bind]. unfold Buffer.copy.
  assert (Hz : Buffer.byteLength
                 (repeat x00 (Z.to_nat (Buffer.byteLength buffer - offset)))
               = Buffer.byteLength buffer - offset)
    by (unfold Buffer.byteLength in *; rewrite repeat_length; lia).
  rewrite Hz.
  destruct (Z.leb_spec (Buffer.byteLength buffer - offset) 0) as [Hle|Hgt].
  - cbn [orb]. replace (Buffer.byteLength buffer - offset) with 0 by lia.
    cbn [Z.to_nat repeat]. f_equal. symmetry. apply skipn_all2.
    unfold Buffer.byteLength in *. lia.
  - destruct (Z.leb_spec (Buffer.byteLength buffer) offset); [lia|].
    destruct (Z.ltb_spec (Buffer.byteLength buffer) offset); [lia|].
    cbn [orb]. unfold Buffer.slice.
    rewrite Z.max_r, Z.min_l by lia.
    rewrite repeat_length.
    assert (Hlen : length (skipn (Z.to_nat offset) buffer)
                   = Z.to_nat (Buffer.byteLength buffer - offset))
      by (rewrite length_skipn; unfold Buffer.byteLength; lia).
    rewrite <- Hlen, !firstn_all, Hlen.
    rewrite FrameParserMoreFacts.skipn_repeat, Nat.sub_diag.
    cbn [repeat]. apply f_equal, app_nil_r.
Qed.

Lemma payload_beyond (buffer : Buffer.t) (offset : Z) :
  Buffer.byteLength buffer < offset -> payload buffer offset = Throw RangeError.
Proof.
  intros Ho. unfold payload, Buffer.alloc.
  destruct (Z.ltb_spec (Buffer.byteLength buffer - offset) 0); [|lia].
  reflexivity.
Qed.

End PacketParserFacts.

Module PacketParserSpec.
Import PacketParser PacketParserFacts.

(** X23: [parseVersionNegotiationPacket] from an offset of at least 0
    ends, and cuts all the bytes from the offset on into versions of
    four bytes each; when the number of these bytes is no multiple of
    four the last version is shorter.  The offset returned is four
    times the number of versions further, so it can lie beyond the
    buffer. *)
Theorem parseVersionNegotiationPacket_versions (BaseHeader : Type)
    (header : BaseHeader) (buffer : Buffer.t) (offset : Z) :
  0 <= offset ->
  exists versions,
    parseVersionNegotiationPacket header buffer offset
    = Some (mkPacketOffset (VersionNegotiationPacket header versions)
              (offset + 4 * Z.of_nat (length versions))) /\
    concat versions = skipn (Z.to_nat offset) buffer /\
    Forall (fun v => (1 <= length v <= 4)%nat) versions /\
    Forall (fun v => length v = 4%nat) (removelast versions).
Proof.
  intros Ho.
  destruct (parseVersionNegotiationPacket_while_versions buffer
              (length buffer) offset [] Ho)
    as (versions & Hrun & Hcat & Hlen & Hfull & _);
    [unfold Buffer.byteLength; lia|].
  exists versions. unfold parseVersionNegotiationPacket. rewrite Hrun.
  cbn [app]. auto.
Qed.

Lemma parseVersionNegotiationPacket_versions_witness :
  exists versions,
    parseVersionNegotiationPacket tt
      [x80; xff; x00; x00; x0c; xff; x00] 1
    = Some (mkPacketOffset (VersionNegotiationPacket tt versions)
              (1 + 4 * Z.of_nat (length versions))) /\
    concat versions
    = skipn (Z.to_nat 1) [x80; xff; x00; x00; x0c; xff; x00] /\
    Forall (fun v => (1 <= length v <= 4)%nat) versions /\
    Forall (fun v => length v = 4%nat) (removelast versions).
Proof.
  apply (parseVersionNegotiationPacket_versions unit tt
           [x80; xff; x00; x00; x0c; xff; x00] 1).
  lia.
Defined.

(** X24: the payload of a packet.  [parseShortHeaderPacket],
    [parseClientInitialPacket], [parseProtected0RTTPacket] and
    [parseHandshakePacket], called with the offset where the header
    ends: when the offset is within the buffer they hand exactly the
    bytes from that offset on to their decryption, parse the frames of
    what it returns from offset 0 and return the offset unchanged, and
    what the decryption or the frame parser raises is raised; when the
    offset is beyond the buffer they raise a [RangeError] before
    anything is decrypted. *)
Theorem packet_payload (FT : FrameTypeEnum)
    (Connection BaseHeader EndpointType : Type)
    (clearTextDecrypt protected0RTTDecrypt protected1RTTDecrypt :
       Connection -> BaseHeader -> Buffer.t -> EndpointType -> result Buffer.t)
    (connection : Connection) (header : BaseHeader) (buffer : Buffer.t)
    (offset : Z) (endpoint : EndpointType) :
  0 <= offset ->
  Buffer.byteLength buffer <= Buffer.kMaxLength ->
  let data := skipn (Z.to_nat offset) buffer in
  let run decrypt build :=
    match decrypt connection header data endpoint with
    | Throw e => Some (Throw e)
    | Ok decrypted =>
        match FrameParser.parse FT decrypted 0 with
        | None => None
        | Some (Throw e) => Some (Throw e)
        | Some (Ok frames) => Some (Ok (mkPacketOffset (build frames) offset))
        end
    end in
  let parsed :=
    [ parseShortHeaderPacket FT Connection BaseHeader EndpointType
        protected1RTTDecrypt connection (mkHeaderOffset header offset) buffer
        endpoint;
      parseClientInitialPacket FT Connection BaseHeader EndpointType
        clearTextDecrypt connection header buffer offset endpoint;
      parseProtected0RTTPacket FT Connection BaseHeader EndpointType
        protected0RTTDecrypt connection header buffer offset endpoint;
      parseHandshakePacket FT Connection BaseHeader EndpointType
        clearTextDecrypt connection header buffer offset endpoint ] in
  (offset <= Buffer.byteLength buffer ->
   parsed = [ run protected1RTTDecrypt (ShortHeaderPacket header);
              run clearTextDecrypt (ClientInitialPacket header);
              run protected0RTTDecrypt (Protected0RTTPacket header);
              run clearTextDecrypt (HandshakePacket header) ]) /\
  (Buffer.byteLength buffer < offset ->
   parsed = repeat (Some (Throw RangeError)) 4).
Proof.
  intros Ho Hmax data run parsed.
  unfold parsed, parseShortHeaderPacket, parseClientInitialPacket,
    parseProtected0RTTPacket, parseHandshakePacket, framesPacket, run, data.
  cbn [PacketParser.header headerOffset_offset].
  split; intros Hend.
  - rewrite (payload_skipn buffer offset (conj Ho Hend) Hmax). reflexivity.
  - rewrite (payload_beyond buffer offset Hend). reflexivity.
Qed.

Lemma packet_payload_witness :
  parseHandshakePacket FrameType unit unit unit noDecrypt tt tt
    [xff; x07; x00; x00] 1 tt
  = Some (Ok (mkPacketOffset (HandshakePacket tt [FPing; FPadding 1]) 1)) /\
  parseHandshakePacket FrameType unit unit unit noDecrypt tt tt
    [xff; x07; x00; x00] 5 tt
  = Some (Throw RangeError).
Proof.
  destruct (packet_payload FrameType unit unit unit noDecrypt noDecrypt
              noDecrypt tt tt [xff; x07; x00; x00] 1 tt)
    as [Hin _]; [lia|vm_compute; discriminate|].
  destruct (packet_payload FrameType unit unit unit noDecrypt noDecrypt
              noDecrypt tt tt [xff; x07; x00; x00] 5 tt)
    as [_ Hout]; [lia|vm_compute; discriminate|].
  specialize (Hin ltac:(vm_compute; discriminate)).
  specialize (Hout ltac:(reflexivity)).
  split.
  - exact (f_equal (fun parsed => nth 3 parsed None) Hin).
  - exact (f_equal (fun parsed => nth 3 parsed None) Hout).
Defined.

End PacketParserSpec.
